(** * Weather NFT generator: the mint pipeline

    A shallow embedding of the transaction-construction and dispatch
    pipeline of the Angular application:

    - [WeatherGeneratorComponent] (weather-generator.component.ts):
      [ngOnInit], [getWeather], [encodeMintCall], [getBaseScanLink];
    - [BaseAccountService] (services/base-account.service.ts):
      [connectWallet], [ensureSubAccount], [sendTransactionFromSub],
      [sendTxViaEthRpc], [getSubAccountAddress], [getUniversalAddress].

    JavaScript strings are sequences of UTF-16 code units; they are modelled
    as lists of [N], a code unit being a number below 65536.  The built-ins
    the source calls (padStart, padEnd, replace, Array.from on a string,
    Number.prototype.toString, JSON.stringify, encodeURIComponent, btoa,
    trim) are written out after ECMA-262 and the HTML standard. *)

From Stdlib Require Import String Ascii.
From Stdlib Require Import NArith ZArith List Lia Bool.
Import ListNotations.

Ltac Zify.zify_post_hook ::= Z.to_euclidean_division_equations.

Open Scope N_scope.

(** ** JavaScript strings *)

Definition jsstring := list N.

(** A literal of ASCII characters, one code unit per character. *)
Definition js (s : string) : jsstring :=
  map N_of_ascii (list_ascii_of_string s).

Arguments js s%_string.

Definition codeUnit (c : N) : Prop := c < 65536.
Definition wfString (s : jsstring) : Prop := Forall codeUnit s.

Definition isAsciiUnit (c : N) : bool := c <? 128.
Definition isAscii (s : jsstring) : bool := forallb isAsciiUnit s.

Definition isHighSurrogate (c : N) : bool := (55296 <=? c) && (c <=? 56319).
Definition isLowSurrogate (c : N) : bool := (56320 <=? c) && (c <=? 57343).

Fixpoint jsstring_eqb (a b : jsstring) : bool :=
  match a, b with
  | [], [] => true
  | x :: a', y :: b' => (x =? y) && jsstring_eqb a' b'
  | _, _ => false
  end.

Fixpoint startsWith (p s : jsstring) : bool :=
  match p, s with
  | [], _ => true
  | x :: p', y :: s' => (x =? y) && startsWith p' s'
  | _ :: _, [] => false
  end.

(** [String.prototype.replace(pattern, replacement)] with a string pattern:
    the first occurrence only.  The replacement text of the source is the
    empty string, so the dollar patterns of the replacement never arise. *)
Fixpoint String_replace (pat rep s : jsstring) : jsstring :=
  if startsWith pat s then rep ++ skipn (length pat) s
  else match s with
       | [] => []
       | c :: s' => c :: String_replace pat rep s'
       end.

(** [n] code units taken cyclically from [fill], starting at [cur]. *)
Fixpoint fillTo (n : nat) (cur fill : jsstring) : jsstring :=
  match n with
  | O => []
  | S n' =>
      match cur with
      | c :: cur' => c :: fillTo n' cur' fill
      | [] => match fill with
              | c :: cur' => c :: fillTo n' cur' fill
              | [] => []
              end
      end
  end.

(** [String.prototype.padStart(maxLength, fillString)]. *)
Definition padStart (maxLength : nat) (fillString s : jsstring) : jsstring :=
  if (maxLength <=? length s)%nat then s
  else fillTo (maxLength - length s) fillString fillString ++ s.

(** [String.prototype.padEnd(maxLength, fillString)]. *)
Definition padEnd (maxLength : nat) (fillString s : jsstring) : jsstring :=
  if (maxLength <=? length s)%nat then s
  else s ++ fillTo (maxLength - length s) fillString fillString.

(** The string iterator behind [Array.from(string)]: one element per code
    point, a surrogate pair giving one element of two code units and a lone
    surrogate an element of its own. *)
Fixpoint Array_from (s : jsstring) : list jsstring :=
  match s with
  | [] => []
  | c :: rest =>
      match rest with
      | d :: rest' =>
          if isHighSurrogate c && isLowSurrogate d
          then [c; d] :: Array_from rest'
          else [c] :: Array_from rest
      | [] => [[c]]
      end
  end.

(** [charCodeAt(0)]; [None] stands for NaN (the empty string). *)
Definition charCodeAt0 (s : jsstring) : option N :=
  match s with
  | [] => None
  | c :: _ => Some c
  end.

(** ** Digits *)

Definition digitChar (d : N) : N := if d <? 10 then 48 + d else 87 + d.
Definition digitCharUpper (d : N) : N := if d <? 10 then 48 + d else 55 + d.

(** Digits of [n] in radix [r], least significant first. *)
Fixpoint digitsLE (fuel : nat) (r n : N) : list N :=
  match fuel with
  | O => [n mod r]
  | S fuel' => if n <? r then [n] else (n mod r) :: digitsLE fuel' r (n / r)
  end.

Definition digits (r n : N) : list N :=
  rev (digitsLE (N.to_nat (N.size n)) r n).

(** [Number.prototype.toString(radix)] on a non-negative integer. *)
Definition toStringRadix (r n : N) : jsstring := map digitChar (digits r n).

(** [x.toString(16)] where [x] is NaN or a non-negative integer. *)
Definition charCode_toString16 (x : option N) : jsstring :=
  match x with
  | None => js "NaN"
  | Some n => toStringRadix 16 n
  end.

(** The quotient [len / 2] of the source is a Number: an integer when [len]
    is even and an integer plus one half when it is odd.  It is kept as the
    integer part and the parity. *)
Definition Number_half (len : nat) : N * bool :=
  (N.of_nat len / 2, N.odd (N.of_nat len)).

(** [toString(16)] of such a Number; one half is [.8] in radix 16. *)
Definition half_toString16 (x : N * bool) : jsstring :=
  toStringRadix 16 (fst x) ++ (if snd x then js ".8" else []).

(** [Math.ceil(n / d)] on natural numbers. *)
Definition ceilDiv (n d : nat) : nat := ((n + (d - 1)) / d)%nat.

(** [Math.ceil(len / 64) * 64] on a string length. *)
Definition ceil64 (len : nat) : nat := (ceilDiv len 64 * 64)%nat.

(** ** encodeMintCall *)

Definition selector : jsstring := js "0x40c10f19".

Definition offset : jsstring :=
  js "0000000000000000000000000000000000000000000000000000000000000040".

Definition tokenURIHex (tokenURI : jsstring) : jsstring :=
  concat (map (fun c => padStart 2 (js "0") (charCode_toString16 (charCodeAt0 c)))
              (Array_from tokenURI)).

Definition encodeMintCall (to tokenURI : jsstring) : jsstring :=
  let toPadded := padStart 64 (js "0") (String_replace (js "0x") [] to) in
  let tokenURIHex := tokenURIHex tokenURI in
  let lengthHex := Number_half (length tokenURIHex) in
  let lenPadded := padStart 64 (js "0") (half_toString16 lengthHex) in
  selector ++ toPadded ++ offset ++ lenPadded
    ++ padEnd (ceil64 (length tokenURIHex)) (js "0") tokenURIHex.


(** ** Reading the encoded call back

    The EncodedCall is a byte sequence written as hex text after the [0x]
    marker: two hex characters per byte. *)

Definition hexValue (c : N) : option N :=
  if (48 <=? c) && (c <=? 57) then Some (c - 48)
  else if (97 <=? c) && (c <=? 102) then Some (c - 87)
  else if (65 <=? c) && (c <=? 70) then Some (c - 55)
  else None.

Definition isHexDigitChar (c : N) : bool :=
  match hexValue c with Some _ => true | None => false end.

Fixpoint hexAcc (acc : N) (s : jsstring) : option N :=
  match s with
  | [] => Some acc
  | c :: s' =>
      match hexValue c with
      | Some d => hexAcc (acc * 16 + d) s'
      | None => None
      end
  end.

(** A hex text read as a big-endian unsigned integer. *)
Definition bigEndian (hex : jsstring) : option N :=
  match hex with
  | [] => None
  | _ => hexAcc 0 hex
  end.

Definition hexText (out : jsstring) : jsstring := skipn 2 out.

(** [count] bytes starting at byte [start] of a hex text. *)
Definition bytesAt (start count : nat) (hex : jsstring) : jsstring :=
  firstn (2 * count) (skipn (2 * start) hex).

(** The segments of the layout: selector, address, offset, length, data. *)
Definition selectorField (out : jsstring) : jsstring := bytesAt 0 4 (hexText out).
Definition addressField (out : jsstring) : jsstring := bytesAt 4 32 (hexText out).
Definition offsetField (out : jsstring) : jsstring := bytesAt 36 32 (hexText out).
Definition lengthField (out : jsstring) : jsstring := bytesAt 68 32 (hexText out).
Definition dataField (out : jsstring) : jsstring := skipn (2 * 100) (hexText out).

(** ** UTF-8 *)

Definition utf8Octets (cp : N) : list N :=
  if cp <? 128 then [cp]
  else if cp <? 2048 then [192 + cp / 64; 128 + cp mod 64]
  else if cp <? 65536 then
    [224 + cp / 4096; 128 + (cp / 64) mod 64; 128 + cp mod 64]
  else
    [240 + cp / 262144; 128 + (cp / 4096) mod 64;
     128 + (cp / 64) mod 64; 128 + cp mod 64].

(** The code point of a surrogate pair. *)
Definition surrogatePair (hi lo : N) : N :=
  (hi - 55296) * 1024 + (lo - 56320) + 65536.

(** The UTF-8 encoding of a string, as [TextEncoder] computes it: a lone
    surrogate is encoded as U+FFFD. *)
Fixpoint utf8Encode (s : jsstring) : list N :=
  match s with
  | [] => []
  | c :: rest =>
      if isHighSurrogate c then
        match rest with
        | d :: rest' =>
            if isLowSurrogate d
            then utf8Octets (surrogatePair c d) ++ utf8Encode rest'
            else utf8Octets 65533 ++ utf8Encode rest
        | [] => utf8Octets 65533
        end
      else if isLowSurrogate c then utf8Octets 65533 ++ utf8Encode rest
      else utf8Octets c ++ utf8Encode rest
  end.

(** ** The input types of the call encoder *)

Definition dataPrefix : jsstring := js "data:application/json;base64,".

Definition isBase64Char (c : N) : bool :=
  ((65 <=? c) && (c <=? 90)) || ((97 <=? c) && (c <=? 122))
  || ((48 <=? c) && (c <=? 57)) || (c =? 43) || (c =? 47) || (c =? 61).

(** A TokenURI: [data:application/json;base64,] followed by base64 text. *)
Definition isTokenURI (t : jsstring) : bool :=
  startsWith dataPrefix t && forallb isBase64Char (skipn (length dataPrefix) t).

(** A 20-byte account address as hex text, with or without [0x]. *)
Definition isAddress (a : jsstring) : bool :=
  let h := if startsWith (js "0x") a then skipn 2 a else a in
  (length h =? 40)%nat && forallb isHexDigitChar h.

(** The longest string of the language has 2^53 - 1 code units. *)
Definition maxStringLength : N := 2 ^ 53 - 1.

(** ** Numbers

    A Number is NaN, an infinity, a zero, or a finite non-zero value given
    by a sign and a decimal [s * 10^e] that denotes it.  [Number::toString]
    works from the shortest such decimal: trailing zeros of [s] are moved
    into the exponent first. *)

Inductive Number : Type :=
| NaN
| Infinity (negative : bool)
| Zero (negative : bool)
| Finite (negative : bool) (s : positive) (e : Z).

Fixpoint stripZeros (fuel : nat) (s : N) (e : Z) : N * Z :=
  match fuel with
  | O => (s, e)
  | S fuel' =>
      if (s mod 10 =? 0) && negb (s =? 0)
      then stripZeros fuel' (s / 10) (e + 1)%Z
      else (s, e)
  end.

(** Steps 5 to 11 of [Number::toString(x, 10)] for a positive finite [x]:
    [k] digits [ds] of [s], and [n] with [x = s * 10^(n - k)]. *)
Definition Finite_toString (s : N) (e : Z) : jsstring :=
  let '(s, e) := stripZeros (N.to_nat (N.size s)) s e in
  let ds := map digitChar (digits 10 s) in
  let k := Z.of_nat (length ds) in
  let n := (e + k)%Z in
  if ((-5 <=? n) && (n <=? 21))%Z then
    if (k <=? n)%Z then ds ++ repeat 48 (Z.to_nat (n - k))
    else if (0 <? n)%Z then
      firstn (Z.to_nat n) ds ++ js "." ++ skipn (Z.to_nat n) ds
    else js "0." ++ repeat 48 (Z.to_nat (- n)) ++ ds
  else
    let ex := map digitChar (digits 10 (Z.to_N (Z.abs (n - 1)))) in
    let sign := if (n <? 0)%Z then js "-" else js "+" in
    match ds with
    | [] => []
    | [d] => [d] ++ js "e" ++ sign ++ ex
    | d :: rest => [d] ++ js "." ++ rest ++ js "e" ++ sign ++ ex
    end.

(** [Number::toString(x, 10)], the ToString of a template literal. *)
Definition Number_toString (x : Number) : jsstring :=
  match x with
  | NaN => js "NaN"
  | Zero _ => js "0"
  | Infinity false => js "Infinity"
  | Infinity true => js "-Infinity"
  | Finite false s e => Finite_toString (Npos s) e
  | Finite true s e => js "-" ++ Finite_toString (Npos s) e
  end.

Definition Number_isFinite (x : Number) : bool :=
  match x with
  | NaN | Infinity _ => false
  | _ => true
  end.

Definition Number_of_N (n : N) : Number :=
  match n with
  | N0 => Zero false
  | Npos p => Finite false p 0
  end.

(** ** Values

    The data values of the language: what a JSON text or a structured RPC
    result can hold, and [undefined].  The members of an object are kept in
    enumeration order. *)

Unset Elimination Schemes.

Inductive jsval : Type :=
| VUndefined
| VNull
| VBool (b : bool)
| VNumber (x : Number)
| VString (s : jsstring)
| VArray (elements : list jsval)
| VObject (members : list (jsstring * jsval)).

Set Elimination Schemes.

(** ToBoolean. *)
Definition truthy (v : jsval) : bool :=
  match v with
  | VUndefined | VNull => false
  | VBool b => b
  | VNumber NaN | VNumber (Zero _) => false
  | VNumber _ => true
  | VString [] => false
  | VString _ => true
  | VArray _ | VObject _ => true
  end.

Definition nullish (v : jsval) : bool :=
  match v with
  | VUndefined | VNull => true
  | _ => false
  end.

(** What is thrown: the errors of the built-ins the source calls, and the
    reason a collaborator's promise is rejected with. *)
Inductive exn : Type :=
| TypeError
| URIError
| InvalidCharacterError
| Rejection (reason : jsval).

Inductive outcome (A : Type) : Type :=
| Ok (a : A)
| Throw (e : exn).

Arguments Ok {A} a.
Arguments Throw {A} e.

Definition obind {A B} (x : outcome A) (f : A -> outcome B) : outcome B :=
  match x with
  | Ok a => f a
  | Throw e => Throw e
  end.

Fixpoint lookup (k : jsstring) (members : list (jsstring * jsval)) : option jsval :=
  match members with
  | [] => None
  | (k', v) :: rest => if jsstring_eqb k k' then Some v else lookup k rest
  end.

Definition isDigitChar (c : N) : bool := (48 <=? c) && (c <=? 57).

(** An array index written canonically: [0], or digits without a leading
    zero. *)
Definition arrayIndex (k : jsstring) : option nat :=
  match k with
  | [] => None
  | [48] => Some 0%nat
  | c :: _ =>
      if (49 <=? c) && (c <=? 57) && forallb isDigitChar k
      then Some (N.to_nat (fold_left (fun a d => a * 10 + (d - 48)) k 0))
      else None
  end.

Definition orUndefined (o : option jsval) : jsval :=
  match o with
  | Some v => v
  | None => VUndefined
  end.

(** Property read [v.k] or [v[k]] for a property name [k]: own data
    properties only.  The inherited members of the built-in prototypes are
    not modelled; none is named by the source. *)
Definition getProp (v : jsval) (k : jsstring) : outcome jsval :=
  match v with
  | VUndefined | VNull => Throw TypeError
  | VBool _ | VNumber _ => Ok VUndefined
  | VString s =>
      if jsstring_eqb k (js "length")
      then Ok (VNumber (Number_of_N (N.of_nat (length s))))
      else match arrayIndex k with
           | Some i => Ok (orUndefined (option_map (fun c => VString [c]) (nth_error s i)))
           | None => Ok VUndefined
           end
  | VArray l =>
      if jsstring_eqb k (js "length")
      then Ok (VNumber (Number_of_N (N.of_nat (length l))))
      else match arrayIndex k with
           | Some i => Ok (orUndefined (nth_error l i))
           | None => Ok VUndefined
           end
  | VObject ms => Ok (orUndefined (lookup k ms))
  end.

(** Optional chaining [v?.k]. *)
Definition optGetProp (v : jsval) (k : jsstring) : outcome jsval :=
  if nullish v then Ok VUndefined else getProp v k.

(** [a || b], the right operand evaluated only when the left one is
    falsy. *)
Definition orElse (a : outcome jsval) (b : outcome jsval) : outcome jsval :=
  obind a (fun x => if truthy x then Ok x else b).

(** The expression [result?.txHash || result?.hash || null] of
    [getWeather]. *)
Definition txHashOf (result : jsval) : outcome jsval :=
  orElse (orElse (optGetProp result (js "txHash")) (optGetProp result (js "hash")))
         (Ok VNull).

(** ** The weather observation

    The response of the weather collaborator, with the members [getWeather]
    reads: [name], [weather[0].description] and [main.temp]. *)

Record Condition : Type := { description : jsstring }.

Record Main : Type := { temp : Number }.

Record Weather : Type := {
  name : jsstring;
  weather : list Condition;
  main : Main
}.

(** A WeatherObservation: location name, primary condition description and
    temperature. *)
Record WeatherObservation : Type := {
  location : jsstring;
  condition : jsstring;
  temperature : Number
}.

(** The response that carries an observation. *)
Definition responseOf (obs : WeatherObservation) : Weather :=
  {| name := location obs;
     weather := [ {| description := condition obs |} ];
     main := {| temp := temperature obs |} |}.

(** [this.weather.weather[0].description]: the element read is [undefined]
    on an empty array, and reading a member of it throws. *)
Definition weather0_description (w : Weather) : outcome jsstring :=
  match nth_error (weather w) 0 with
  | Some c => Ok (description c)
  | None => Throw TypeError
  end.

(** ** The NFT metadata *)

Module NFT.

Record Attribute : Type := { trait_type : jsstring; value : jsstring }.

Record Metadata : Type := {
  name : jsstring;
  description : jsstring;
  attributes : list Attribute
}.

Definition attributeValue (a : Attribute) : jsval :=
  VObject [ (js "trait_type", VString (trait_type a));
            (js "value", VString (value a)) ].

(** The object the literal of [getWeather] evaluates to. *)
Definition toValue (m : Metadata) : jsval :=
  VObject [ (js "name", VString (name m));
            (js "description", VString (description m));
            (js "attributes", VArray (map attributeValue (attributes m))) ].

End NFT.

(** The degree sign U+00B0. *)
Definition degree : N := 176.

(** The metadata literal of [getWeather]; [date] is the text
    [new Date().toLocaleString()] gives when the literal is evaluated. *)
Definition buildMetadata (w : Weather) (date : jsstring) : outcome NFT.Metadata :=
  obind (weather0_description w) (fun description1 =>
  obind (weather0_description w) (fun description2 =>
  Ok {| NFT.name := js "Weather in " ++ name w;
        NFT.description :=
          js "Forecast for " ++ name w ++ js ": " ++ description1 ++ js ", "
            ++ Number_toString (temp (main w)) ++ [degree] ++ js "C";
        NFT.attributes :=
          [ {| NFT.trait_type := js "City"; NFT.value := name w |};
            {| NFT.trait_type := js "Temperature";
               NFT.value := Number_toString (temp (main w)) ++ [degree] ++ js "C" |};
            {| NFT.trait_type := js "Condition"; NFT.value := description2 |};
            {| NFT.trait_type := js "Date"; NFT.value := date |} ] |})).

(** MetadataBuilder on an observation. *)
Definition MetadataBuilder (obs : WeatherObservation) (date : jsstring)
  : outcome NFT.Metadata :=
  buildMetadata (responseOf obs) date.

(** ** JSON.stringify *)

(** UnicodeEscape: [\u] and four lowercase hex digits. *)
Definition UnicodeEscape (c : N) : jsstring :=
  js "\u" ++ padStart 4 (js "0") (toStringRadix 16 c).

(** The two-character escapes of QuoteJSONString. *)
Definition shortEscape (c : N) : option N :=
  if c =? 8 then Some 98          (* backspace, b *)
  else if c =? 9 then Some 116    (* tab, t *)
  else if c =? 10 then Some 110   (* line feed, n *)
  else if c =? 12 then Some 102   (* form feed, f *)
  else if c =? 13 then Some 114   (* carriage return, r *)
  else if c =? 34 then Some 34    (* double quote *)
  else if c =? 92 then Some 92    (* backslash *)
  else None.

(** The body of QuoteJSONString, code point by code point: a short escape,
    a unicode escape for a control character or a lone surrogate, the code
    point itself otherwise. *)
Fixpoint quoteBody (s : jsstring) : jsstring :=
  match s with
  | [] => []
  | c :: rest =>
      match shortEscape c with
      | Some e => 92 :: e :: quoteBody rest
      | None =>
          if c <? 32 then UnicodeEscape c ++ quoteBody rest
          else if isHighSurrogate c then
            match rest with
            | d :: rest' =>
                if isLowSurrogate d then c :: d :: quoteBody rest'
                else UnicodeEscape c ++ quoteBody rest
            | [] => UnicodeEscape c
            end
          else if isLowSurrogate c then UnicodeEscape c ++ quoteBody rest
          else c :: quoteBody rest
      end
  end.

Definition QuoteJSONString (s : jsstring) : jsstring :=
  [34] ++ quoteBody s ++ [34].

Fixpoint joinWith (sep : jsstring) (parts : list jsstring) : jsstring :=
  match parts with
  | [] => []
  | [p] => p
  | p :: rest => p ++ sep ++ joinWith sep rest
  end.

(** SerializeJSONProperty without a gap: [None] is [undefined], which an
    object leaves out and an array writes as [null]. *)
Fixpoint SerializeJSONProperty (v : jsval) : option jsstring :=
  match v with
  | VUndefined => None
  | VNull => Some (js "null")
  | VBool true => Some (js "true")
  | VBool false => Some (js "false")
  | VNumber x => Some (if Number_isFinite x then Number_toString x else js "null")
  | VString s => Some (QuoteJSONString s)
  | VArray l =>
      Some (js "[" ++ joinWith (js ",")
              (map (fun x => match SerializeJSONProperty x with
                             | Some t => t
                             | None => js "null"
                             end) l)
            ++ js "]")
  | VObject ms =>
      Some (js "{" ++ joinWith (js ",")
              (flat_map (fun kv : jsstring * jsval => let (k, x) := kv in
                                   match SerializeJSONProperty x with
                                   | Some t => [QuoteJSONString k ++ js ":" ++ t]
                                   | None => []
                                   end) ms)
            ++ js "}")
  end.

Definition JSON_stringify (v : jsval) : option jsstring := SerializeJSONProperty v.

(** ** encodeURIComponent *)

Definition isAlpha (c : N) : bool :=
  ((65 <=? c) && (c <=? 90)) || ((97 <=? c) && (c <=? 122)).

(** uriUnreserved: letters, digits and the marks [- _ . ! ~ * ' ( )]. *)
Definition uriUnreserved (c : N) : bool :=
  isAlpha c || isDigitChar c
  || (c =? 45) || (c =? 95) || (c =? 46) || (c =? 33) || (c =? 126)
  || (c =? 42) || (c =? 39) || (c =? 40) || (c =? 41).

(** An octet as [%XX], two uppercase hex digits. *)
Definition percentOctet (b : N) : jsstring :=
  [37] ++ padStart 2 (js "0") (map digitCharUpper (digits 16 b)).

Definition percentOctets (bs : list N) : jsstring := flat_map percentOctet bs.

(** Encode with the unreserved set of [encodeURIComponent]; an unpaired
    surrogate is a URIError. *)
Fixpoint encodeURIComponent (s : jsstring) : outcome jsstring :=
  match s with
  | [] => Ok []
  | c :: rest =>
      if uriUnreserved c then
        obind (encodeURIComponent rest) (fun r => Ok (c :: r))
      else if isLowSurrogate c then Throw URIError
      else if isHighSurrogate c then
        match rest with
        | d :: rest' =>
            if isLowSurrogate d
            then obind (encodeURIComponent rest') (fun r =>
                   Ok (percentOctets (utf8Octets (surrogatePair c d)) ++ r))
            else Throw URIError
        | [] => Throw URIError
        end
      else obind (encodeURIComponent rest) (fun r =>
             Ok (percentOctets (utf8Octets c) ++ r))
  end.

(** ** The replacement of percent escapes

    [s.replace(/%([0-9A-F]{2})/g, (_, p1) => String.fromCharCode(parseInt(p1, 16)))]:
    a left-to-right scan, each match replaced by one code unit. *)

Definition isUpperHex (c : N) : bool :=
  ((48 <=? c) && (c <=? 57)) || ((65 <=? c) && (c <=? 70)).

(** [parseInt(p1, 16)] on a text of hex digits; [None] is NaN. *)
Definition parseInt16 (p1 : jsstring) : option N := bigEndian p1.

(** [String.fromCharCode]: ToUint16 of its argument, NaN giving 0. *)
Definition fromCharCode (x : option N) : N :=
  match x with
  | Some n => n mod 65536
  | None => 0
  end.

Fixpoint replacePercentEscapes (s : jsstring) : jsstring :=
  match s with
  | [] => []
  | c :: rest =>
      match rest with
      | h1 :: h2 :: rest' =>
          if (c =? 37) && isUpperHex h1 && isUpperHex h2
          then fromCharCode (parseInt16 [h1; h2]) :: replacePercentEscapes rest'
          else c :: replacePercentEscapes rest
      | _ => c :: replacePercentEscapes rest
      end
  end.

(** ** btoa *)

Definition base64Char (n : N) : N :=
  if n <? 26 then 65 + n
  else if n <? 52 then 71 + n
  else if n <? 62 then n - 4
  else if n =? 62 then 43
  else 47.

Fixpoint base64Encode (bs : list N) : jsstring :=
  match bs with
  | [] => []
  | [a] => [base64Char (a / 4); base64Char (a mod 4 * 16); 61; 61]
  | [a; b] =>
      [base64Char (a / 4); base64Char (a mod 4 * 16 + b / 16);
       base64Char (b mod 16 * 4); 61]
  | a :: b :: c :: rest =>
      base64Char (a / 4) :: base64Char (a mod 4 * 16 + b / 16)
        :: base64Char (b mod 16 * 4 + c / 64) :: base64Char (c mod 64)
        :: base64Encode rest
  end.

(** [btoa(data)]: an InvalidCharacterError when a code unit is above 255,
    the base64 text of the code units as bytes otherwise. *)
Definition btoa (data : jsstring) : outcome jsstring :=
  if forallb (fun c => c <=? 255) data then Ok (base64Encode data)
  else Throw InvalidCharacterError.

(** ** The token URI *)

(** ToString of the result of [JSON.stringify], [undefined] included. *)
Definition stringOrUndefined (o : option jsstring) : jsstring :=
  match o with
  | Some s => s
  | None => js "undefined"
  end.

(** Lines 82 to 88 of [getWeather]: the token URI of a metadata value. *)
Definition encodeTokenURI (metadata : jsval) : outcome jsstring :=
  let jsonStr := JSON_stringify metadata in
  obind (encodeURIComponent (stringOrUndefined jsonStr)) (fun escaped =>
  obind (btoa (replacePercentEscapes escaped)) (fun b64 =>
  Ok (dataPrefix ++ b64))).

(** URIEncoder on the metadata record. *)
Definition URIEncoder (m : NFT.Metadata) : outcome jsstring :=
  encodeTokenURI (NFT.toValue m).

(** ** String.prototype.trim *)

(** WhiteSpace and LineTerminator code units. *)
Definition isWhiteSpace (c : N) : bool :=
  (c =? 9) || (c =? 10) || (c =? 11) || (c =? 12) || (c =? 13) || (c =? 32)
  || (c =? 160) || (c =? 5760) || ((8192 <=? c) && (c <=? 8202))
  || (c =? 8232) || (c =? 8233) || (c =? 8239) || (c =? 8287)
  || (c =? 12288) || (c =? 65279).

Fixpoint trimStart (s : jsstring) : jsstring :=
  match s with
  | [] => []
  | c :: rest => if isWhiteSpace c then trimStart rest else s
  end.

Definition trim (s : jsstring) : jsstring :=
  rev (trimStart (rev (trimStart s))).

(** [s || fallback] on strings: the empty string is falsy. *)
Definition stringOr (s fallback : jsstring) : jsstring :=
  match s with
  | [] => fallback
  | _ => s
  end.

(** ** The wallet transport

    The requests [BaseAccountService] sends through the provider, and the
    result each is cast to. *)

Record SubAccount : Type := { address : jsstring }.

Record SubAccountsResponse : Type := {
  subAccounts : option (list SubAccount)   (* [None]: the member is absent *)
}.

Module SendCalls.
Record Call : Type := { to : jsstring; data : jsstring; value : jsstring }.
Record Params : Type := {
  version : jsstring;
  atomicRequired : bool;
  from : jsstring;
  calls : list Call
}.
End SendCalls.

Module SendTransaction.
Record Params : Type := {
  from : jsstring;
  to : jsstring;
  data : jsstring;
  value : jsstring
}.
End SendTransaction.

Inductive Request : Type :=
| eth_requestAccounts
| wallet_getSubAccounts (account : jsval) (domain : jsstring)
| wallet_addSubAccount (accountType : jsstring)
| wallet_sendCalls (params : SendCalls.Params)
| eth_sendTransaction (params : SendTransaction.Params).

Definition Response (r : Request) : Type :=
  match r with
  | eth_requestAccounts => list jsstring
  | wallet_getSubAccounts _ _ => SubAccountsResponse
  | wallet_addSubAccount _ => SubAccount
  | wallet_sendCalls _ => jsval
  | eth_sendTransaction _ => jsval
  end.

(** What the program does to the outside, in order. *)
Inductive event : Type :=
| HttpGet (url : jsstring)
| Rpc (r : Request)
| ConsoleError (err : exn).

(** The collaborators, over a state [E] of their own: the provider of the
    account SDK, the HTTP client, the clock and the page, with the constants
    the source takes from files outside the core. *)
Class World (E : Type) : Type := {
  provider_request : forall r : Request, E -> outcome (Response r) * E;
  http_get : jsstring -> E -> outcome Weather * E;
  (** [new Date().toLocaleString()] *)
  Date_toLocaleString : E -> jsstring;
  (** [window.location.origin] *)
  location_origin : E -> jsstring;
  (** [environment.openWeatherApiKey] *)
  openWeatherApiKey : jsstring;
  (** the message text the engine gives a built-in error *)
  engineMessage : exn -> jsstring
}.

(** ** The two objects and the machine *)

Module BaseAccountService.
Record state : Type := {
  universalAddress : jsval;
  subAccount : option SubAccount
}.
Definition initial : state :=
  {| universalAddress := VNull; subAccount := None |}.
End BaseAccountService.

Module WeatherGeneratorComponent.
Record state : Type := {
  city : jsstring;
  weather : option Weather;     (* [None]: null or undefined *)
  loading : bool;
  txHash : jsval;
  error : jsval
}.
Definition initial : state :=
  {| city := []; weather := None; loading := false;
     txHash := VNull; error := VUndefined |}.
End WeatherGeneratorComponent.

Import BaseAccountService(universalAddress, subAccount).
Import WeatherGeneratorComponent(city, loading, txHash, error).

Record Machine (E : Type) : Type := {
  component : WeatherGeneratorComponent.state;
  service : BaseAccountService.state;
  env : E;
  trace : list event
}.

Arguments component {E} _.
Arguments service {E} _.
Arguments env {E} _.
Arguments trace {E} _.

(** A computation: it may throw, and whatever it did stays done. *)
Definition M (E A : Type) : Type := Machine E -> outcome A * Machine E.

Definition ret {E A} (a : A) : M E A := fun m => (Ok a, m).

Definition throw {E A} (e : exn) : M E A := fun m => (Throw e, m).

Definition bind {E A B} (x : M E A) (f : A -> M E B) : M E B :=
  fun m =>
    match x m with
    | (Ok a, m') => f a m'
    | (Throw e, m') => (Throw e, m')
    end.

Definition lift {E A} (x : outcome A) : M E A := fun m => (x, m).

Declare Scope machine_scope.
Delimit Scope machine_scope with machine.
Notation "x <- c1 ;; c2" := (bind c1 (fun x => c2))
  (at level 61, c1 at next level, right associativity) : machine_scope.
Notation "c1 ;; c2" := (bind c1 (fun _ => c2))
  (at level 61, right associativity) : machine_scope.

(** [try { body } catch (err) { handler }] *)
Definition tryCatch {E A} (body : M E A) (handler : exn -> M E A) : M E A :=
  fun m =>
    match body m with
    | (Ok a, m') => (Ok a, m')
    | (Throw e, m') => handler e m'
    end.

(** [try { body } finally { final }] *)
Definition tryFinally {E A} (body : M E A) (final : M E unit) : M E A :=
  fun m =>
    let (r, m') := body m in
    match final m' with
    | (Ok _, m'') => (r, m'')
    | (Throw e, m'') => (Throw e, m'')
    end.

Section Program.

Context {E : Type} {W : World E}.

Local Open Scope machine_scope.

(** The machine after the outside answered: its new state [e'] and the
    event on the trace. *)
Definition recorded (m : Machine E) (e' : E) (ev : event) : Machine E :=
  {| component := component m; service := service m;
     env := e'; trace := trace m ++ [ev] |}.

Definition emit (ev : event) : M E unit :=
  fun m => (Ok tt, recorded m (env m) ev).

(** [await this.provider.request(...)] *)
Definition request (r : Request) : M E (Response r) :=
  fun m =>
    let (res, e') := provider_request r (env m) in
    (res, recorded m e' (Rpc r)).

(** [await this._http.get(url).toPromise()] *)
Definition httpGet (url : jsstring) : M E Weather :=
  fun m =>
    let (res, e') := http_get url (env m) in
    (res, recorded m e' (HttpGet url)).

Definition readEnv {A} (f : E -> A) : M E A := fun m => (Ok (f (env m)), m).

Definition getService : M E BaseAccountService.state :=
  fun m => (Ok (service m), m).

Definition setService (s : BaseAccountService.state) : M E unit :=
  fun m => (Ok tt, {| component := component m; service := s;
                      env := env m; trace := trace m |}).

Definition getComponent : M E WeatherGeneratorComponent.state :=
  fun m => (Ok (component m), m).

Definition setComponent (c : WeatherGeneratorComponent.state) : M E unit :=
  fun m => (Ok tt, {| component := c; service := service m;
                      env := env m; trace := trace m |}).

(** [this.universalAddress = v] *)
Definition set_universalAddress (v : jsval) : M E unit :=
  s <- getService ;;
  setService {| universalAddress := v; subAccount := subAccount s |}.

(** [this.subAccount = sub] *)
Definition set_subAccount (sub : SubAccount) : M E unit :=
  s <- getService ;;
  setService {| universalAddress := universalAddress s;
                subAccount := Some sub |}.

(** [sub.address] where [sub] may be null. *)
Definition member_address (sub : option SubAccount) : M E jsstring :=
  match sub with
  | Some s => ret (address s)
  | None => throw TypeError
  end.

(** *** BaseAccountService *)

Definition connectWallet : M E (list jsstring) :=
  accounts <- request eth_requestAccounts ;;
  set_universalAddress
    (match nth_error accounts 0 with
     | Some a => VString a
     | None => VUndefined
     end) ;;
  match accounts with
  | _ :: account1 :: _ =>            (* accounts.length >= 2 *)
      set_subAccount {| address := account1 |}
  | _ => ret tt
  end ;;
  ret accounts.

Definition ensureSubAccount : M E (option SubAccount) :=
  s <- getService ;;
  match subAccount s with
  | Some sub => ret (Some sub)
  | None =>
      origin <- readEnv location_origin ;;
      resp <- request (wallet_getSubAccounts (universalAddress s) origin) ;;
      match subAccounts resp with
      | Some (first :: _) =>         (* present and length > 0 *)
          set_subAccount {| address := address first |}
      | _ =>
          newSub <- request (wallet_addSubAccount (js "create")) ;;
          set_subAccount {| address := address newSub |}
      end ;;
      s' <- getService ;;
      ret (subAccount s')
  end.

(** The default of the parameter [value]. *)
Definition defaultValue : jsstring := js "0x0".

Definition valueOrDefault (value : option jsstring) : jsstring :=
  match value with
  | Some v => v
  | None => defaultValue
  end.

Definition sendTransactionFromSub (to data : jsstring) (value : option jsstring)
  : M E jsval :=
  let value := valueOrDefault value in
  sub <- ensureSubAccount ;;
  from <- member_address sub ;;
  let callsParam :=
    {| SendCalls.version := js "2.0";
       SendCalls.atomicRequired := true;
       SendCalls.from := from;
       SendCalls.calls :=
         [ {| SendCalls.to := to; SendCalls.data := data;
              SendCalls.value := value |} ] |} in
  result <- request (wallet_sendCalls callsParam) ;;
  ret result.

Definition sendTxViaEthRpc (to data : jsstring) (value : option jsstring)
  : M E jsval :=
  let value := valueOrDefault value in
  sub <- ensureSubAccount ;;
  from <- member_address sub ;;
  let txReq :=
    {| SendTransaction.from := from; SendTransaction.to := to;
       SendTransaction.data := data; SendTransaction.value := value |} in
  tx <- request (eth_sendTransaction txReq) ;;
  ret tx.

Definition getSubAccountAddress : M E jsstring :=
  sub <- ensureSubAccount ;;
  member_address sub.

Definition getUniversalAddress : M E jsval :=
  s <- getService ;;
  ret (universalAddress s).

(** *** WeatherGeneratorComponent *)

Definition CONTRACT_ADDRESS : jsstring :=
  js "0xb4F800E5647f9B82Be98068cb98c516f871bb7B8".

Definition ngOnInit : M E unit :=
  connectWallet ;; ret tt.

Definition weatherUrl (cityName : jsstring) : jsstring :=
  js "https://api.openweathermap.org/data/2.5/weather?q=" ++ cityName
    ++ js "&appid=" ++ openWeatherApiKey ++ js "&units=metric".

Definition set_loading (b : bool) : M E unit :=
  c <- getComponent ;;
  setComponent {| city := city c; WeatherGeneratorComponent.weather := WeatherGeneratorComponent.weather c;
                  loading := b; txHash := txHash c; error := error c |}.

Definition set_txHash (v : jsval) : M E unit :=
  c <- getComponent ;;
  setComponent {| city := city c; WeatherGeneratorComponent.weather := WeatherGeneratorComponent.weather c;
                  loading := loading c; txHash := v; error := error c |}.

Definition set_weather (w : option Weather) : M E unit :=
  c <- getComponent ;;
  setComponent {| city := city c; WeatherGeneratorComponent.weather := w;
                  loading := loading c; txHash := txHash c; error := error c |}.

Definition set_error (v : jsval) : M E unit :=
  c <- getComponent ;;
  setComponent {| city := city c; WeatherGeneratorComponent.weather := WeatherGeneratorComponent.weather c;
                  loading := loading c; txHash := txHash c; error := v |}.

(** [err["message"]]: the message of a built-in error, a member read on
    whatever else was thrown. *)
Definition messageOf (err : exn) : outcome jsval :=
  match err with
  | Rejection reason => getProp reason (js "message")
  | _ => Ok (VString (engineMessage err))
  end.

(** The steps of [getWeather] after the fetch: the assignment of
    [this.weather] and lines 69 to 106. *)
Definition mintWeatherNFT (w : Weather) : M E unit :=
  set_weather (Some w) ;;
  date <- readEnv Date_toLocaleString ;;
  metadata <- lift (buildMetadata w date) ;;
  tokenURI <- lift (encodeTokenURI (NFT.toValue metadata)) ;;
  subAddress <- getSubAccountAddress ;;
  let mintFunction_to := CONTRACT_ADDRESS in
  let mintFunction_data := encodeMintCall subAddress tokenURI in
  result <- sendTransactionFromSub mintFunction_to mintFunction_data None ;;
  hash <- lift (txHashOf result) ;;
  set_txHash hash.

(** The catch block of [getWeather]. *)
Definition reportError (err : exn) : M E unit :=
  message <- lift (messageOf err) ;;
  set_error message ;;
  emit (ConsoleError err).

Definition getWeather : M E unit :=
  set_loading true ;;
  set_txHash VNull ;;
  set_weather None ;;
  tryFinally
    (tryCatch
       (c <- getComponent ;;
        let cityName := stringOr (trim (city c)) (js "Washington") in
        let url := weatherUrl cityName in
        w <- httpGet url ;;
        mintWeatherNFT w)
       reportError)
    (set_loading false).

End Program.

(** ** A scripted world

    Collaborators that answer from a script, whatever they are asked; they
    keep no state. *)

Module Scripted.

Record Script : Type := {
  accounts : list jsstring;
  discovered : outcome SubAccountsResponse;
  created : outcome SubAccount;
  sent : outcome jsval;
  fetched : outcome Weather;
  clock : jsstring
}.

Definition respond (s : Script) (r : Request) : outcome (Response r) :=
  match r as r0 return outcome (Response r0) with
  | eth_requestAccounts => Ok (accounts s)
  | wallet_getSubAccounts _ _ => discovered s
  | wallet_addSubAccount _ => created s
  | wallet_sendCalls _ => sent s
  | eth_sendTransaction _ => sent s
  end.

Definition world (s : Script) : World unit :=
  {| provider_request := fun r e => (respond s r, e);
     http_get := fun _ e => (fetched s, e);
     Date_toLocaleString := fun _ => clock s;
     location_origin := fun _ => js "http://localhost:4200";
     openWeatherApiKey := js "key";
     engineMessage := fun _ => js "error" |}.

Definition start : Machine unit :=
  {| component := WeatherGeneratorComponent.initial;
     service := BaseAccountService.initial;
     env := tt;
     trace := [] |}.

End Scripted.

(** * The reader of a token URI

    What a consumer of the token does with the URI: take the payload after
    [data:application/json;base64,], decode the base64 text to bytes, decode
    the bytes as UTF-8 and parse the text as JSON.  None of this is in the
    source; it is written after the standards (forgiving-base64 decode of
    the HTML standard, UTF-8 of RFC 3629, JSON.parse of ECMA-262) to state
    the round trip of the encoder. *)

(** ** atob *)

Definition isAsciiWhitespace (c : N) : bool :=
  (c =? 9) || (c =? 10) || (c =? 12) || (c =? 13) || (c =? 32).

Definition base64Value (c : N) : option N :=
  if (65 <=? c) && (c <=? 90) then Some (c - 65)
  else if (97 <=? c) && (c <=? 122) then Some (c - 71)
  else if (48 <=? c) && (c <=? 57) then Some (c + 4)
  else if c =? 43 then Some 62
  else if c =? 47 then Some 63
  else None.

(** One or two [=] at the end are removed when the length is a multiple of
    four. *)
Definition stripPadding (d : jsstring) : jsstring :=
  if (length d mod 4 =? 0)%nat then
    match rev d with
    | c1 :: r1 =>
        if c1 =? 61 then
          match r1 with
          | c2 :: r2 => if c2 =? 61 then rev r2 else rev r1
          | [] => rev r1
          end
        else d
    | [] => d
    end
  else d.

Fixpoint sextets (d : jsstring) : option (list N) :=
  match d with
  | [] => Some []
  | c :: r =>
      match base64Value c, sextets r with
      | Some v, Some vs => Some (v :: vs)
      | _, _ => None
      end
  end.

(** Four sextets give three bytes; two or three left over give one or two
    bytes, the spare bits dropped. *)
Fixpoint decodeSextets (vs : list N) : list N :=
  match vs with
  | a :: b :: c :: d :: rest =>
      (a * 4 + b / 16) :: (b mod 16 * 16 + c / 4) :: (c mod 4 * 64 + d)
        :: decodeSextets rest
  | [a; b; c] => [a * 4 + b / 16; b mod 16 * 16 + c / 4]
  | [a; b] => [a * 4 + b / 16]
  | _ => []
  end.

(** [atob(data)]: the bytes, one per code unit. *)
Definition atob (data : jsstring) : outcome jsstring :=
  let d := stripPadding (filter (fun c => negb (isAsciiWhitespace c)) data) in
  if (length d mod 4 =? 1)%nat then Throw InvalidCharacterError
  else match sextets d with
       | Some vs => Ok (decodeSextets vs)
       | None => Throw InvalidCharacterError
       end.

(** ** UTF-8 decoding *)

Definition isContinuation (b : N) : bool := (128 <=? b) && (b <=? 191).

(** The code units of a code point. *)
Definition utf16Units (cp : N) : jsstring :=
  if cp <? 65536 then [cp]
  else [55296 + (cp - 65536) / 1024; 56320 + (cp - 65536) mod 1024].

Definition consUnits (cp : N) (r : option jsstring) : option jsstring :=
  option_map (app (utf16Units cp)) r.

(** Strict decoding: overlong forms, surrogates, code points above U+10FFFF
    and truncated sequences are errors. *)
Fixpoint utf8Decode (bs : list N) : option jsstring :=
  match bs with
  | [] => Some []
  | b0 :: r0 =>
      if b0 <? 128 then consUnits b0 (utf8Decode r0)
      else if (194 <=? b0) && (b0 <=? 223) then
        match r0 with
        | b1 :: r1 =>
            if isContinuation b1
            then consUnits ((b0 - 192) * 64 + (b1 - 128)) (utf8Decode r1)
            else None
        | _ => None
        end
      else if (224 <=? b0) && (b0 <=? 239) then
        match r0 with
        | b1 :: b2 :: r2 =>
            let cp := (b0 - 224) * 4096 + (b1 - 128) * 64 + (b2 - 128) in
            if isContinuation b1 && isContinuation b2 && (2048 <=? cp)
               && negb ((55296 <=? cp) && (cp <=? 57343))
            then consUnits cp (utf8Decode r2)
            else None
        | _ => None
        end
      else if (240 <=? b0) && (b0 <=? 244) then
        match r0 with
        | b1 :: b2 :: b3 :: r3 =>
            let cp := (b0 - 240) * 262144 + (b1 - 128) * 4096
                      + (b2 - 128) * 64 + (b3 - 128) in
            if isContinuation b1 && isContinuation b2 && isContinuation b3
               && (65536 <=? cp) && (cp <=? 1114111)
            then consUnits cp (utf8Decode r3)
            else None
        | _ => None
        end
      else None
  end.

(** ** JSON.parse *)

Inductive parsed (A : Type) : Type :=
| Parsed (a : A) (rest : jsstring)
| SyntaxError
| NumberLiteral      (* a number: its conversion is outside the model *)
| NoFuel.

Arguments Parsed {A} a rest.
Arguments SyntaxError {A}.
Arguments NumberLiteral {A}.
Arguments NoFuel {A}.

Definition isJSONWhitespace (c : N) : bool :=
  (c =? 9) || (c =? 10) || (c =? 13) || (c =? 32).

Fixpoint skipWhitespace (s : jsstring) : jsstring :=
  match s with
  | [] => []
  | c :: r => if isJSONWhitespace c then skipWhitespace r else s
  end.

(** The character after a backslash, [u] apart. *)
Definition unescape (e : N) : option N :=
  if e =? 34 then Some 34
  else if e =? 92 then Some 92
  else if e =? 47 then Some 47
  else if e =? 98 then Some 8
  else if e =? 102 then Some 12
  else if e =? 110 then Some 10
  else if e =? 114 then Some 13
  else if e =? 116 then Some 9
  else None.

Definition consUnit (u : N) (r : option (jsstring * jsstring))
  : option (jsstring * jsstring) :=
  match r with
  | Some (str, rest) => Some (u :: str, rest)
  | None => None
  end.

(** A string after its opening quote: the value and what follows the
    closing quote. *)
Fixpoint parseStringBody (s : jsstring) : option (jsstring * jsstring) :=
  match s with
  | [] => None
  | c :: rest =>
      if c =? 34 then Some ([], rest)
      else if c =? 92 then
        match rest with
        | [] => None
        | e :: rest1 =>
            if e =? 117 then
              match rest1 with
              | h1 :: h2 :: h3 :: h4 :: rest2 =>
                  match bigEndian [h1; h2; h3; h4] with
                  | Some u => consUnit u (parseStringBody rest2)
                  | None => None
                  end
              | _ => None
              end
            else
              match unescape e with
              | Some u => consUnit u (parseStringBody rest1)
              | None => None
              end
        end
      else if c <? 32 then None
      else consUnit c (parseStringBody rest)
  end.

(** An array index of an object key: canonical and below 2^32 - 1. *)
Definition integerIndex (k : jsstring) : option nat :=
  match arrayIndex k with
  | Some i => if (N.of_nat i <? 4294967295) then Some i else None
  | None => None
  end.

(** Where a new member goes: integer indices first, in ascending order,
    then the other keys in the order they were created. *)
Fixpoint insertMember (k : jsstring) (v : jsval) (ms : list (jsstring * jsval))
  : list (jsstring * jsval) :=
  match ms with
  | [] => [(k, v)]
  | (k', v') :: rest =>
      match integerIndex k, integerIndex k' with
      | Some i, Some i' =>
          if (i <? i')%nat then (k, v) :: ms else (k', v') :: insertMember k v rest
      | Some _, None => (k, v) :: ms
      | None, _ => (k', v') :: insertMember k v rest
      end
  end.

Fixpoint replaceMember (k : jsstring) (v : jsval) (ms : list (jsstring * jsval))
  : list (jsstring * jsval) :=
  match ms with
  | [] => []
  | (k', v') :: rest =>
      if jsstring_eqb k k' then (k', v) :: rest
      else (k', v') :: replaceMember k v rest
  end.

(** CreateDataProperty on an ordinary object. *)
Definition defineMember (ms : list (jsstring * jsval)) (kv : jsstring * jsval)
  : list (jsstring * jsval) :=
  let (k, v) := kv in
  match lookup k ms with
  | Some _ => replaceMember k v ms
  | None => insertMember k v ms
  end.

Definition objectOf (members : list (jsstring * jsval)) : jsval :=
  VObject (fold_left defineMember members []).

Definition isNumberStart (c : N) : bool := (c =? 45) || isDigitChar c.

(** The text after the character [c], when the text starts with it. *)
Definition after (c : N) (s : jsstring) : option jsstring :=
  match s with
  | x :: r => if x =? c then Some r else None
  | [] => None
  end.

Fixpoint parseValue (fuel : nat) (s : jsstring) : parsed jsval :=
  match fuel with
  | O => NoFuel
  | S fuel' =>
      match skipWhitespace s with
      | [] => SyntaxError
      | c :: r =>
          if c =? 34 then
            match parseStringBody r with
            | Some (str, rest) => Parsed (VString str) rest
            | None => SyntaxError
            end
          else if c =? 91 then
            match after 93 (skipWhitespace r) with
            | Some rest => Parsed (VArray []) rest
            | None =>
                match parseElements fuel' r with
                | Parsed l rest => Parsed (VArray l) rest
                | SyntaxError => SyntaxError
                | NumberLiteral => NumberLiteral
                | NoFuel => NoFuel
                end
            end
          else if c =? 123 then
            match after 125 (skipWhitespace r) with
            | Some rest => Parsed (VObject []) rest
            | None =>
                match parseMembers fuel' r with
                | Parsed ms rest => Parsed (objectOf ms) rest
                | SyntaxError => SyntaxError
                | NumberLiteral => NumberLiteral
                | NoFuel => NoFuel
                end
            end
          else if startsWith (js "true") (c :: r)
          then Parsed (VBool true) (skipn 4 (c :: r))
          else if startsWith (js "false") (c :: r)
          then Parsed (VBool false) (skipn 5 (c :: r))
          else if startsWith (js "null") (c :: r)
          then Parsed VNull (skipn 4 (c :: r))
          else if isNumberStart c then NumberLiteral
          else SyntaxError
      end
  end

with parseElements (fuel : nat) (s : jsstring) : parsed (list jsval) :=
  match fuel with
  | O => NoFuel
  | S fuel' =>
      match parseValue fuel' s with
      | Parsed v rest =>
          match after 44 (skipWhitespace rest) with
          | Some rest' =>
              match parseElements fuel' rest' with
              | Parsed l rest'' => Parsed (v :: l) rest''
              | other => other
              end
          | None =>
              match after 93 (skipWhitespace rest) with
              | Some rest' => Parsed [v] rest'
              | None => SyntaxError
              end
          end
      | SyntaxError => SyntaxError
      | NumberLiteral => NumberLiteral
      | NoFuel => NoFuel
      end
  end

with parseMembers (fuel : nat) (s : jsstring) : parsed (list (jsstring * jsval)) :=
  match fuel with
  | O => NoFuel
  | S fuel' =>
      match after 34 (skipWhitespace s) with
      | Some r =>
          match parseStringBody r with
          | Some (k, rest) =>
              match after 58 (skipWhitespace rest) with
              | Some rest1 =>
                  match parseValue fuel' rest1 with
                  | Parsed v rest2 =>
                      match after 44 (skipWhitespace rest2) with
                      | Some rest3 =>
                          match parseMembers fuel' rest3 with
                          | Parsed ms rest4 => Parsed ((k, v) :: ms) rest4
                          | other => other
                          end
                      | None =>
                          match after 125 (skipWhitespace rest2) with
                          | Some rest3 => Parsed [(k, v)] rest3
                          | None => SyntaxError
                          end
                      end
                  | SyntaxError => SyntaxError
                  | NumberLiteral => NumberLiteral
                  | NoFuel => NoFuel
                  end
              | None => SyntaxError
              end
          | None => SyntaxError
          end
      | None => SyntaxError
      end
  end.

(** [JSON.parse(text)] without a reviver: one value, white space around
    it. *)
Definition JSON_parse (text : jsstring) : parsed jsval :=
  match parseValue (S (length text)) text with
  | Parsed v rest =>
      match skipWhitespace rest with
      | [] => Parsed v []
      | _ => SyntaxError
      end
  | other => other
  end.

(** The value a reader gets from a token URI. *)
Definition decodeTokenURI (uri : jsstring) : option jsval :=
  if startsWith dataPrefix uri then
    match atob (skipn (length dataPrefix) uri) with
    | Ok bytes =>
        match utf8Decode bytes with
        | Some text =>
            match JSON_parse text with
            | Parsed v _ => Some v
            | _ => None
            end
        | None => None
        end
    | Throw _ => None
    end
  else None.

(** ** Notions the properties are stated with *)

Definition valueLE (r : N) (ds : list N) : N :=
  fold_right (fun d acc => d + r * acc) 0 ds.

Section Runs.

Context {E : Type} {W : World E}.

(** The machine with the sub-account written to the cache. *)
Definition cached (m : Machine E) (sub : SubAccount) : Machine E :=
  {| component := component m;
     service := {| universalAddress := universalAddress (service m);
                   subAccount := Some sub |};
     env := env m;
     trace := trace m |}.

Definition discoveryRequest (m : Machine E) : Request :=
  wallet_getSubAccounts (universalAddress (service m)) (location_origin (env m)).

Definition creationRequest : Request := wallet_addSubAccount (js "create").

(** The runs of [ensureSubAccount]: the outcome and the machine it
    leaves. *)
Inductive ensure_run (m : Machine E)
  : outcome (option SubAccount) -> Machine E -> Prop :=
| run_cached sub :
    subAccount (service m) = Some sub ->
    ensure_run m (Ok (Some sub)) m
| run_discovery_fails e e1 :
    subAccount (service m) = None ->
    provider_request (discoveryRequest m) (env m) = (Throw e, e1) ->
    ensure_run m (Throw e) (recorded m e1 (Rpc (discoveryRequest m)))
| run_found resp e1 first rest :
    subAccount (service m) = None ->
    provider_request (discoveryRequest m) (env m) = (Ok resp, e1) ->
    subAccounts resp = Some (first :: rest) ->
    ensure_run m (Ok (Some {| address := address first |}))
      (cached (recorded m e1 (Rpc (discoveryRequest m)))
              {| address := address first |})
| run_creation_fails resp e1 e e2 :
    subAccount (service m) = None ->
    provider_request (discoveryRequest m) (env m) = (Ok resp, e1) ->
    subAccounts resp = None \/ subAccounts resp = Some [] ->
    provider_request creationRequest e1 = (Throw e, e2) ->
    ensure_run m (Throw e)
      (recorded (recorded m e1 (Rpc (discoveryRequest m))) e2
                (Rpc creationRequest))
| run_created resp e1 newSub e2 :
    subAccount (service m) = None ->
    provider_request (discoveryRequest m) (env m) = (Ok resp, e1) ->
    subAccounts resp = None \/ subAccounts resp = Some [] ->
    provider_request creationRequest e1 = (Ok newSub, e2) ->
    ensure_run m (Ok (Some {| address := address newSub |}))
      (cached (recorded (recorded m e1 (Rpc (discoveryRequest m))) e2
                        (Rpc creationRequest))
              {| address := address newSub |}).

End Runs.

(** The parameter of the batched call [sendTransactionFromSub] builds. *)
Definition callsParam (from to data value : jsstring) : SendCalls.Params :=
  {| SendCalls.version := js "2.0";
     SendCalls.atomicRequired := true;
     SendCalls.from := from;
     SendCalls.calls :=
       [ {| SendCalls.to := to; SendCalls.data := data;
            SendCalls.value := value |} ] |}.

Definition isBatchedCall (ev : event) : bool :=
  match ev with
  | Rpc (wallet_sendCalls _) => true
  | _ => false
  end.

(** The requests of the discovery-or-create sequence. *)
Definition isDiscovery (ev : event) : bool :=
  match ev with
  | Rpc (wallet_getSubAccounts _ _) => true
  | _ => false
  end.

Definition isCreation (ev : event) : bool :=
  match ev with
  | Rpc (wallet_addSubAccount _) => true
  | _ => false
  end.

(** The member [k] of a dispatch result when it is present and truthy. *)
Definition presentAndTruthy (result : jsval) (k : jsstring) : option jsval :=
  match result with
  | VObject members =>
      match lookup k members with
      | Some v => if truthy v then Some v else None
      | None => None
      end
  | _ => None
  end.

(** A script in which the wallet has no sub-account yet, creates one on
    demand and rejects the batched call. *)
Definition rejectingScript : Scripted.Script :=
  {| Scripted.accounts := [js "0x1111111111111111111111111111111111111111"];
     Scripted.discovered := Ok {| subAccounts := Some [] |};
     Scripted.created :=
       Ok {| address := js "0x2222222222222222222222222222222222222222" |};
     Scripted.sent :=
       Throw (Rejection (VObject [(js "message", VString (js "insufficient allowance"))]));
     Scripted.fetched :=
       Ok {| name := js "Paris";
             weather := [ {| description := js "clear sky" |} ];
             main := {| temp := Finite false 185 (-1) |} |};
     Scripted.clock := js "1/1/2025, 12:00:00 PM" |}.

(** The same wallet accepting the batched call. *)
Definition acceptingScript : Scripted.Script :=
  {| Scripted.accounts := Scripted.accounts rejectingScript;
     Scripted.discovered := Scripted.discovered rejectingScript;
     Scripted.created := Scripted.created rejectingScript;
     Scripted.sent := Ok (VObject [(js "hash", VString (js "0xabc"))]);
     Scripted.fetched := Scripted.fetched rejectingScript;
     Scripted.clock := Scripted.clock rejectingScript |}.

(** A wallet that hands out a sub-account on connection. *)
Definition connectingScript : Scripted.Script :=
  {| Scripted.accounts := [js "0x1111111111111111111111111111111111111111";
                           js "0x3333333333333333333333333333333333333333"];
     Scripted.discovered := Scripted.discovered rejectingScript;
     Scripted.created := Scripted.created rejectingScript;
     Scripted.sent := Scripted.sent acceptingScript;
     Scripted.fetched := Scripted.fetched rejectingScript;
     Scripted.clock := Scripted.clock rejectingScript |}.

(** The machine of [connectingScript] after [connectWallet]. *)
Definition connectedMachine : Machine unit :=
  snd (@connectWallet unit (Scripted.world connectingScript) Scripted.start).

Section Attempt.

Context {E : Type} {W : World E}.

(** The machine when the try block of [getWeather] is entered. *)
Definition entered (m : Machine E) : Machine E :=
  {| component :=
       {| city := city (component m);
          WeatherGeneratorComponent.weather := None;
          loading := true;
          txHash := VNull;
          error := error (component m) |};
     service := service m; env := env m; trace := trace m |}.

(** The URL [getWeather] fetches from, for the city of the component. *)
Definition cityUrl (m : Machine E) : jsstring :=
  weatherUrl (stringOr (trim (city (component m))) (js "Washington")).

(** The machine once the fetch of [getWeather] has answered [w]: loading,
    no transaction identifier, the weather stored, the fetch on the
    trace. *)
Definition loaded (m : Machine E) (w : Weather) (e1 : E) : Machine E :=
  {| component :=
       {| city := city (component m);
          WeatherGeneratorComponent.weather := Some w;
          loading := true;
          txHash := VNull;
          error := error (component m) |};
     service := service m;
     env := e1;
     trace := trace m ++ [HttpGet (cityUrl m)] |}.

(** The batched call of a mint: the contract as target, the encoded call
    as data. *)
Definition mintCall (sub : SubAccount) (tokenURI : jsstring) : Request :=
  wallet_sendCalls
    (callsParam (address sub) CONTRACT_ADDRESS
                (encodeMintCall (address sub) tokenURI) (js "0x0")).

End Attempt.

Section Traces.

Context {E : Type}.

(** A computation only adds to the trace. *)
Definition extends {A} (x : M E A) : Prop :=
  forall m, exists evs, trace (snd (x m)) = trace m ++ evs.

(** From [m], the first thing a computation does to the outside is
    [ev]. *)
Definition emitsFirst {A} (ev : event) (x : M E A) (m : Machine E) : Prop :=
  exists evs, trace (snd (x m)) = trace m ++ ev :: evs.

End Traces.

(** [String.prototype.isWellFormed]: no lone surrogate. *)
Fixpoint isWellFormed (s : jsstring) : bool :=
  match s with
  | [] => true
  | c :: rest =>
      if isHighSurrogate c then
        match rest with
        | d :: rest' => isLowSurrogate d && isWellFormed rest'
        | [] => false
        end
      else if isLowSurrogate c then false
      else isWellFormed rest
  end.

(** What the percent escape of an octet has to be for the replacement to
    give the octet back. *)
Definition octetEscapeOk (b : N) : bool :=
  match percentOctet b with
  | [p; h; l] =>
      (p =? 37) && isUpperHex h && isUpperHex l
      && match parseInt16 [h; l] with
         | Some v => v =? b
         | None => false
         end
  | _ => false
  end.

(** The text of the encoder without its padding. *)
Fixpoint base64Body (bs : list N) : jsstring :=
  match bs with
  | [] => []
  | [a] => [base64Char (a / 4); base64Char (a mod 4 * 16)]
  | [a; b] =>
      [base64Char (a / 4); base64Char (a mod 4 * 16 + b / 16);
       base64Char (b mod 16 * 4)]
  | a :: b :: c :: rest =>
      base64Char (a / 4) :: base64Char (a mod 4 * 16 + b / 16)
        :: base64Char (b mod 16 * 4 + c / 64) :: base64Char (c mod 64)
        :: base64Body rest
  end.

Definition base64Padding (bs : list N) : jsstring :=
  match (length bs mod 3)%nat with
  | 1%nat => [61; 61]
  | 2%nat => [61]
  | _ => []
  end.

(** Neither white space nor the padding character. *)
Definition plainChar (c : N) : Prop :=
  isAsciiWhitespace c = false /\ (c =? 61) = false.

(** The text [JSON.stringify] writes for a value inside an array. *)
Definition jsonText (v : jsval) : jsstring :=
  match SerializeJSONProperty v with
  | Some t => t
  | None => js "null"
  end.

(** The text of a member of an object. *)
Definition memberText (kv : jsstring * jsval) : jsstring :=
  QuoteJSONString (fst kv) ++ js ":" ++ jsonText (snd kv).

(** JSON-serializable values whose text reads back as the value itself:
    null, booleans, strings of code units, arrays of such values, and
    objects of such values under distinct keys that are not integer
    indices.  Numbers are left out, their conversion not being modelled;
    [undefined] is not serializable. *)
Unset Elimination Schemes.

Inductive serializable : jsval -> Prop :=
| ser_null : serializable VNull
| ser_bool b : serializable (VBool b)
| ser_string s : wfString s -> serializable (VString s)
| ser_array l : Forall serializable l -> serializable (VArray l)
| ser_object ms :
    Forall (fun kv => serializable (snd kv)) ms ->
    Forall (fun kv => wfString (fst kv) /\ integerIndex (fst kv) = None) ms ->
    NoDup (map fst ms) ->
    serializable (VObject ms).

Set Elimination Schemes.

(** The strings of a metadata record are strings of code units. *)
Definition wfAttribute (a : NFT.Attribute) : Prop :=
  wfString (NFT.trait_type a) /\ wfString (NFT.value a).

Definition wfMetadata (m : NFT.Metadata) : Prop :=
  wfString (NFT.name m) /\ wfString (NFT.description m)
  /\ Forall wfAttribute (NFT.attributes m).

Definition wfObservation (obs : WeatherObservation) : Prop :=
  wfString (location obs) /\ wfString (condition obs).

(** Strings of code units without a lone surrogate: what
    [encodeURIComponent] accepts. *)
Definition clean (s : jsstring) : Prop :=
  wfString s /\ isWellFormed s = true.

(** The text of [v] parses to [v], whatever follows it, with fuel for its
    length. *)
Definition readsBack (v : jsval) : Prop :=
  forall fuel rest,
    (length (jsonText v) <= fuel)%nat ->
    parseValue fuel (jsonText v ++ rest) = Parsed v rest.

(** An observation with text outside ASCII: Zürich, [ciel dégagé] followed
    by U+2600 and by U+1F31E, a surrogate pair. *)
Definition zurich : WeatherObservation :=
  {| location := [90; 252; 114; 105; 99; 104];
     condition := js "ciel d" ++ [233] ++ js "gag" ++ [233; 32; 9728; 55356; 57118];
     temperature := Finite true 35 (-1) |}.

(** Sample inputs of the call encoder. *)
Definition sampleAddress : jsstring :=
  js "0xb4F800E5647f9B82Be98068cb98c516f871bb7B8".

Definition sampleTokenURI : jsstring :=
  js "data:application/json;base64,eyJuYW1lIjoiV2VhdGhlciJ9".

(** * The rest of the component and readers of its output *)

(** ** getBaseScanLink *)

(** ToString of a data value, as a template literal applies it: an array
    joins the texts of its elements with commas, null and undefined
    elements giving the empty text; an object gives [[object Object]]. *)
Fixpoint ToString (v : jsval) : jsstring :=
  match v with
  | VUndefined => js "undefined"
  | VNull => js "null"
  | VBool true => js "true"
  | VBool false => js "false"
  | VNumber x => Number_toString x
  | VString s => s
  | VArray l =>
      joinWith (js ",")
        (map (fun x => match x with
                       | VUndefined | VNull => []
                       | _ => ToString x
                       end) l)
  | VObject _ => js "[object Object]"
  end.

Section Link.

Context {E : Type}.

Local Open Scope machine_scope.

Definition getBaseScanLink : M E jsstring :=
  c <- getComponent ;;
  ret (if truthy (txHash c)
       then js "https://sepolia.basescan.org/tx/" ++ ToString (txHash c)
       else []).

End Link.

(** ** A reader of the encoded call

    What the contract side does with the call data of
    [mintNFT(address,string)], after the ABI: the selector, the address in
    the low 20 bytes of the first word, the offset of the string in the
    second word, at that offset the length word and then the bytes.  It is
    not in the source; it states the round trip of [encodeMintCall]. *)

Fixpoint hexBytes (hex : jsstring) : option (list N) :=
  match hex with
  | [] => Some []
  | [_] => None
  | h :: l :: rest =>
      match hexValue h, hexValue l, hexBytes rest with
      | Some a, Some b, Some bytes => Some (a * 16 + b :: bytes)
      | _, _, _ => None
      end
  end.

(** The [i]-th 32-byte word of the arguments. *)
Definition argumentWord (i : nat) (args : jsstring) : jsstring :=
  firstn 64 (skipn (64 * i) args).

(** The address, as 40 hex characters, and the bytes of the string. *)
Definition decodeMintCall (out : jsstring) : option (jsstring * list N) :=
  if startsWith (js "0x40c10f19") out then
    let args := skipn 10 out in
    let word0 := argumentWord 0 args in
    if jsstring_eqb (firstn 24 word0) (repeat 48 24) then
      match bigEndian (argumentWord 1 args) with
      | Some off =>
          let tail := skipn (2 * N.to_nat off) args in
          match bigEndian (firstn 64 tail) with
          | Some len =>
              match hexBytes (firstn (2 * N.to_nat len) (skipn 64 tail)) with
              | Some bytes => Some (skipn 24 word0, bytes)
              | None => None
              end
          | None => None
          end
      | None => None
      end
    else None
  else None.

(** ** Kinds of events *)

Definition isFetch (ev : event) : bool :=
  match ev with
  | HttpGet _ => true
  | _ => false
  end.

Definition isConnect (ev : event) : bool :=
  match ev with
  | Rpc eth_requestAccounts => true
  | _ => false
  end.

Definition isSendTransaction (ev : event) : bool :=
  match ev with
  | Rpc (eth_sendTransaction _) => true
  | _ => false
  end.

Definition isRpc (ev : event) : bool :=
  match ev with
  | Rpc _ => true
  | _ => false
  end.

Definition isConsoleError (ev : event) : bool :=
  match ev with
  | ConsoleError _ => true
  | _ => false
  end.

(** A wallet that rejects every request, with a weather service that
    answers. *)
Definition lockedWorld : World unit :=
  {| provider_request := fun r e =>
       (Throw (Rejection (VObject [(js "message", VString (js "wallet locked"))])), e);
     http_get := fun _ e => (Scripted.fetched rejectingScript, e);
     Date_toLocaleString := fun _ => Scripted.clock rejectingScript;
     location_origin := fun _ => js "http://localhost:4200";
     openWeatherApiKey := js "key";
     engineMessage := fun _ => js "error" |}.

Section TryBlock.

Context {E : Type} {W : World E}.

Local Open Scope machine_scope.

(** The try block of [getWeather]. *)
Definition tryBlock : M E unit :=
  c <- getComponent ;;
  let cityName := stringOr (trim (city c)) (js "Washington") in
  let url := weatherUrl cityName in
  w <- httpGet url ;;
  mintWeatherNFT w.

(** The component after an attempt that was caught: the message in
    [error], [loading] false. *)
Definition reported (m : Machine E) (message : jsval) (err : exn) : Machine E :=
  {| component :=
       {| city := city (component m);
          WeatherGeneratorComponent.weather :=
            WeatherGeneratorComponent.weather (component m);
          loading := false;
          txHash := txHash (component m);
          error := message |};
     service := service m;
     env := env m;
     trace := trace m ++ [ConsoleError err] |}.

(** The machine with [loading] false. *)
Definition stopped (m : Machine E) : Machine E :=
  {| component :=
       {| city := city (component m);
          WeatherGeneratorComponent.weather :=
            WeatherGeneratorComponent.weather (component m);
          loading := false;
          txHash := txHash (component m);
          error := error (component m) |};
     service := service m;
     env := env m;
     trace := trace m |}.

(** The machine after the dispatch answered and [this.txHash] was set to
    [id]. *)
Definition minted (m2 : Machine E) (e3 : E) (ev : event) (id : jsval)
  : Machine E :=
  {| component :=
       {| city := city (component m2);
          WeatherGeneratorComponent.weather :=
            WeatherGeneratorComponent.weather (component m2);
          loading := loading (component m2);
          txHash := id;
          error := error (component m2) |};
     service := service m2;
     env := e3;
     trace := trace m2 ++ [ev] |}.

End TryBlock.

(** A wallet that already has sub-accounts for the page. *)
Definition discoveringScript : Scripted.Script :=
  {| Scripted.accounts := Scripted.accounts rejectingScript;
     Scripted.discovered :=
       Ok {| subAccounts :=
               Some [ {| address := js "0x4444444444444444444444444444444444444444" |};
                      {| address := js "0x5555555555555555555555555555555555555555" |} ] |};
     Scripted.created := Scripted.created rejectingScript;
     Scripted.sent := Scripted.sent acceptingScript;
     Scripted.fetched := Scripted.fetched rejectingScript;
     Scripted.clock := Scripted.clock rejectingScript |}.

(** A wallet whose discovery request is rejected. *)
Definition failingScript : Scripted.Script :=
  {| Scripted.accounts := Scripted.accounts rejectingScript;
     Scripted.discovered :=
       Throw (Rejection (VObject [(js "message", VString (js "user rejected"))]));
     Scripted.created := Scripted.created rejectingScript;
     Scripted.sent := Scripted.sent acceptingScript;
     Scripted.fetched := Scripted.fetched rejectingScript;
     Scripted.clock := Scripted.clock rejectingScript |}.

(** A weather service that is down, rejecting with [reason]. *)
Definition offlineScript (reason : jsval) : Scripted.Script :=
  {| Scripted.accounts := Scripted.accounts rejectingScript;
     Scripted.discovered := Scripted.discovered rejectingScript;
     Scripted.created := Scripted.created rejectingScript;
     Scripted.sent := Scripted.sent acceptingScript;
     Scripted.fetched := Throw (Rejection reason);
     Scripted.clock := Scripted.clock rejectingScript |}.

(** A weather service that answers without any condition. *)
Definition emptyScript : Scripted.Script :=
  {| Scripted.accounts := Scripted.accounts rejectingScript;
     Scripted.discovered := Scripted.discovered rejectingScript;
     Scripted.created := Scripted.created rejectingScript;
     Scripted.sent := Scripted.sent acceptingScript;
     Scripted.fetched :=
       Ok {| name := js "Paris"; weather := [];
             main := {| temp := Finite false 185 (-1) |} |};
     Scripted.clock := Scripted.clock rejectingScript |}.

(** Text whose code units are below 256. *)
Definition isLatin1 (s : jsstring) : bool := forallb (fun c => c <? 256) s.

(** The page with [s] typed as the city. *)
Definition typedCity (s : jsstring) : Machine unit :=
  {| component :=
       {| city := s;
          WeatherGeneratorComponent.weather := None;
          loading := false;
          txHash := VNull;
          error := VUndefined |};
     service := BaseAccountService.initial;
     env := tt;
     trace := [] |}.


(** The reason of a rejection that has a message. *)
Definition unavailable : jsval :=
  VObject [(js "message", VString (js "service unavailable"))].

(** * Properties *)

(** ** Lists and padding *)

Lemma skipn_exact {A} (a b : list A) n :
  length a = n -> skipn n (a ++ b) = b.
Proof.
  intros <-. rewrite skipn_app, skipn_all, Nat.sub_diag. reflexivity.
Qed.

Lemma firstn_exact {A} (a b : list A) n :
  length a = n -> firstn n (a ++ b) = a.
Proof.
  intros <-. rewrite firstn_app, firstn_all, Nat.sub_diag. simpl.
  apply app_nil_r.
Qed.

Lemma startsWith_app p s : startsWith p (p ++ s) = true.
Proof.
  induction p as [|x p IH]; simpl; [reflexivity|].
  now rewrite N.eqb_refl, IH.
Qed.

Lemma startsWith_split p s :
  startsWith p s = true -> s = p ++ skipn (length p) s.
Proof.
  revert s. induction p as [|x p IH]; intros s H; simpl in *; [reflexivity|].
  destruct s as [|y s]; [discriminate|].
  apply andb_true_iff in H as [Hxy Hp]. apply N.eqb_eq in Hxy. subst y.
  simpl. f_equal. now apply IH.
Qed.

Lemma fillTo_single c n :
  fillTo n [] [c] = repeat c n /\ fillTo n [c] [c] = repeat c n.
Proof.
  induction n as [|n [IH1 IH2]]; simpl; [split; reflexivity|].
  rewrite IH1. split; reflexivity.
Qed.

Lemma padStart_single m c s :
  padStart m [c] s = repeat c (m - length s) ++ s.
Proof.
  unfold padStart. destruct (Nat.leb_spec m (length s)) as [H|H].
  - replace (m - length s)%nat with 0%nat by lia. reflexivity.
  - now rewrite (proj2 (fillTo_single c _)).
Qed.

Lemma padEnd_single m c s :
  padEnd m [c] s = s ++ repeat c (m - length s).
Proof.
  unfold padEnd. destruct (Nat.leb_spec m (length s)) as [H|H].
  - replace (m - length s)%nat with 0%nat by lia. now rewrite app_nil_r.
  - now rewrite (proj2 (fillTo_single c _)).
Qed.

Lemma padStart_length m c s :
  length (padStart m [c] s) = Nat.max m (length s).
Proof. rewrite padStart_single, length_app, repeat_length. lia. Qed.

Lemma padEnd_length m c s :
  length (padEnd m [c] s) = Nat.max m (length s).
Proof. rewrite padEnd_single, length_app, repeat_length. lia. Qed.

(** ** Digits *)

Lemma digitsLE_length_pos fuel r n : (1 <= length (digitsLE fuel r n))%nat.
Proof. destruct fuel; simpl; [lia|]. destruct (n <? r); simpl; lia. Qed.

Lemma digitsLE_bound fuel r n :
  0 < r -> Forall (fun d => d < r) (digitsLE fuel r n).
Proof.
  intros Hr. revert n. induction fuel as [|fuel IH]; intros n; simpl.
  - constructor; [|constructor]. apply N.mod_lt. lia.
  - destruct (N.ltb_spec n r).
    + constructor; [assumption|constructor].
    + constructor; [apply N.mod_lt; lia | apply IH].
Qed.

Lemma digitsLE_value fuel r n :
  1 < r -> n < 2 ^ N.of_nat fuel -> valueLE r (digitsLE fuel r n) = n.
Proof.
  intros Hr. revert n. induction fuel as [|fuel IH]; intros n Hn.
  - simpl in *. assert (n = 0) by lia. subst n.
    rewrite N.Div0.mod_0_l. lia.
  - cbn [digitsLE]. destruct (N.ltb_spec n r).
    + simpl. lia.
    + cbn [valueLE fold_right]. fold (valueLE r (digitsLE fuel r (n / r))).
      rewrite IH.
      * pose proof (N.div_mod n r ltac:(lia)). lia.
      * rewrite Nat2N.inj_succ, N.pow_succ_r' in Hn.
        apply N.Div0.div_lt_upper_bound.
        assert (2 * 2 ^ N.of_nat fuel <= r * 2 ^ N.of_nat fuel)
          by (apply N.mul_le_mono_r; lia).
        lia.
Qed.

Lemma digitsLE_length fuel r n k :
  1 < r -> n < r ^ N.of_nat (S k) -> (length (digitsLE fuel r n) <= S k)%nat.
Proof.
  intros Hr. revert n k. induction fuel as [|fuel IH]; intros n k Hn.
  - simpl. lia.
  - cbn [digitsLE]. destruct (N.ltb_spec n r); [simpl; lia|].
    destruct k as [|k].
    + change (N.of_nat 1) with 1 in Hn. rewrite N.pow_1_r in Hn. lia.
    + cbn [length]. apply le_n_S. apply IH.
      rewrite (Nat2N.inj_succ (S k)), N.pow_succ_r' in Hn.
      apply N.Div0.div_lt_upper_bound. exact Hn.
Qed.

Lemma digits_value r n : 1 < r -> valueLE r (rev (digits r n)) = n.
Proof.
  intros Hr. unfold digits. rewrite rev_involutive.
  apply digitsLE_value; [assumption|].
  rewrite N2Nat.id. apply N.size_gt.
Qed.

Lemma digits_bound r n : 0 < r -> Forall (fun d => d < r) (digits r n).
Proof.
  intros Hr. unfold digits. apply Forall_rev. now apply digitsLE_bound.
Qed.

Lemma digits_length r n k :
  1 < r -> n < r ^ N.of_nat (S k) ->
  (1 <= length (digits r n) <= S k)%nat.
Proof.
  intros Hr Hn. unfold digits. rewrite length_rev. split.
  - apply digitsLE_length_pos.
  - now apply digitsLE_length.
Qed.

Lemma hexValue_digitChar d : d < 16 -> hexValue (digitChar d) = Some d.
Proof.
  intros H. unfold digitChar, hexValue.
  destruct (N.ltb_spec d 10).
  - replace ((48 <=? 48 + d) && (48 + d <=? 57)) with true.
    + f_equal. lia.
    + symmetry. apply andb_true_iff. split; apply N.leb_le; lia.
  - replace ((48 <=? 87 + d) && (87 + d <=? 57)) with false.
    + replace ((97 <=? 87 + d) && (87 + d <=? 102)) with true.
      * f_equal. lia.
      * symmetry. apply andb_true_iff. split; apply N.leb_le; lia.
    + symmetry. apply andb_false_iff. right. apply N.leb_gt. lia.
Qed.

Lemma hexAcc_app acc a b :
  hexAcc acc (a ++ b) =
  match hexAcc acc a with Some x => hexAcc x b | None => None end.
Proof.
  revert acc. induction a as [|c a IH]; intros acc; simpl; [reflexivity|].
  destruct (hexValue c); [apply IH|reflexivity].
Qed.

Lemma hexAcc_zeros k s : hexAcc 0 (repeat 48 k ++ s) = hexAcc 0 s.
Proof. induction k as [|k IH]; simpl; [reflexivity|exact IH]. Qed.

Lemma hexAcc_digits ds :
  Forall (fun d => d < 16) ds ->
  hexAcc 0 (map digitChar ds) = Some (valueLE 16 (rev ds)).
Proof.
  intros H. rewrite <- (rev_involutive ds) at 1.
  apply Forall_rev in H. revert H.
  generalize (rev ds) as l. induction l as [|d l IH]; intros H.
  - reflexivity.
  - inversion H as [|? ? Hd Hl]; subst. simpl rev.
    rewrite map_app, hexAcc_app, (IH Hl). cbn [map hexAcc].
    rewrite (hexValue_digitChar d Hd). cbn [valueLE fold_right].
    fold (valueLE 16 l). f_equal. lia.
Qed.

Lemma toString16_value n : hexAcc 0 (toStringRadix 16 n) = Some n.
Proof.
  unfold toStringRadix. rewrite hexAcc_digits.
  - now rewrite digits_value.
  - now apply digits_bound.
Qed.

Lemma toString16_length n k :
  n < 16 ^ N.of_nat (S k) ->
  (1 <= length (toStringRadix 16 n) <= S k)%nat.
Proof.
  intros H. unfold toStringRadix. rewrite length_map.
  now apply digits_length.
Qed.

Lemma toString16_hex n : forallb isHexDigitChar (toStringRadix 16 n) = true.
Proof.
  unfold toStringRadix. apply forallb_forall. intros c Hc.
  apply in_map_iff in Hc as [d [<- Hd]].
  pose proof (digits_bound 16 n ltac:(lia)) as Hb.
  rewrite Forall_forall in Hb. specialize (Hb d Hd).
  unfold isHexDigitChar. now rewrite hexValue_digitChar.
Qed.

(** ** The call encoder on ASCII text *)

Lemma isAscii_not_surrogate c :
  isAsciiUnit c = true -> isHighSurrogate c = false /\ isLowSurrogate c = false.
Proof.
  unfold isAsciiUnit, isHighSurrogate, isLowSurrogate. intros H.
  apply N.ltb_lt in H. split; apply andb_false_iff; left; apply N.leb_gt; lia.
Qed.

Lemma Array_from_ascii s :
  isAscii s = true -> Array_from s = map (fun c => [c]) s.
Proof.
  induction s as [|c s IH]; intros H; [reflexivity|].
  simpl in H. apply andb_true_iff in H as [Hc Hs].
  cbn [Array_from map]. destruct s as [|d s']; [reflexivity|].
  destruct (isAscii_not_surrogate c Hc) as [-> _]. cbn [andb].
  f_equal. now apply IH.
Qed.

Lemma utf8Encode_ascii s : isAscii s = true -> utf8Encode s = s.
Proof.
  induction s as [|c s IH]; intros H; [reflexivity|].
  simpl in H. apply andb_true_iff in H as [Hc Hs].
  cbn [utf8Encode]. destruct (isAscii_not_surrogate c Hc) as [-> ->].
  unfold utf8Octets. unfold isAsciiUnit in Hc. rewrite Hc.
  simpl. f_equal. now apply IH.
Qed.

Lemma hexPair_ascii c :
  isAsciiUnit c = true ->
  length (padStart 2 (js "0") (toStringRadix 16 c)) = 2%nat
  /\ forallb isHexDigitChar (padStart 2 (js "0") (toStringRadix 16 c)) = true.
Proof.
  intros H. apply N.ltb_lt in H.
  assert (Hl : (1 <= length (toStringRadix 16 c) <= 2)%nat).
  { apply toString16_length. change (16 ^ N.of_nat 2) with 256. lia. }
  change (js "0") with [48]. split.
  - rewrite padStart_length. lia.
  - rewrite padStart_single, forallb_app, toString16_hex, andb_true_r.
    apply forallb_forall. intros x Hx. apply repeat_spec in Hx. now subst x.
Qed.

Lemma tokenURIHex_ascii s :
  isAscii s = true ->
  length (tokenURIHex s) = (2 * length s)%nat
  /\ forallb isHexDigitChar (tokenURIHex s) = true.
Proof.
  intros H. unfold tokenURIHex. rewrite (Array_from_ascii s H), map_map.
  cbn [charCodeAt0 charCode_toString16].
  induction s as [|c s IH]; [split; reflexivity|].
  simpl in H. apply andb_true_iff in H as [Hc Hs].
  destruct (IH Hs) as [IHl IHh]. destruct (hexPair_ascii c Hc) as [Hl Hh].
  cbn [map concat]. rewrite length_app, forallb_app, Hl, Hh, IHl, IHh.
  split; [simpl; lia | reflexivity].
Qed.

Lemma Number_half_even n : Number_half (2 * n) = (N.of_nat n, false).
Proof.
  unfold Number_half. f_equal.
  - rewrite Nat2N.inj_mul. change (N.of_nat 2) with 2.
    rewrite N.mul_comm. apply N.div_mul. lia.
  - rewrite Nat2N.inj_mul. change (N.of_nat 2) with 2.
    apply N.odd_even.
Qed.

Lemma ceil64_double n : ceil64 (2 * n) = (ceilDiv n 32 * 32 * 2)%nat.
Proof.
  unfold ceil64, ceilDiv. cbn [Nat.sub].
  assert ((2 * n + 63) / 64 = (n + 31) / 32)%nat as ->; [|lia].
  pose proof (Nat.div_mod_eq (2 * n + 63) 64).
  pose proof (Nat.mod_upper_bound (2 * n + 63) 64 ltac:(lia)).
  pose proof (Nat.div_mod_eq (n + 31) 32).
  pose proof (Nat.mod_upper_bound (n + 31) 32 ltac:(lia)).
  lia.
Qed.

Lemma lenPadded_word n :
  N.of_nat n < 16 ^ 64 ->
  let w := padStart 64 (js "0") (half_toString16 (N.of_nat n, false)) in
  length w = 64%nat /\ bigEndian w = Some (N.of_nat n)
  /\ forallb isHexDigitChar w = true.
Proof.
  intros Hn w. subst w. unfold half_toString16. cbn [fst snd].
  rewrite app_nil_r. change (js "0") with [48].
  pose proof (toString16_length (N.of_nat n) 63 Hn) as Hl.
  split; [|split].
  - rewrite padStart_length. lia.
  - rewrite padStart_single.
    assert (He : repeat 48 (64 - length (toStringRadix 16 (N.of_nat n)))
                   ++ toStringRadix 16 (N.of_nat n) <> []).
    { intros E. apply (f_equal (@length _)) in E.
      rewrite length_app in E. simpl in E. lia. }
    unfold bigEndian.
    destruct (repeat 48 _ ++ _) eqn:E; [contradiction|].
    rewrite <- E, hexAcc_zeros. apply toString16_value.
  - rewrite padStart_single, forallb_app, toString16_hex, andb_true_r.
    apply forallb_forall. intros x Hx. apply repeat_spec in Hx. now subst x.
Qed.

(** The layout of the encoded call for an address text of at most 32 bytes
    and a token URI of ASCII characters. *)
Lemma encodeMintCall_layout (to uri : jsstring) :
  (length (String_replace (js "0x") [] to) <= 64)%nat ->
  isAscii uri = true ->
  N.of_nat (length uri) < 16 ^ 64 ->
  exists A L D,
    encodeMintCall to uri = js "0x" ++ js "40c10f19" ++ A ++ offset ++ L ++ D
    /\ A = padStart 64 (js "0") (String_replace (js "0x") [] to)
    /\ length A = 64%nat
    /\ length L = 64%nat
    /\ bigEndian L = Some (N.of_nat (length uri))
    /\ forallb isHexDigitChar L = true
    /\ D = padEnd (ceil64 (2 * length uri)) (js "0") (tokenURIHex uri)
    /\ length D = (ceilDiv (length uri) 32 * 32 * 2)%nat
    /\ forallb isHexDigitChar D = true.
Proof.
  intros Hto Hascii Hn.
  destruct (tokenURIHex_ascii uri Hascii) as [Hlen Hhex].
  destruct (lenPadded_word (length uri) Hn) as [HL1 [HL2 HL3]].
  eexists _, _, _. split; [|split; [reflexivity|]].
  - unfold encodeMintCall. rewrite Hlen, Number_half_even.
    change selector with (js "0x" ++ js "40c10f19").
    rewrite <- app_assoc. reflexivity.
  - repeat split; try assumption.
    + change (js "0") with [48]. rewrite padStart_length. lia.
    + change (js "0") with [48]. rewrite padEnd_length, ceil64_double, Hlen.
      unfold ceilDiv. cbn [Nat.sub].
      pose proof (Nat.div_mod_eq (length uri + 31) 32).
      pose proof (Nat.mod_upper_bound (length uri + 31) 32 ltac:(lia)).
      lia.
    + change (js "0") with [48]. rewrite padEnd_single, forallb_app, Hhex.
      apply forallb_forall. intros x Hx. apply repeat_spec in Hx. now subst x.
Qed.

(** ** Token URIs and addresses *)

Lemma isBase64Char_ascii c : isBase64Char c = true -> isAsciiUnit c = true.
Proof.
  unfold isBase64Char, isAsciiUnit. intros H. apply N.ltb_lt.
  repeat (apply orb_true_iff in H as [H|H]);
    try (apply andb_true_iff in H as [_ H]; apply N.leb_le in H; lia);
    apply N.eqb_eq in H; lia.
Qed.

Lemma isTokenURI_ascii t : isTokenURI t = true -> isAscii t = true.
Proof.
  unfold isTokenURI. intros H. apply andb_true_iff in H as [Hp Hb].
  rewrite (startsWith_split _ _ Hp). unfold isAscii.
  rewrite forallb_app. apply andb_true_iff. split; [reflexivity|].
  apply forallb_forall. intros c Hc. apply isBase64Char_ascii.
  rewrite forallb_forall in Hb. now apply Hb.
Qed.

Lemma hexDigit_not_x c : isHexDigitChar c = true -> (120 =? c) = false.
Proof.
  unfold isHexDigitChar, hexValue. intros H. apply N.eqb_neq. intros <-.
  discriminate H.
Qed.

Lemma String_replace_0x_absent rep s :
  forallb isHexDigitChar s = true -> String_replace (js "0x") rep s = s.
Proof.
  induction s as [|c s IH]; intros H; [reflexivity|].
  simpl in H. apply andb_true_iff in H as [Hc Hs].
  cbn [String_replace].
  assert (startsWith (js "0x") (c :: s) = false) as ->.
  { change (js "0x") with [48; 120]. cbn [startsWith].
    destruct s as [|d s']; [apply andb_false_r|].
    simpl in Hs. apply andb_true_iff in Hs as [Hd _].
    rewrite (hexDigit_not_x d Hd). apply andb_false_r. }
  f_equal. now apply IH.
Qed.

Lemma String_replace_prefix pat rep s :
  startsWith pat s = true ->
  String_replace pat rep s = rep ++ skipn (length pat) s.
Proof. intros H. destruct s; simpl; now rewrite H. Qed.

Lemma isAddress_stripped a :
  isAddress a = true ->
  length (String_replace (js "0x") [] a) = 40%nat
  /\ forallb isHexDigitChar (String_replace (js "0x") [] a) = true.
Proof.
  unfold isAddress. intros H. apply andb_true_iff in H as [Hl Hh].
  apply Nat.eqb_eq in Hl.
  destruct (startsWith (js "0x") a) eqn:Hp.
  - rewrite (String_replace_prefix _ _ _ Hp). now split.
  - rewrite (String_replace_0x_absent _ _ Hh). now split.
Qed.

Lemma stringLimit_word n : 2 * N.of_nat n <= maxStringLength -> N.of_nat n < 16 ^ 64.
Proof.
  unfold maxStringLength. intros H.
  assert (2 ^ 53 < 16 ^ 64) by (vm_compute; reflexivity). lia.
Qed.

(** A text of up to 10 KB is within the bound on the hex text. *)
Lemma tenKB_within_limit (uri : jsstring) :
  (length uri <= 10 * 1024)%nat ->
  2 * N.of_nat (length uri) <= maxStringLength.
Proof.
  intros H. unfold maxStringLength.
  assert (20480 < 2 ^ 53 - 1) by (vm_compute; reflexivity). lia.
Qed.

(** The layout for the inputs the call encoder is specified on: a 20-byte
    address and a URI, which is ASCII text. *)
Lemma encodeMintCall_segments (to uri : jsstring) :
  isAddress to = true ->
  isAscii uri = true ->
  2 * N.of_nat (length uri) <= maxStringLength ->
  let out := encodeMintCall to uri in
  out = js "0x" ++ selectorField out ++ addressField out ++ offsetField out
          ++ lengthField out ++ dataField out
  /\ selectorField out = js "40c10f19"
  /\ addressField out = padStart 64 (js "0") (String_replace (js "0x") [] to)
  /\ length (addressField out) = 64%nat
  /\ offsetField out = offset
  /\ length (lengthField out) = 64%nat
  /\ bigEndian (lengthField out) = Some (N.of_nat (length uri))
  /\ length (dataField out) = (ceilDiv (length uri) 32 * 32 * 2)%nat
  /\ forallb isHexDigitChar (hexText out) = true.
Proof.
  intros Hto Hascii Hmax out.
  destruct (isAddress_stripped to Hto) as [Hal Hah].
  destruct (encodeMintCall_layout to uri ltac:(lia) Hascii
              (stringLimit_word _ Hmax))
    as (A & L & D & Hout & HA & HAl & HLl & HLv & HLh & HD & HDl & HDh).
  assert (Hhex : hexText out = js "40c10f19" ++ A ++ offset ++ L ++ D).
  { subst out. rewrite Hout. reflexivity. }
  assert (Hs : selectorField out = js "40c10f19").
  { unfold selectorField, bytesAt. rewrite Hhex. reflexivity. }
  assert (Ha : addressField out = A).
  { unfold addressField, bytesAt. rewrite Hhex.
    rewrite skipn_exact by reflexivity. now apply firstn_exact. }
  assert (Ho : offsetField out = offset).
  { unfold offsetField, bytesAt. rewrite Hhex.
    rewrite (app_assoc (js "40c10f19") A).
    rewrite skipn_exact by (rewrite length_app, HAl; reflexivity).
    now apply firstn_exact. }
  assert (Hlf : lengthField out = L).
  { unfold lengthField, bytesAt. rewrite Hhex.
    rewrite (app_assoc A offset), (app_assoc (js "40c10f19")).
    rewrite skipn_exact by (rewrite !length_app, HAl; reflexivity).
    now apply firstn_exact. }
  assert (Hd : dataField out = D).
  { unfold dataField. rewrite Hhex.
    rewrite (app_assoc offset L), (app_assoc A), (app_assoc (js "40c10f19")).
    apply skipn_exact. rewrite !length_app, HAl, HLl. reflexivity. }
  rewrite Hs, Ha, Ho, Hlf, Hd.
  repeat split; try assumption.
  - rewrite Hhex, !forallb_app, HLh, HDh, HA.
    change (js "0") with [48]. rewrite padStart_single, forallb_app, Hah.
    replace (forallb isHexDigitChar (repeat 48 _)) with true; [reflexivity|].
    symmetry. apply forallb_forall. intros x Hx.
    apply repeat_spec in Hx. now subst x.
Qed.

(** Outside ASCII a text is not a URI, and the encoder writes the UTF-16
    code unit of each code point rather than UTF-8 bytes: for the one
    character U+00E9 the length word reads 1, the UTF-8 encoding having two
    bytes. *)
Example encodeMintCall_outside_ascii :
  bigEndian (lengthField (encodeMintCall sampleAddress [233])) = Some 1
  /\ length (utf8Encode [233]) = 2%nat.
Proof. split; reflexivity. Qed.

(** ** The account service *)

Section Service.

Context {E : Type} {W : World E}.

Lemma ensureSubAccount_run (m : Machine E) r m' :
  ensureSubAccount m = (r, m') -> ensure_run m r m'.
Proof.
  unfold ensureSubAccount, bind, getService.
  destruct (subAccount (service m)) as [sub|] eqn:Hc.
  - intros [= <- <-]. now apply run_cached.
  - unfold readEnv, request. cbn [env].
    fold (discoveryRequest m).
    destruct (provider_request (discoveryRequest m) (env m))
      as [[resp|e] e1] eqn:H1.
    + destruct (subAccounts resp) as [[|first rest]|] eqn:Hs.
      * cbn [env recorded]. fold creationRequest.
        destruct (provider_request creationRequest e1)
          as [[newSub|e] e2] eqn:H2.
        -- intros [= <- <-]. eapply run_created; eauto.
        -- intros [= <- <-]. eapply run_creation_fails; eauto.
      * intros [= <- <-]. eapply run_found; eauto.
      * cbn [env recorded]. fold creationRequest.
        destruct (provider_request creationRequest e1)
          as [[newSub|e] e2] eqn:H2.
        -- intros [= <- <-]. eapply run_created; eauto.
        -- intros [= <- <-]. eapply run_creation_fails; eauto.
    + intros [= <- <-]. now apply run_discovery_fails.
Qed.

Lemma ensureSubAccount_cached (m : Machine E) sub :
  subAccount (service m) = Some sub ->
  ensureSubAccount m = (Ok (Some sub), m).
Proof.
  intros H. unfold ensureSubAccount, bind, getService. now rewrite H.
Qed.

Lemma ensure_run_returns (m m' : Machine E) r :
  ensure_run m (Ok r) m' ->
  exists sub, r = Some sub /\ subAccount (service m') = Some sub.
Proof.
  intros H. inversion H; subst; eexists; split; try reflexivity; assumption.
Qed.

Lemma ensure_run_trace (m m' : Machine E) r :
  ensure_run m r m' ->
  exists evs,
    trace m' = trace m ++ evs
    /\ (evs = []
        \/ evs = [Rpc (discoveryRequest m)]
        \/ evs = [Rpc (discoveryRequest m); Rpc creationRequest]).
Proof.
  intros H. inversion H; subst; cbn [trace cached recorded].
  - exists []. rewrite app_nil_r. auto.
  - eexists. split; [reflexivity|auto].
  - eexists. split; [reflexivity|auto].
  - eexists. rewrite <- app_assoc. split; [reflexivity|auto].
  - eexists. rewrite <- app_assoc. split; [reflexivity|auto].
Qed.

Lemma ensure_run_component (m m' : Machine E) r :
  ensure_run m r m' -> component m' = component m.
Proof. intros H. inversion H; subst; reflexivity. Qed.

Lemma ensure_run_keeps_cache (m m' : Machine E) r sub :
  subAccount (service m) = Some sub -> ensure_run m r m' ->
  r = Ok (Some sub) /\ m' = m.
Proof.
  intros Hc H. inversion H; subst; try congruence.
  split; [congruence|reflexivity].
Qed.

(** A resolution that throws caches nothing: the next call starts the
    discovery again. *)
Lemma ensure_run_failure (m m' : Machine E) e :
  subAccount (service m) = None ->
  ensure_run m (Throw e) m' -> subAccount (service m') = None.
Proof. intros Hc H. inversion H; subst; exact Hc. Qed.

(** [sendTransactionFromSub] is [ensureSubAccount] followed by one
    request. *)
Lemma sendTransactionFromSub_run to data value (m : Machine E) :
  sendTransactionFromSub to data value m =
  match ensureSubAccount m with
  | (Ok (Some sub), m1) =>
      let p := callsParam (address sub) to data (valueOrDefault value) in
      (fst (provider_request (wallet_sendCalls p) (env m1)),
       recorded m1 (snd (provider_request (wallet_sendCalls p) (env m1)))
                (Rpc (wallet_sendCalls p)))
  | (Ok None, m1) => (Throw TypeError, m1)
  | (Throw e, m1) => (Throw e, m1)
  end.
Proof.
  unfold sendTransactionFromSub, bind.
  destruct (ensureSubAccount m) as [[[sub|]|e] m1]; cbn; try reflexivity.
  unfold request, callsParam.
  destruct (provider_request _ (env m1)) as [[res|e] e']; reflexivity.
Qed.

Lemma sendTxViaEthRpc_run to data value (m : Machine E) :
  sendTxViaEthRpc to data value m =
  match ensureSubAccount m with
  | (Ok (Some sub), m1) =>
      let t := {| SendTransaction.from := address sub;
                  SendTransaction.to := to;
                  SendTransaction.data := data;
                  SendTransaction.value := valueOrDefault value |} in
      (fst (provider_request (eth_sendTransaction t) (env m1)),
       recorded m1 (snd (provider_request (eth_sendTransaction t) (env m1)))
                (Rpc (eth_sendTransaction t)))
  | (Ok None, m1) => (Throw TypeError, m1)
  | (Throw e, m1) => (Throw e, m1)
  end.
Proof.
  unfold sendTxViaEthRpc, bind.
  destruct (ensureSubAccount m) as [[[sub|]|e] m1]; cbn; try reflexivity.
  unfold request.
  destruct (provider_request _ (env m1)) as [[res|e] e']; reflexivity.
Qed.

Lemma getSubAccountAddress_run (m : Machine E) :
  getSubAccountAddress m =
  match ensureSubAccount m with
  | (Ok (Some sub), m1) => (Ok (address sub), m1)
  | (Ok None, m1) => (Throw TypeError, m1)
  | (Throw e, m1) => (Throw e, m1)
  end.
Proof.
  unfold getSubAccountAddress, bind.
  destruct (ensureSubAccount m) as [[[sub|]|e] m1]; reflexivity.
Qed.

(** What [connectWallet] leaves in the cache. *)
Lemma connectWallet_cache (m : Machine E) :
  subAccount (service (snd (connectWallet m))) =
  match fst (provider_request eth_requestAccounts (env m)) with
  | Ok (_ :: account1 :: _) => Some {| address := account1 |}
  | _ => subAccount (service m)
  end.
Proof.
  unfold connectWallet, bind, request.
  destruct (provider_request eth_requestAccounts (env m))
    as [[accounts|e] e1]; [|reflexivity].
  destruct accounts as [|a0 [|a1 rest]]; reflexivity.
Qed.

End Service.

(** ** Traces *)

Section TraceLemmas.

Context {E : Type} {W : World E}.

Lemma extends_ret {A} (a : A) : extends (@ret E A a).
Proof. intros m. exists []. now rewrite app_nil_r. Qed.

Lemma extends_throw {A} e : extends (@throw E A e).
Proof. intros m. exists []. now rewrite app_nil_r. Qed.

Lemma extends_lift {A} (x : outcome A) : extends (@lift E A x).
Proof. intros m. exists []. now rewrite app_nil_r. Qed.

Lemma extends_bind {A B} (x : M E A) (f : A -> M E B) :
  extends x -> (forall a, extends (f a)) -> extends (bind x f).
Proof.
  intros Hx Hf m. unfold bind.
  destruct (Hx m) as [evs Hevs].
  destruct (x m) as [[a|e] m1]; cbn [snd] in *.
  - destruct (Hf a m1) as [evs' Hevs']. exists (evs ++ evs').
    now rewrite Hevs', Hevs, app_assoc.
  - now exists evs.
Qed.

Lemma extends_tryCatch {A} (body : M E A) handler :
  extends body -> (forall e, extends (handler e)) ->
  extends (tryCatch body handler).
Proof.
  intros Hx Hh m. unfold tryCatch.
  destruct (Hx m) as [evs Hevs].
  destruct (body m) as [[a|e] m1]; cbn [snd] in *.
  - now exists evs.
  - destruct (Hh e m1) as [evs' Hevs']. exists (evs ++ evs').
    now rewrite Hevs', Hevs, app_assoc.
Qed.

Lemma extends_tryFinally {A} (body : M E A) final :
  extends body -> extends final -> extends (tryFinally body final).
Proof.
  intros Hx Hf m. unfold tryFinally.
  destruct (Hx m) as [evs Hevs].
  destruct (body m) as [r m1]; cbn [snd] in *.
  destruct (Hf m1) as [evs' Hevs'].
  exists (evs ++ evs').
  destruct (final m1) as [[u|e] m2]; cbn [snd] in *;
    now rewrite Hevs', Hevs, app_assoc.
Qed.

Lemma extends_request r : extends (request r).
Proof.
  intros m. unfold request.
  destruct (provider_request r (env m)). now eexists.
Qed.

Lemma extends_httpGet url : extends (httpGet url).
Proof.
  intros m. unfold httpGet. destruct (http_get url (env m)). now eexists.
Qed.

Lemma extends_emit ev : extends (E:=E) (emit ev).
Proof. intros m. now eexists. Qed.

Lemma extends_readEnv {A} (f : E -> A) : extends (E:=E) (readEnv f).
Proof. intros m. exists []. now rewrite app_nil_r. Qed.

Lemma extends_getService : extends (E:=E) getService.
Proof. intros m. exists []. now rewrite app_nil_r. Qed.

Lemma extends_setService s : extends (E:=E) (setService s).
Proof. intros m. exists []. cbn. now rewrite app_nil_r. Qed.

Lemma extends_getComponent : extends (E:=E) getComponent.
Proof. intros m. exists []. now rewrite app_nil_r. Qed.

Lemma extends_setComponent c : extends (E:=E) (setComponent c).
Proof. intros m. exists []. cbn. now rewrite app_nil_r. Qed.

Lemma extends_ensureSubAccount : extends ensureSubAccount.
Proof.
  intros m. destruct (ensureSubAccount m) as [r m1] eqn:Hrun.
  apply ensureSubAccount_run, ensure_run_trace in Hrun.
  destruct Hrun as [evs [Ht _]]. now exists evs.
Qed.

Lemma extends_member_address sub : extends (E:=E) (member_address sub).
Proof. destruct sub; [apply extends_ret|apply extends_throw]. Qed.

Create HintDb traces.

Hint Resolve extends_ret extends_throw extends_lift extends_request
  extends_httpGet extends_emit extends_readEnv extends_getService
  extends_setService extends_getComponent extends_setComponent
  extends_ensureSubAccount extends_member_address : traces.

Ltac traces :=
  cbv zeta;
  repeat first
    [ solve [auto with traces]
    | apply extends_bind; [|intros ?]
    | apply extends_tryCatch; [|intros ?]
    | apply extends_tryFinally ].

Lemma extends_sendTransactionFromSub to data value :
  extends (sendTransactionFromSub to data value).
Proof. unfold sendTransactionFromSub. traces. Qed.

Lemma extends_getSubAccountAddress : extends getSubAccountAddress.
Proof. unfold getSubAccountAddress. traces. Qed.

Lemma extends_set_loading b : extends (E:=E) (set_loading b).
Proof. unfold set_loading. traces. Qed.

Lemma extends_set_txHash v : extends (E:=E) (set_txHash v).
Proof. unfold set_txHash. traces. Qed.

Lemma extends_set_weather w : extends (E:=E) (set_weather w).
Proof. unfold set_weather. traces. Qed.

Lemma extends_set_error v : extends (E:=E) (set_error v).
Proof. unfold set_error. traces. Qed.

Hint Resolve extends_sendTransactionFromSub extends_getSubAccountAddress
  extends_set_loading extends_set_txHash extends_set_weather
  extends_set_error : traces.

Lemma extends_mintWeatherNFT w : extends (mintWeatherNFT w).
Proof. unfold mintWeatherNFT. traces. Qed.

Lemma extends_reportError err : extends (reportError err).
Proof. unfold reportError. traces. Qed.

Lemma emitsFirst_httpGet url (m : Machine E) :
  emitsFirst (HttpGet url) (httpGet url) m.
Proof.
  unfold emitsFirst, httpGet. destruct (http_get url (env m)).
  now exists [].
Qed.

Lemma emitsFirst_bind {A B} ev (x : M E A) (f : A -> M E B) m :
  emitsFirst ev x m -> (forall a, extends (f a)) -> emitsFirst ev (bind x f) m.
Proof.
  intros [evs Hevs] Hf. unfold emitsFirst, bind.
  destruct (x m) as [[a|e] m1]; cbn [snd] in *.
  - destruct (Hf a m1) as [evs' Hevs']. exists (evs ++ evs').
    now rewrite Hevs', Hevs, <- app_assoc.
  - now exists evs.
Qed.

Lemma emitsFirst_tryCatch {A} ev (body : M E A) handler m :
  emitsFirst ev body m -> (forall e, extends (handler e)) ->
  emitsFirst ev (tryCatch body handler) m.
Proof.
  intros [evs Hevs] Hh. unfold emitsFirst, tryCatch.
  destruct (body m) as [[a|e] m1]; cbn [snd] in *.
  - now exists evs.
  - destruct (Hh e m1) as [evs' Hevs']. exists (evs ++ evs').
    now rewrite Hevs', Hevs, <- app_assoc.
Qed.

Lemma emitsFirst_tryFinally {A} ev (body : M E A) final m :
  emitsFirst ev body m -> extends final ->
  emitsFirst ev (tryFinally body final) m.
Proof.
  intros [evs Hevs] Hf. unfold emitsFirst, tryFinally.
  destruct (body m) as [r m1]; cbn [snd] in *.
  destruct (Hf m1) as [evs' Hevs'].
  exists (evs ++ evs').
  destruct (final m1) as [[u|e] m2]; cbn [snd] in *;
    now rewrite Hevs', Hevs, <- app_assoc.
Qed.

End TraceLemmas.

(** ** A mint attempt *)

Section AttemptLemmas.

Context {E : Type} {W : World E}.

Local Open Scope machine_scope.

Lemma getWeather_entered (m : Machine E) :
  getWeather m =
  tryFinally
    (tryCatch (w <- httpGet (cityUrl m) ;; mintWeatherNFT w) reportError)
    (set_loading false) (entered m).
Proof. reflexivity. Qed.

(** The first thing an attempt does is the fetch. *)
Lemma getWeather_fetches_first (m : Machine E) :
  emitsFirst (HttpGet (cityUrl m)) getWeather m.
Proof.
  unfold emitsFirst. rewrite getWeather_entered.
  change (trace m) with (trace (entered m)).
  apply emitsFirst_tryFinally; [|apply extends_set_loading].
  apply emitsFirst_tryCatch; [|apply extends_reportError].
  apply emitsFirst_bind; [|apply extends_mintWeatherNFT].
  apply emitsFirst_httpGet.
Qed.

(** The steps after the fetch, once the metadata, the token URI and the
    sub-account are there: the batched call decides. *)
Lemma mintWeatherNFT_dispatch (m : Machine E) w e1 metadata tokenURI sub m2 :
  buildMetadata w (Date_toLocaleString e1) = Ok metadata ->
  encodeTokenURI (NFT.toValue metadata) = Ok tokenURI ->
  ensureSubAccount (loaded m w e1) = (Ok (Some sub), m2) ->
  mintWeatherNFT w (recorded (entered m) e1 (HttpGet (cityUrl m)))
  = match provider_request (mintCall sub tokenURI) (env m2) with
    | (Ok result, e3) =>
        (hash <- lift (txHashOf result) ;; set_txHash hash)
          (recorded m2 e3 (Rpc (mintCall sub tokenURI)))
    | (Throw err, e3) =>
        (Throw err, recorded m2 e3 (Rpc (mintCall sub tokenURI)))
    end.
Proof.
  intros Hmeta Huri Hens.
  unfold mintWeatherNFT.
  unfold bind at 1.
  cbn [set_weather bind getComponent setComponent recorded entered
       component service env trace city loading txHash error].
  fold (loaded m w e1).
  unfold bind at 1. unfold readEnv at 1. cbn [env loaded].
  fold (loaded m w e1).
  unfold bind at 1. unfold lift at 1. rewrite Hmeta.
  unfold bind at 1. unfold lift at 1. rewrite Huri.
  unfold bind at 1. rewrite getSubAccountAddress_run, Hens.
  unfold bind at 1. rewrite sendTransactionFromSub_run.
  pose proof (ensureSubAccount_run _ _ _ Hens) as Hrun.
  destruct (ensure_run_returns _ _ _ Hrun) as [sub' [Hs Hc]].
  injection Hs as <-.
  rewrite (ensureSubAccount_cached m2 sub Hc).
  cbn [valueOrDefault]. unfold defaultValue.
  fold (mintCall sub tokenURI).
  destruct (provider_request (mintCall sub tokenURI) (env m2))
    as [[result|err] e3]; reflexivity.
Qed.

End AttemptLemmas.

(** ** The metadata literal *)

(** Every response with a first condition gives the metadata of the literal;
    one without throws. *)
Lemma buildMetadata_spec (w : Weather) (date : jsstring) :
  match weather w with
  | c :: _ =>
      buildMetadata w date =
      Ok {| NFT.name := js "Weather in " ++ name w;
            NFT.description :=
              js "Forecast for " ++ name w ++ js ": " ++ description c
                ++ js ", " ++ Number_toString (temp (main w)) ++ [degree]
                ++ js "C";
            NFT.attributes :=
              [ {| NFT.trait_type := js "City"; NFT.value := name w |};
                {| NFT.trait_type := js "Temperature";
                   NFT.value := Number_toString (temp (main w)) ++ [degree]
                                  ++ js "C" |};
                {| NFT.trait_type := js "Condition";
                   NFT.value := description c |};
                {| NFT.trait_type := js "Date"; NFT.value := date |} ] |}
  | [] => buildMetadata w date = Throw TypeError
  end.
Proof.
  unfold buildMetadata, weather0_description.
  destruct (weather w) as [|c rest]; reflexivity.
Qed.


Lemma MetadataBuilder_returns (obs : WeatherObservation) (date : jsstring) :
  exists m, MetadataBuilder obs date = Ok m.
Proof.
  unfold MetadataBuilder.
  pose proof (buildMetadata_spec (responseOf obs) date) as H.
  cbn [responseOf weather] in H. rewrite H. eexists. reflexivity.
Qed.

(** ** Base64 *)

Ltac decide_var_tests :=
  repeat (match goal with
          | |- context [?a <? ?b] =>
              is_var a; destruct (N.ltb_spec a b); try lia
          | |- context [?a <=? ?b] =>
              is_var b; destruct (N.leb_spec a b); try lia
          | |- context [?a =? ?b] =>
              is_var a; destruct (N.eqb_spec a b); try lia
          end; cbn [andb orb negb]).

Ltac decide_tests :=
  decide_var_tests;
  repeat (match goal with
          | |- context [?a <? ?b] => destruct (N.ltb_spec a b); try lia
          | |- context [?a <=? ?b] => destruct (N.leb_spec a b); try lia
          | |- context [?a =? ?b] => destruct (N.eqb_spec a b); try lia
          end; cbn [andb orb negb]).

Lemma list_ind3 {A} (P : list A -> Prop) :
  P [] -> (forall a, P [a]) -> (forall a b, P [a; b]) ->
  (forall a b c l, P l -> P (a :: b :: c :: l)) ->
  forall l, P l.
Proof.
  intros H0 H1 H2 H3. fix IH 1.
  intros [|a [|b [|c l]]];
    [exact H0 | apply H1 | apply H2 | apply H3; apply IH].
Qed.

Lemma base64Value_Char n : n < 64 -> base64Value (base64Char n) = Some n.
Proof.
  intros H. unfold base64Char. decide_tests;
    unfold base64Value; decide_tests; f_equal; lia.
Qed.

Lemma base64Char_plain n :
  n < 64 ->
  isAsciiWhitespace (base64Char n) = false /\ (base64Char n =? 61) = false.
Proof.
  intros H. unfold base64Char.
  split; decide_tests; unfold isAsciiWhitespace; decide_tests; reflexivity.
Qed.

Lemma mod3_step n : (S (S (S n)) mod 3 = n mod 3)%nat.
Proof.
  change (S (S (S n))) with (3 + n)%nat.
  rewrite Nat.add_comm.
  replace (n + 3)%nat with (n + 1 * 3)%nat by lia.
  now rewrite Nat.Div0.mod_add.
Qed.

Lemma base64Encode_split bs :
  base64Encode bs = base64Body bs ++ base64Padding bs.
Proof.
  induction bs as [| a | a b | a b c l IH] using list_ind3;
    try reflexivity.
  cbn [base64Encode base64Body]. rewrite IH. unfold base64Padding.
  cbn [length]. rewrite mod3_step. reflexivity.
Qed.

Lemma base64Body_length bs :
  (length (base64Body bs) mod 4 =
   match length bs mod 3 with
   | 1 => 2
   | 2 => 3
   | _ => 0
   end)%nat.
Proof.
  induction bs as [| a | a b | a b c l IH] using list_ind3;
    try reflexivity.
  cbn [base64Body length]. rewrite mod3_step, <- IH.
  change (S (S (S (S (length (base64Body l))))))
    with (4 + length (base64Body l))%nat.
  rewrite Nat.add_comm.
  replace (length (base64Body l) + 4)%nat
    with (length (base64Body l) + 1 * 4)%nat by lia.
  now rewrite Nat.Div0.mod_add.
Qed.

Lemma base64Body_plain bs :
  Forall (fun b => b < 256) bs -> Forall plainChar (base64Body bs).
Proof.
  induction bs as [| a | a b | a b c l IH] using list_ind3; intros H.
  - constructor.
  - inversion H; subst. cbn [base64Body].
    repeat constructor; apply base64Char_plain; lia.
  - inversion H as [|? ? Ha H']; subst. inversion H'; subst.
    cbn [base64Body]. repeat constructor; apply base64Char_plain; lia.
  - inversion H as [|? ? Ha H1]; subst. inversion H1 as [|? ? Hb H2]; subst.
    inversion H2 as [|? ? Hc H3]; subst. cbn [base64Body].
    repeat (constructor; [apply base64Char_plain; lia|]). now apply IH.
Qed.

Lemma base64Body_decodes bs :
  Forall (fun b => b < 256) bs ->
  exists vs, sextets (base64Body bs) = Some vs /\ decodeSextets vs = bs.
Proof.
  induction bs as [| a | a b | a b c l IH] using list_ind3; intros H.
  - exists []. split; reflexivity.
  - inversion H; subst. cbn [base64Body sextets].
    rewrite !base64Value_Char by lia. eexists. split; [reflexivity|].
    cbn [decodeSextets]. f_equal. lia.
  - inversion H as [|? ? Ha H']; subst. inversion H'; subst.
    cbn [base64Body sextets]. rewrite !base64Value_Char by lia.
    eexists. split; [reflexivity|]. cbn [decodeSextets].
    f_equal; [lia|]. f_equal. lia.
  - inversion H as [|? ? Ha H1]; subst. inversion H1 as [|? ? Hb H2]; subst.
    inversion H2 as [|? ? Hc H3]; subst.
    destruct (IH H3) as [vs [Hs Hd]].
    cbn [base64Body sextets]. rewrite !base64Value_Char by lia. rewrite Hs.
    eexists. split; [reflexivity|]. cbn [decodeSextets]. rewrite Hd.
    f_equal; [lia|]. f_equal; [lia|]. f_equal. lia.
Qed.

Lemma filter_plain body pad :
  Forall plainChar body -> Forall (fun c => isAsciiWhitespace c = false) pad ->
  filter (fun c => negb (isAsciiWhitespace c)) (body ++ pad) = body ++ pad.
Proof.
  intros Hb Hp. apply forallb_filter_id. apply forallb_forall. intros c Hc.
  apply in_app_or in Hc as [Hc|Hc].
  - rewrite Forall_forall in Hb. now rewrite (proj1 (Hb c Hc)).
  - rewrite Forall_forall in Hp. now rewrite (Hp c Hc).
Qed.

Lemma rev_head_plain body :
  Forall plainChar body ->
  match rev body with
  | c :: _ => (c =? 61) = false
  | [] => True
  end.
Proof.
  intros H. apply Forall_rev in H. destruct (rev body); [exact I|].
  inversion H as [|? ? Hc _]; subst. exact (proj2 Hc).
Qed.

Lemma stripPadding_body body pad :
  Forall plainChar body ->
  (length (body ++ pad) mod 4 = 0)%nat ->
  pad = [] \/ pad = [61] \/ pad = [61; 61] ->
  stripPadding (body ++ pad) = body.
Proof.
  intros Hb Hl Hpad. unfold stripPadding. rewrite Hl. cbn [Nat.eqb].
  rewrite rev_app_distr. pose proof (rev_head_plain body Hb) as Hh.
  destruct Hpad as [-> | [-> | ->]]; cbn [rev app].
  - rewrite app_nil_r. destruct (rev body) as [|c r]; [reflexivity|].
    now rewrite Hh.
  - cbn. destruct (rev body) as [|c r] eqn:Hr.
    + now rewrite <- (rev_involutive body), Hr.
    + rewrite Hh. now rewrite <- Hr, rev_involutive.
  - cbn. now rewrite rev_involutive.
Qed.

(** [atob] undoes [btoa]. *)
Lemma atob_base64Encode bs :
  Forall (fun b => b < 256) bs -> atob (base64Encode bs) = Ok bs.
Proof.
  intros H. unfold atob. rewrite base64Encode_split.
  pose proof (base64Body_plain bs H) as Hplain.
  pose proof (base64Body_length bs) as Hlen.
  assert (Hpad : base64Padding bs = [] \/ base64Padding bs = [61]
                 \/ base64Padding bs = [61; 61]).
  { unfold base64Padding. destruct (length bs mod 3)%nat as [|[|[|n]]]; auto. }
  assert (Hws : Forall (fun c => isAsciiWhitespace c = false) (base64Padding bs)).
  { destruct Hpad as [-> | [-> | ->]]; repeat constructor. }
  assert (Hl4 : (length (base64Body bs ++ base64Padding bs) mod 4 = 0)%nat).
  { rewrite length_app, <- Nat.Div0.add_mod_idemp_l, Hlen.
    unfold base64Padding.
    destruct (length bs mod 3)%nat as [|[|[|n]]]; reflexivity. }
  rewrite (filter_plain _ _ Hplain Hws).
  rewrite (stripPadding_body _ _ Hplain Hl4 Hpad).
  assert ((length (base64Body bs) mod 4 =? 1)%nat = false) as ->.
  { rewrite Hlen. now destruct (length bs mod 3)%nat as [|[|[|n]]]. }
  destruct (base64Body_decodes bs H) as [vs [-> ->]]. reflexivity.
Qed.

Lemma btoa_bytes bs :
  Forall (fun b => b < 256) bs -> btoa bs = Ok (base64Encode bs).
Proof.
  intros H. unfold btoa.
  replace (forallb (fun c => c <=? 255) bs) with true; [reflexivity|].
  symmetry. apply forallb_forall. intros c Hc.
  rewrite Forall_forall in H. specialize (H c Hc). apply N.leb_le. lia.
Qed.

(** ** Well-formed strings *)

Lemma isWellFormed_ind (P : jsstring -> Prop) :
  P [] ->
  (forall c rest,
     isHighSurrogate c = false -> isLowSurrogate c = false ->
     isWellFormed rest = true -> P rest -> P (c :: rest)) ->
  (forall hi lo rest,
     isHighSurrogate hi = true -> isLowSurrogate lo = true ->
     isWellFormed rest = true -> P rest -> P (hi :: lo :: rest)) ->
  forall s, isWellFormed s = true -> P s.
Proof.
  intros H0 H1 H2. fix IH 1. intros [|c rest].
  - intros _. exact H0.
  - cbn [isWellFormed]. destruct (isHighSurrogate c) eqn:Hh.
    + destruct rest as [|d rest']; [discriminate|].
      intros H. apply andb_true_iff in H as [Hl Hw].
      apply H2; [assumption..|]. apply IH. exact Hw.
    + destruct (isLowSurrogate c) eqn:Hl; [discriminate|].
      intros Hw. apply H1; [assumption..|]. apply IH. exact Hw.
Qed.

Lemma isWellFormed_app a b :
  isWellFormed a = true -> isWellFormed b = true -> isWellFormed (a ++ b) = true.
Proof.
  intros Ha Hb. revert a Ha.
  apply (isWellFormed_ind (fun a => isWellFormed (a ++ b) = true)).
  - exact Hb.
  - intros c rest Hh Hl Hw IH. cbn [app isWellFormed]. now rewrite Hh, Hl.
  - intros hi lo rest Hh Hl Hw IH. cbn [app isWellFormed]. now rewrite Hh, Hl.
Qed.

Lemma isAscii_wellFormed s : isAscii s = true -> isWellFormed s = true.
Proof.
  induction s as [|c s IH]; intros H; [reflexivity|].
  cbn [isAscii forallb] in H. apply andb_true_iff in H as [Hc Hs].
  cbn [isWellFormed]. destruct (isAscii_not_surrogate c Hc) as [-> ->].
  now apply IH.
Qed.

Lemma isAscii_wfString s : isAscii s = true -> wfString s.
Proof.
  intros H. apply Forall_forall. intros c Hc.
  unfold isAscii in H. rewrite forallb_forall in H. specialize (H c Hc).
  apply N.ltb_lt in H. unfold codeUnit. lia.
Qed.

Lemma wfString_app a b : wfString a -> wfString b -> wfString (a ++ b).
Proof. apply Forall_app_2 || (intros; apply Forall_app; now split). Qed.

(** ** UTF-8 *)

Lemma surrogate_ranges c :
  (isHighSurrogate c = true <-> 55296 <= c <= 56319)
  /\ (isLowSurrogate c = true <-> 56320 <= c <= 57343).
Proof.
  unfold isHighSurrogate, isLowSurrogate.
  rewrite !andb_true_iff, !N.leb_le. tauto.
Qed.

Lemma not_surrogate c :
  isHighSurrogate c = false -> isLowSurrogate c = false ->
  c < 55296 \/ 57343 < c.
Proof.
  unfold isHighSurrogate, isLowSurrogate. intros Hh Hl.
  apply andb_false_iff in Hh. apply andb_false_iff in Hl.
  rewrite !N.leb_gt in Hh, Hl. lia.
Qed.

Lemma utf8Octets_bytes cp :
  cp < 2097152 -> Forall (fun b => b < 256) (utf8Octets cp).
Proof.
  intros H. unfold utf8Octets. decide_tests; repeat constructor; lia.
Qed.

Lemma utf8Decode_octets cp r :
  cp < 1114112 -> (cp < 55296 \/ 57343 < cp) ->
  utf8Decode (utf8Octets cp ++ r) = consUnits cp (utf8Decode r).
Proof.
  intros H Hs. unfold utf8Octets. decide_var_tests; cbn [app utf8Decode].
  - decide_tests. reflexivity.
  - unfold isContinuation. decide_tests. f_equal. lia.
  - unfold isContinuation. decide_tests; f_equal; lia.
  - unfold isContinuation. decide_tests. f_equal. lia.
Qed.

Lemma surrogatePair_range hi lo :
  isHighSurrogate hi = true -> isLowSurrogate lo = true ->
  65536 <= surrogatePair hi lo < 1114112
  /\ utf16Units (surrogatePair hi lo) = [hi; lo].
Proof.
  intros Hh Hl. apply surrogate_ranges in Hh. apply surrogate_ranges in Hl.
  unfold surrogatePair, utf16Units. split; [lia|].
  decide_tests. f_equal; [lia|]. f_equal. lia.
Qed.

Lemma utf8Encode_scalar c rest :
  isHighSurrogate c = false -> isLowSurrogate c = false ->
  utf8Encode (c :: rest) = utf8Octets c ++ utf8Encode rest.
Proof. intros Hh Hl. cbn [utf8Encode]. now rewrite Hh, Hl. Qed.

Lemma utf8Encode_pair hi lo rest :
  isHighSurrogate hi = true -> isLowSurrogate lo = true ->
  utf8Encode (hi :: lo :: rest)
  = utf8Octets (surrogatePair hi lo) ++ utf8Encode rest.
Proof. intros Hh Hl. cbn [utf8Encode]. now rewrite Hh, Hl. Qed.

(** Decoding undoes encoding on well-formed strings. *)
Lemma utf8Decode_utf8Encode s :
  wfString s -> isWellFormed s = true -> utf8Decode (utf8Encode s) = Some s.
Proof.
  intros Hwf Hw. revert s Hw Hwf.
  apply (isWellFormed_ind
           (fun s => wfString s -> utf8Decode (utf8Encode s) = Some s)).
  - reflexivity.
  - intros c rest Hh Hl Hw' IH Hwf. inversion Hwf as [|? ? Hc Hrest]; subst. unfold codeUnit in Hc.
    rewrite (utf8Encode_scalar _ _ Hh Hl).
    rewrite utf8Decode_octets by (try lia; now apply not_surrogate).
    rewrite (IH Hrest). unfold consUnits, utf16Units.
    apply N.ltb_lt in Hc. now rewrite Hc.
  - intros hi lo rest Hh Hl Hw' IH Hwf.
    inversion Hwf as [|? ? _ H1]; subst. inversion H1 as [|? ? _ Hrest]; subst.
    rewrite (utf8Encode_pair _ _ _ Hh Hl).
    destruct (surrogatePair_range hi lo Hh Hl) as [Hr Hu].
    rewrite utf8Decode_octets by lia.
    rewrite (IH Hrest). unfold consUnits. now rewrite Hu.
Qed.

Lemma list_ind2 {A} (P : list A -> Prop) :
  P [] -> (forall a, P [a]) ->
  (forall a b l, P l -> P (b :: l) -> P (a :: b :: l)) ->
  forall l, P l.
Proof.
  intros H0 H1 H2.
  assert (H : forall l, P l /\ forall a, P (a :: l)).
  { induction l as [|b l [IH1 IH2]].
    - split; [exact H0|exact H1].
    - split; [apply IH2|]. intros a. apply H2; [exact IH1|apply IH2]. }
  intros l. apply H.
Qed.

Lemma utf8Encode_bytes s :
  wfString s -> Forall (fun b => b < 256) (utf8Encode s).
Proof.
  assert (Hfffd : Forall (fun b => b < 256) (utf8Octets 65533))
    by (apply utf8Octets_bytes; lia).
  assert (Hunit : forall c, codeUnit c -> Forall (fun b => b < 256) (utf8Octets c))
    by (intros c Hc; apply utf8Octets_bytes; unfold codeUnit in Hc; lia).
  induction s as [| c | c d rest IH1 IH2] using list_ind2; intros Hwf.
  - constructor.
  - inversion Hwf as [|? ? Hc _]; subst. cbn [utf8Encode].
    destruct (isHighSurrogate c); [exact Hfffd|].
    destruct (isLowSurrogate c); rewrite app_nil_r; auto.
  - inversion Hwf as [|? ? Hc Hrest]; subst.
    inversion Hrest as [|? ? Hd Hrest']; subst.
    specialize (IH1 Hrest'). specialize (IH2 Hrest).
    cbn [utf8Encode] in *.
    destruct (isHighSurrogate c) eqn:Hh.
    + destruct (isLowSurrogate d) eqn:Hl.
      * apply Forall_app. split; [|exact IH1].
        apply utf8Octets_bytes.
        destruct (surrogatePair_range c d Hh Hl) as [Hr _]. lia.
      * apply Forall_app. split; [exact Hfffd|exact IH2].
    + destruct (isLowSurrogate c); apply Forall_app; split; auto.
Qed.

(** ** Percent escapes *)

Lemma octetEscapeOk_all :
  forallb octetEscapeOk (map N.of_nat (seq 0 256)) = true.
Proof. vm_compute. reflexivity. Qed.

Lemma percentOctet_shape b :
  b < 256 ->
  exists h l,
    percentOctet b = [37; h; l]
    /\ isUpperHex h = true /\ isUpperHex l = true
    /\ parseInt16 [h; l] = Some b.
Proof.
  intros H.
  assert (Hok : octetEscapeOk b = true).
  { pose proof octetEscapeOk_all as Hall. rewrite forallb_forall in Hall.
    apply Hall. apply in_map_iff. exists (N.to_nat b).
    split; [apply N2Nat.id|]. apply in_seq. lia. }
  unfold octetEscapeOk in Hok.
  destruct (percentOctet b) as [|p [|h [|l [|x t]]]]; try discriminate.
  apply andb_true_iff in Hok as [Hok Hv].
  apply andb_true_iff in Hok as [Hok Hl].
  apply andb_true_iff in Hok as [Hp Hh].
  apply N.eqb_eq in Hp. subst p.
  destruct (parseInt16 [h; l]) as [v|] eqn:Hp; [|discriminate].
  apply N.eqb_eq in Hv. subst v. exists h, l.
  split; [reflexivity|]. split; [exact Hh|]. split; [exact Hl|exact Hp].
Qed.

Lemma replace_step c h1 h2 r :
  replacePercentEscapes (c :: h1 :: h2 :: r)
  = if (c =? 37) && isUpperHex h1 && isUpperHex h2
    then fromCharCode (parseInt16 [h1; h2]) :: replacePercentEscapes r
    else c :: replacePercentEscapes (h1 :: h2 :: r).
Proof. reflexivity. Qed.

Lemma replace_percentOctet b r :
  b < 256 ->
  replacePercentEscapes (percentOctet b ++ r) = b :: replacePercentEscapes r.
Proof.
  intros H. destruct (percentOctet_shape b H) as (h & l & -> & Hh & Hl & Hv).
  cbn [app]. rewrite replace_step, Hh, Hl, Hv.
  change (37 =? 37) with true. cbn [andb].
  unfold fromCharCode. f_equal. apply N.mod_small. lia.
Qed.

Lemma replace_percentOctets bs r :
  Forall (fun b => b < 256) bs ->
  replacePercentEscapes (percentOctets bs ++ r) = bs ++ replacePercentEscapes r.
Proof.
  induction 1 as [|b bs Hb Hbs IH]; [reflexivity|].
  unfold percentOctets. cbn [flat_map]. fold (percentOctets bs).
  rewrite <- app_assoc, (replace_percentOctet b _ Hb), IH. reflexivity.
Qed.

Lemma replace_other c r :
  c <> 37 -> replacePercentEscapes (c :: r) = c :: replacePercentEscapes r.
Proof.
  intros H. cbn [replacePercentEscapes].
  apply N.eqb_neq in H. rewrite H.
  destruct r as [|h1 [|h2 r']]; reflexivity.
Qed.

Lemma uriUnreserved_ascii c :
  uriUnreserved c = true -> c < 128 /\ c <> 37.
Proof.
  unfold uriUnreserved, isAlpha, isDigitChar. intros H.
  repeat (apply orb_true_iff in H as [H|H]);
    repeat (apply andb_true_iff in H as [? H]);
    repeat match goal with
      | H : (_ <=? _) = true |- _ => apply N.leb_le in H
      | H : (_ =? _) = true |- _ => apply N.eqb_eq in H
      end; lia.
Qed.

(** On a well-formed string, [encodeURIComponent] returns, and replacing
    the percent escapes of its result gives the UTF-8 bytes of the
    string. *)
Lemma encodeURIComponent_bytes s :
  wfString s -> isWellFormed s = true ->
  exists escaped,
    encodeURIComponent s = Ok escaped
    /\ replacePercentEscapes escaped = utf8Encode s.
Proof.
  intros Hwf Hw. revert s Hw Hwf.
  apply (isWellFormed_ind
           (fun s => wfString s ->
                     exists escaped,
                       encodeURIComponent s = Ok escaped
                       /\ replacePercentEscapes escaped = utf8Encode s)).
  - intros _. exists []. split; reflexivity.
  - intros c rest Hh Hl Hw IH Hwf.
    inversion Hwf as [|? ? Hc Hrest]; subst. unfold codeUnit in Hc.
    destruct (IH Hrest) as (e & He & Hr).
    rewrite (utf8Encode_scalar _ _ Hh Hl).
    cbn [encodeURIComponent]. rewrite He, Hh, Hl. cbn [obind].
    destruct (uriUnreserved c) eqn:Hu.
    + eexists. split; [reflexivity|].
      destruct (uriUnreserved_ascii c Hu) as [H128 H37].
      rewrite (replace_other _ _ H37), Hr. unfold utf8Octets.
      apply N.ltb_lt in H128. now rewrite H128.
    + eexists. split; [reflexivity|].
      rewrite replace_percentOctets, Hr; [reflexivity|].
      apply utf8Octets_bytes. lia.
  - intros hi lo rest Hh Hl Hw IH Hwf.
    inversion Hwf as [|? ? _ H1]; subst. inversion H1 as [|? ? _ Hrest]; subst.
    destruct (IH Hrest) as (e & He & Hr).
    rewrite (utf8Encode_pair _ _ _ Hh Hl).
    cbn [encodeURIComponent]. rewrite He, Hh, Hl. cbn [obind].
    assert (Hu : uriUnreserved hi = false).
    { destruct (uriUnreserved hi) eqn:Hu; [|reflexivity].
      destruct (uriUnreserved_ascii hi Hu) as [H128 _].
      apply surrogate_ranges in Hh. lia. }
    assert (Hnl : isLowSurrogate hi = false).
    { apply surrogate_ranges in Hh. unfold isLowSurrogate.
      apply andb_false_iff. left. apply N.leb_gt. lia. }
    rewrite Hu, Hnl. eexists. split; [reflexivity|].
    rewrite replace_percentOctets, Hr; [reflexivity|].
    apply utf8Octets_bytes.
    destruct (surrogatePair_range hi lo Hh Hl) as [Hrg _]. lia.
Qed.

(** ** Values *)

Section ValueInduction.

Variable P : jsval -> Prop.
Hypothesis Hundefined : P VUndefined.
Hypothesis Hnull : P VNull.
Hypothesis Hbool : forall b, P (VBool b).
Hypothesis Hnumber : forall x, P (VNumber x).
Hypothesis Hstring : forall s, P (VString s).
Hypothesis Harray : forall l, Forall P l -> P (VArray l).
Hypothesis Hobject :
  forall ms, Forall (fun kv => P (snd kv)) ms -> P (VObject ms).

Lemma jsval_ind (v : jsval) : P v.
Proof.
  revert v. fix IH 1. intros [| | b | x | s | l | ms].
  - exact Hundefined.
  - exact Hnull.
  - apply Hbool.
  - apply Hnumber.
  - apply Hstring.
  - apply Harray. induction l as [|x r IHl]; constructor; [apply IH|exact IHl].
  - apply Hobject.
    induction ms as [|kv r IHms]; constructor; [apply IH|exact IHms].
Qed.

End ValueInduction.

(** ** Strings in JSON text *)

Lemma paddedHex_word n k :
  n < 16 ^ N.of_nat (S k) ->
  let w := padStart (S k) (js "0") (toStringRadix 16 n) in
  length w = S k /\ bigEndian w = Some n /\ forallb isHexDigitChar w = true.
Proof.
  intros Hn w. subst w. change (js "0") with [48].
  pose proof (toString16_length n k Hn) as Hl.
  split; [|split].
  - rewrite padStart_length. lia.
  - rewrite padStart_single.
    assert (He : repeat 48 (S k - length (toStringRadix 16 n))
                   ++ toStringRadix 16 n <> []).
    { intros E. apply (f_equal (@length _)) in E.
      rewrite length_app in E. simpl in E. lia. }
    unfold bigEndian.
    destruct (repeat 48 _ ++ _) eqn:E; [contradiction|].
    rewrite <- E, hexAcc_zeros. apply toString16_value.
  - rewrite padStart_single, forallb_app, toString16_hex, andb_true_r.
    apply forallb_forall. intros x Hx. apply repeat_spec in Hx. now subst x.
Qed.

Lemma isHexDigitChar_ascii c : isHexDigitChar c = true -> isAsciiUnit c = true.
Proof.
  unfold isHexDigitChar, hexValue, isAsciiUnit. intros H. apply N.ltb_lt.
  destruct ((48 <=? c) && (c <=? 57)) eqn:H1.
  { apply andb_true_iff in H1 as [_ H1]. apply N.leb_le in H1. lia. }
  destruct ((97 <=? c) && (c <=? 102)) eqn:H2.
  { apply andb_true_iff in H2 as [_ H2]. apply N.leb_le in H2. lia. }
  destruct ((65 <=? c) && (c <=? 70)) eqn:H3; [|discriminate].
  apply andb_true_iff in H3 as [_ H3]. apply N.leb_le in H3. lia.
Qed.

Lemma UnicodeEscape_shape c :
  codeUnit c ->
  exists h1 h2 h3 h4,
    UnicodeEscape c = [92; 117; h1; h2; h3; h4]
    /\ bigEndian [h1; h2; h3; h4] = Some c
    /\ isAscii (UnicodeEscape c) = true.
Proof.
  intros Hc. unfold codeUnit in Hc.
  destruct (paddedHex_word c 3) as (Hl & Hv & Hh).
  { change (16 ^ N.of_nat 4) with 65536. exact Hc. }
  unfold UnicodeEscape.
  destruct (padStart 4 (js "0") (toStringRadix 16 c))
    as [|h1 [|h2 [|h3 [|h4 [|x t]]]]]; try discriminate.
  exists h1, h2, h3, h4. split; [reflexivity|]. split; [exact Hv|].
  unfold isAscii. change (js "\u") with [92; 117]. cbn [app forallb].
  cbn [forallb] in Hh.
  repeat (apply andb_true_iff in Hh as [?H Hh]).
  rewrite (isHexDigitChar_ascii h1), (isHexDigitChar_ascii h2),
    (isHexDigitChar_ascii h3), (isHexDigitChar_ascii h4) by assumption.
  reflexivity.
Qed.

Lemma parse_quote r : parseStringBody (34 :: r) = Some ([], r).
Proof. reflexivity. Qed.

Lemma parse_plain c r :
  c <> 34 -> c <> 92 -> 32 <= c ->
  parseStringBody (c :: r) = consUnit c (parseStringBody r).
Proof.
  intros H1 H2 H3. cbn [parseStringBody].
  apply N.eqb_neq in H1. apply N.eqb_neq in H2. rewrite H1, H2.
  assert ((c <? 32) = false) as -> by (apply N.ltb_ge; lia). reflexivity.
Qed.

Lemma parse_short e u r :
  unescape e = Some u ->
  parseStringBody (92 :: e :: r) = consUnit u (parseStringBody r).
Proof.
  intros H. cbn [parseStringBody]. change (92 =? 34) with false.
  change (92 =? 92) with true. cbv iota.
  assert ((e =? 117) = false) as ->.
  { apply N.eqb_neq. intros ->. discriminate H. }
  now rewrite H.
Qed.

Lemma parse_unicode h1 h2 h3 h4 u r :
  bigEndian [h1; h2; h3; h4] = Some u ->
  parseStringBody (92 :: 117 :: h1 :: h2 :: h3 :: h4 :: r)
  = consUnit u (parseStringBody r).
Proof.
  intros H. cbn [parseStringBody]. change (92 =? 34) with false.
  change (92 =? 92) with true. change (117 =? 117) with true. cbv iota.
  now rewrite H.
Qed.

Lemma parse_UnicodeEscape c r :
  codeUnit c ->
  parseStringBody (UnicodeEscape c ++ r) = consUnit c (parseStringBody r).
Proof.
  intros Hc. destruct (UnicodeEscape_shape c Hc) as (h1 & h2 & h3 & h4 & -> & Hv & _).
  cbn [app]. now apply parse_unicode.
Qed.

Lemma shortEscape_unescape c e :
  shortEscape c = Some e -> unescape e = Some c.
Proof.
  unfold shortEscape. intros H.
  repeat match type of H with
    | (if ?x =? ?y then _ else _) = _ =>
        destruct (N.eqb_spec x y);
        [injection H as <-; subst; reflexivity|]
    end.
  discriminate.
Qed.

Lemma shortEscape_none c :
  shortEscape c = None -> c <> 34 /\ c <> 92.
Proof.
  unfold shortEscape. intros H.
  repeat match type of H with
    | (if ?x =? ?y then _ else _) = _ =>
        destruct (N.eqb_spec x y); [discriminate|]
    end.
  split; assumption.
Qed.

(** A quoted string reads back as the string. *)
Lemma parse_quoteBody s rest :
  wfString s -> parseStringBody (quoteBody s ++ 34 :: rest) = Some (s, rest).
Proof.
  induction s as [| c | c d s' IH1 IH2] using list_ind2; intros Hwf.
  - reflexivity.
  - inversion Hwf as [|? ? Hc _]; subst. cbn [quoteBody].
    destruct (shortEscape c) as [e|] eqn:He.
    + cbn [app]. rewrite (parse_short e c _ (shortEscape_unescape _ _ He)).
      reflexivity.
    + destruct (shortEscape_none c He) as [H34 H92].
      destruct (N.ltb_spec c 32).
      * rewrite app_nil_r, parse_UnicodeEscape by assumption. reflexivity.
      * destruct (isHighSurrogate c).
        -- rewrite parse_UnicodeEscape by assumption. reflexivity.
        -- destruct (isLowSurrogate c).
           ++ rewrite app_nil_r, parse_UnicodeEscape by assumption. reflexivity.
           ++ cbn [app]. rewrite parse_plain by assumption. reflexivity.
  - inversion Hwf as [|? ? Hc Hrest]; subst.
    inversion Hrest as [|? ? Hd Hrest']; subst.
    specialize (IH1 Hrest'). specialize (IH2 Hrest).
    cbn [quoteBody] in *.
    destruct (shortEscape c) as [e|] eqn:He.
    + cbn [app]. rewrite (parse_short e c _ (shortEscape_unescape _ _ He)).
      now rewrite IH2.
    + destruct (shortEscape_none c He) as [H34 H92].
      destruct (N.ltb_spec c 32).
      * rewrite <- app_assoc, parse_UnicodeEscape by assumption.
        now rewrite IH2.
      * destruct (isHighSurrogate c) eqn:Hh.
        -- destruct (isLowSurrogate d) eqn:Hl.
           ++ cbn [app]. rewrite parse_plain by assumption.
              apply surrogate_ranges in Hl.
              rewrite parse_plain by lia. now rewrite IH1.
           ++ rewrite <- app_assoc, parse_UnicodeEscape by assumption.
              now rewrite IH2.
        -- destruct (isLowSurrogate c).
           ++ rewrite <- app_assoc, parse_UnicodeEscape by assumption.
              now rewrite IH2.
           ++ cbn [app]. rewrite parse_plain by assumption. now rewrite IH2.
Qed.

(** ** The text of a value is clean *)

Lemma clean_nil : clean [].
Proof. split; [constructor|reflexivity]. Qed.

Lemma clean_app a b : clean a -> clean b -> clean (a ++ b).
Proof.
  intros [Ha1 Ha2] [Hb1 Hb2]. split.
  - now apply wfString_app.
  - now apply isWellFormed_app.
Qed.

Lemma clean_ascii s : isAscii s = true -> clean s.
Proof.
  intros H. split; [now apply isAscii_wfString|now apply isAscii_wellFormed].
Qed.

Lemma clean_scalar c r :
  codeUnit c -> isHighSurrogate c = false -> isLowSurrogate c = false ->
  clean r -> clean (c :: r).
Proof.
  intros Hc Hh Hl [Hr1 Hr2]. split; [now constructor|].
  cbn [isWellFormed]. now rewrite Hh, Hl.
Qed.

Lemma clean_pair c d r :
  codeUnit c -> codeUnit d ->
  isHighSurrogate c = true -> isLowSurrogate d = true ->
  clean r -> clean (c :: d :: r).
Proof.
  intros Hc Hd Hh Hl [Hr1 Hr2]. split; [now repeat constructor|].
  cbn [isWellFormed]. now rewrite Hh, Hl.
Qed.

Lemma clean_UnicodeEscape c : codeUnit c -> clean (UnicodeEscape c).
Proof.
  intros Hc. apply clean_ascii.
  destruct (UnicodeEscape_shape c Hc) as (h1 & h2 & h3 & h4 & _ & _ & H).
  exact H.
Qed.

Lemma clean_shortEscape c e r :
  shortEscape c = Some e -> clean r -> clean (92 :: e :: r).
Proof.
  intros He Hr. change (92 :: e :: r) with ([92; e] ++ r).
  apply clean_app; [|exact Hr]. apply clean_ascii.
  unfold shortEscape in He.
  repeat match type of He with
    | (if ?x =? ?y then _ else _) = _ =>
        destruct (N.eqb_spec x y); [injection He as <-; reflexivity|]
    end.
  discriminate.
Qed.

Lemma clean_quoteBody s : wfString s -> clean (quoteBody s).
Proof.
  induction s as [| c | c d s' IH1 IH2] using list_ind2; intros Hwf.
  - apply clean_nil.
  - inversion Hwf as [|? ? Hc _]; subst. cbn [quoteBody].
    destruct (shortEscape c) as [e|] eqn:He.
    + now apply (clean_shortEscape c), clean_nil.
    + destruct (c <? 32).
      * rewrite app_nil_r. now apply clean_UnicodeEscape.
      * destruct (isHighSurrogate c) eqn:Hh; [now apply clean_UnicodeEscape|].
        destruct (isLowSurrogate c) eqn:Hl.
        -- rewrite app_nil_r. now apply clean_UnicodeEscape.
        -- apply clean_scalar; try assumption. apply clean_nil.
  - inversion Hwf as [|? ? Hc Hrest]; subst.
    inversion Hrest as [|? ? Hd Hrest']; subst.
    specialize (IH1 Hrest'). specialize (IH2 Hrest).
    cbn [quoteBody] in *.
    destruct (shortEscape c) as [e|] eqn:He.
    + now apply (clean_shortEscape c).
    + destruct (c <? 32).
      * apply clean_app; [now apply clean_UnicodeEscape|exact IH2].
      * destruct (isHighSurrogate c) eqn:Hh.
        -- destruct (isLowSurrogate d) eqn:Hl.
           ++ now apply clean_pair.
           ++ apply clean_app; [now apply clean_UnicodeEscape|exact IH2].
        -- destruct (isLowSurrogate c) eqn:Hl.
           ++ apply clean_app; [now apply clean_UnicodeEscape|exact IH2].
           ++ now apply clean_scalar.
Qed.

Lemma clean_QuoteJSONString s : wfString s -> clean (QuoteJSONString s).
Proof.
  intros H. unfold QuoteJSONString.
  apply clean_app; [now apply clean_ascii|].
  apply clean_app; [now apply clean_quoteBody|now apply clean_ascii].
Qed.

Lemma clean_joinWith sep parts :
  clean sep -> Forall clean parts -> clean (joinWith sep parts).
Proof.
  intros Hsep H. induction H as [|p parts Hp Hparts IH]; [apply clean_nil|].
  cbn [joinWith]. destruct parts as [|q parts']; [exact Hp|].
  apply clean_app; [exact Hp|]. apply clean_app; [exact Hsep|exact IH].
Qed.

(** The serialization of a serializable value: every member of an object
    is written. *)
Lemma members_flat_map (ms : list (jsstring * jsval)) :
  Forall (fun kv => SerializeJSONProperty (snd kv) <> None) ms ->
  flat_map (fun kv : jsstring * jsval =>
              let (k, x) := kv in
              match SerializeJSONProperty x with
              | Some t => [QuoteJSONString k ++ js ":" ++ t]
              | None => []
              end) ms
  = map memberText ms.
Proof.
  induction 1 as [|[k x] ms Hx Hms IH]; [reflexivity|].
  cbn [flat_map map]. rewrite IH. unfold memberText, jsonText. cbn [fst snd] in *.
  destruct (SerializeJSONProperty x); [reflexivity|contradiction].
Qed.

Lemma serializable_defined v :
  serializable v -> SerializeJSONProperty v <> None.
Proof. intros H. inversion H; subst; try discriminate. destruct b; discriminate. Qed.

Lemma jsonText_array l :
  jsonText (VArray l) = js "[" ++ joinWith (js ",") (map jsonText l) ++ js "]".
Proof. reflexivity. Qed.

Lemma jsonText_object ms :
  Forall (fun kv => serializable (snd kv)) ms ->
  jsonText (VObject ms)
  = js "{" ++ joinWith (js ",") (map memberText ms) ++ js "}".
Proof.
  intros H. unfold jsonText. cbn [SerializeJSONProperty].
  rewrite members_flat_map; [reflexivity|].
  eapply Forall_impl; [|exact H]. intros kv. apply serializable_defined.
Qed.

Lemma clean_jsonText v : serializable v -> clean (jsonText v).
Proof.
  induction v as [| | b | x | s | l IH | ms IH] using jsval_ind;
    intros Hser; inversion Hser; subst.
  - now apply clean_ascii.
  - destruct b; now apply clean_ascii.
  - now apply clean_QuoteJSONString.
  - rewrite jsonText_array.
    apply clean_app; [now apply clean_ascii|].
    apply clean_app; [|now apply clean_ascii].
    apply clean_joinWith; [now apply clean_ascii|].
    apply Forall_map. rewrite Forall_forall in *. intros x Hx.
    apply IH; [exact Hx|]. now apply H0.
  - rewrite jsonText_object by assumption.
    apply clean_app; [now apply clean_ascii|].
    apply clean_app; [|now apply clean_ascii].
    apply clean_joinWith; [now apply clean_ascii|].
    apply Forall_map. rewrite Forall_forall in *. intros kv Hkv.
    unfold memberText.
    apply clean_app; [apply clean_QuoteJSONString; now apply H1|].
    apply clean_app; [now apply clean_ascii|].
    apply IH; [exact Hkv|]. now apply H0.
Qed.

(** ** Parsing the text of a value *)

Lemma skip_nonws c r :
  isJSONWhitespace c = false -> skipWhitespace (c :: r) = c :: r.
Proof. intros H. cbn [skipWhitespace]. now rewrite H. Qed.

Lemma after_here c r :
  isJSONWhitespace c = false -> after c (skipWhitespace (c :: r)) = Some r.
Proof. intros H. rewrite skip_nonws by assumption. cbn. now rewrite N.eqb_refl. Qed.

Lemma after_other c d r :
  isJSONWhitespace d = false -> d <> c ->
  after c (skipWhitespace (d :: r)) = None.
Proof.
  intros H Hne. rewrite skip_nonws by assumption. cbn.
  apply N.eqb_neq in Hne. now rewrite Hne.
Qed.

Lemma parseValue_string fuel r :
  parseValue (S fuel) (34 :: r)
  = match parseStringBody r with
    | Some (str, rest) => Parsed (VString str) rest
    | None => SyntaxError
    end.
Proof. reflexivity. Qed.

Lemma parseValue_array fuel r :
  parseValue (S fuel) (91 :: r)
  = match after 93 (skipWhitespace r) with
    | Some rest => Parsed (VArray []) rest
    | None =>
        match parseElements fuel r with
        | Parsed l rest => Parsed (VArray l) rest
        | SyntaxError => SyntaxError
        | NumberLiteral => NumberLiteral
        | NoFuel => NoFuel
        end
    end.
Proof. reflexivity. Qed.

Lemma parseValue_object fuel r :
  parseValue (S fuel) (123 :: r)
  = match after 125 (skipWhitespace r) with
    | Some rest => Parsed (VObject []) rest
    | None =>
        match parseMembers fuel r with
        | Parsed ms rest => Parsed (objectOf ms) rest
        | SyntaxError => SyntaxError
        | NumberLiteral => NumberLiteral
        | NoFuel => NoFuel
        end
    end.
Proof. reflexivity. Qed.

Lemma parseElements_step fuel s :
  parseElements (S fuel) s
  = match parseValue fuel s with
    | Parsed v rest =>
        match after 44 (skipWhitespace rest) with
        | Some rest' =>
            match parseElements fuel rest' with
            | Parsed l rest'' => Parsed (v :: l) rest''
            | other => other
            end
        | None =>
            match after 93 (skipWhitespace rest) with
            | Some rest' => Parsed [v] rest'
            | None => SyntaxError
            end
        end
    | SyntaxError => SyntaxError
    | NumberLiteral => NumberLiteral
    | NoFuel => NoFuel
    end.
Proof. reflexivity. Qed.

Lemma parseMembers_step fuel s :
  parseMembers (S fuel) s
  = match after 34 (skipWhitespace s) with
    | Some r =>
        match parseStringBody r with
        | Some (k, rest) =>
            match after 58 (skipWhitespace rest) with
            | Some rest1 =>
                match parseValue fuel rest1 with
                | Parsed v rest2 =>
                    match after 44 (skipWhitespace rest2) with
                    | Some rest3 =>
                        match parseMembers fuel rest3 with
                        | Parsed ms rest4 => Parsed ((k, v) :: ms) rest4
                        | other => other
                        end
                    | None =>
                        match after 125 (skipWhitespace rest2) with
                        | Some rest3 => Parsed [(k, v)] rest3
                        | None => SyntaxError
                        end
                    end
                | SyntaxError => SyntaxError
                | NumberLiteral => NumberLiteral
                | NoFuel => NoFuel
                end
            | None => SyntaxError
            end
        | None => SyntaxError
        end
    | None => SyntaxError
    end.
Proof. reflexivity. Qed.

(** The text of a serializable value starts with a character that is
    neither white space nor a closing bracket. *)
Lemma jsonText_head v :
  serializable v ->
  exists c r,
    jsonText v = c :: r
    /\ isJSONWhitespace c = false /\ c <> 93 /\ c <> 125.
Proof.
  intros H. inversion H; subst.
  - exists 110, (js "ull"). repeat split; discriminate.
  - destruct b; [exists 116, (js "rue") | exists 102, (js "alse")];
      repeat split; discriminate.
  - exists 34, (quoteBody s ++ [34]). repeat split; discriminate.
  - rewrite jsonText_array. eexists 91, _. repeat split; discriminate.
  - rewrite jsonText_object by assumption.
    eexists 123, _. repeat split; discriminate.
Qed.

Lemma joinWith_cons2 sep p q parts :
  joinWith sep (p :: q :: parts) = p ++ sep ++ joinWith sep (q :: parts).
Proof. reflexivity. Qed.

Lemma parseElements_join l :
  Forall readsBack l -> l <> [] ->
  forall fuel rest,
    (length (joinWith (js ",") (map jsonText l)) + 1 <= fuel)%nat ->
    parseElements fuel (joinWith (js ",") (map jsonText l) ++ 93 :: rest)
    = Parsed l rest.
Proof.
  induction 1 as [|x l Hx Hl IH]; [congruence|]. intros _ fuel rest Hfuel.
  destruct fuel as [|fuel]; [lia|]. rewrite parseElements_step.
  destruct l as [|y l'].
  - cbn [map joinWith] in *. rewrite Hx by lia.
    rewrite after_other, after_here by (reflexivity || discriminate).
    reflexivity.
  - cbn [map] in *. rewrite joinWith_cons2 in *.
    rewrite !length_app in Hfuel. rewrite <- !app_assoc.
    rewrite Hx by lia. change (js ",") with [44]. cbn [app].
    rewrite after_here by reflexivity.
    rewrite IH; [reflexivity|discriminate|].
    change (js ",") with [44] in Hfuel. cbn [length] in Hfuel. 
    change (js ",") with [44]. lia.
Qed.

Lemma parseMembers_join ms :
  Forall (fun kv => readsBack (snd kv)) ms ->
  Forall (fun kv => wfString (fst kv)) ms ->
  ms <> [] ->
  forall fuel rest,
    (length (joinWith (js ",") (map memberText ms)) + 1 <= fuel)%nat ->
    parseMembers fuel (joinWith (js ",") (map memberText ms) ++ 125 :: rest)
    = Parsed ms rest.
Proof.
  induction 1 as [|[k x] ms Hx Hms IH]; [congruence|].
  intros Hkeys _ fuel rest Hfuel.
  inversion Hkeys as [|? ? Hk Hkeys']; subst. cbn [fst snd] in *.
  destruct fuel as [|fuel]; [lia|]. rewrite parseMembers_step.
  assert (Hmember : forall tail,
             memberText (k, x) ++ tail
             = 34 :: quoteBody k ++ 34 :: 58 :: jsonText x ++ tail).
  { intros tail. unfold memberText, QuoteJSONString. cbn [fst snd].
    change (js ":") with [58]. rewrite <- !app_assoc. reflexivity. }
  assert (Hlen : (length (jsonText x) + 1 <= length (memberText (k, x)))%nat).
  { unfold memberText. cbn [fst snd]. rewrite !length_app.
    change (js ":") with [58]. cbn [length]. lia. }
  destruct ms as [|kv ms'].
  - cbn [map joinWith] in *. rewrite Hmember.
    rewrite after_here by reflexivity.
    rewrite parse_quoteBody by assumption.
    rewrite after_here by reflexivity.
    rewrite Hx by lia.
    rewrite after_other, after_here by (reflexivity || discriminate).
    reflexivity.
  - cbn [map] in *. rewrite joinWith_cons2 in *.
    rewrite !length_app in Hfuel.
    change (js ",") with [44] in *. cbn [length] in Hfuel.
    rewrite <- !app_assoc, Hmember.
    rewrite after_here by reflexivity.
    rewrite parse_quoteBody by assumption.
    rewrite after_here by reflexivity.
    rewrite Hx by lia. cbn [app].
    rewrite after_here by reflexivity.
    rewrite IH; [reflexivity|assumption|discriminate|lia].
Qed.

Lemma jsstring_eqb_eq a b : jsstring_eqb a b = true <-> a = b.
Proof.
  revert b. induction a as [|x a IH]; intros [|y b]; cbn; split;
    try discriminate; try reflexivity.
  - intros H. apply andb_true_iff in H as [Hx Ha].
    apply N.eqb_eq in Hx. apply IH in Ha. now subst.
  - intros [= -> ->]. rewrite N.eqb_refl. now apply IH.
Qed.

Lemma lookup_absent k ms : ~ In k (map fst ms) -> lookup k ms = None.
Proof.
  induction ms as [|[k' v] ms IH]; intros H; [reflexivity|].
  cbn [lookup]. destruct (jsstring_eqb k k') eqn:E.
  - apply jsstring_eqb_eq in E. subst. exfalso. apply H. now left.
  - apply IH. intros Hin. apply H. now right.
Qed.

Lemma insertMember_last k v ms :
  integerIndex k = None -> insertMember k v ms = ms ++ [(k, v)].
Proof.
  intros H. induction ms as [|[k' v'] ms IH]; [reflexivity|].
  cbn [insertMember app]. rewrite H, IH. reflexivity.
Qed.

Lemma fold_defineMember ms acc :
  NoDup (map fst (acc ++ ms)) ->
  Forall (fun kv => integerIndex (fst kv) = None) ms ->
  fold_left defineMember ms acc = acc ++ ms.
Proof.
  revert acc. induction ms as [|[k v] ms IH]; intros acc Hnd Hidx.
  - now rewrite app_nil_r.
  - inversion Hidx as [|? ? Hk Hidx']; subst. cbn [fst] in Hk.
    cbn [fold_left]. unfold defineMember at 2.
    assert (Hfresh : ~ In k (map fst acc)).
    { rewrite map_app in Hnd. cbn [map fst] in Hnd.
      apply NoDup_remove_2 in Hnd. intros Hin. apply Hnd.
      apply in_or_app. now left. }
    rewrite (lookup_absent _ _ Hfresh), (insertMember_last _ _ _ Hk).
    rewrite IH.
    + now rewrite <- app_assoc.
    + now rewrite <- app_assoc.
    + exact Hidx'.
Qed.

Lemma objectOf_members ms :
  NoDup (map fst ms) ->
  Forall (fun kv => integerIndex (fst kv) = None) ms ->
  objectOf ms = VObject ms.
Proof.
  intros Hnd Hidx. unfold objectOf. now rewrite fold_defineMember.
Qed.

(** The text of a serializable value parses to the value. *)
Lemma parse_jsonText v : serializable v -> readsBack v.
Proof.
  induction v as [| | b | x | s | l IH | ms IH] using jsval_ind;
    intros Hser; inversion Hser; subst; intros fuel rest Hfuel.
  - destruct fuel as [|fuel]; [cbn in Hfuel; lia|]. reflexivity.
  - destruct fuel as [|fuel]; [destruct b; cbn in Hfuel; lia|].
    destruct b; reflexivity.
  - destruct fuel as [|fuel]; [cbn in Hfuel; lia|].
    change (jsonText (VString s)) with (34 :: quoteBody s ++ [34]).
    cbn [app]. rewrite parseValue_string, <- app_assoc. cbn [app].
    now rewrite parse_quoteBody.
  - rewrite jsonText_array in *. change (js "[") with [91] in *.
    change (js "]") with [93] in *. rewrite !length_app in Hfuel.
    cbn [length app] in Hfuel.
    destruct fuel as [|fuel]; [lia|].
    cbn [app]. rewrite <- app_assoc. cbn [app]. rewrite parseValue_array.
    destruct l as [|x l'].
    + cbn [map joinWith app]. now rewrite after_here.
    + assert (Hreads : Forall readsBack (x :: l')).
      { rewrite Forall_forall in *. intros y Hy. apply IH; [exact Hy|].
        now apply H0. }
      assert (Hhead : after 93 (skipWhitespace
                (joinWith [44] (map jsonText (x :: l')) ++ 93 :: rest)) = None).
      { inversion H0 as [|? ? Hx _]; subst.
        destruct (jsonText_head x Hx) as (c & r & Hc & Hws & H93 & _).
        cbn [map joinWith]. rewrite Hc.
        destruct l'; cbn [map app]; now apply after_other. }
      change (js ",") with [44] in *. rewrite Hhead.
      rewrite (parseElements_join _ Hreads); [reflexivity|discriminate|].
      change (js ",") with [44]. lia.
  - rewrite jsonText_object in * by assumption.
    change (js "{") with [123] in *. change (js "}") with [125] in *.
    rewrite !length_app in Hfuel. cbn [length app] in Hfuel.
    destruct fuel as [|fuel]; [lia|].
    cbn [app]. rewrite <- app_assoc. cbn [app]. rewrite parseValue_object.
    destruct ms as [|kv ms'].
    + cbn [map joinWith app]. now rewrite after_here.
    + assert (Hreads : Forall (fun kv => readsBack (snd kv)) (kv :: ms')).
      { rewrite Forall_forall in *. intros y Hy. apply IH; [exact Hy|].
        now apply H0. }
      assert (Hkeys : Forall (fun kv => wfString (fst kv)) (kv :: ms')).
      { eapply Forall_impl; [|exact H1]. now intros a [Ha _]. }
      assert (Hidx : Forall (fun kv => integerIndex (fst kv) = None) (kv :: ms')).
      { eapply Forall_impl; [|exact H1]. now intros a [_ Ha]. }
      assert (Hhead : after 125 (skipWhitespace
                (joinWith (js ",") (map memberText (kv :: ms')) ++ 125 :: rest))
                      = None).
      { cbn [map joinWith]. unfold memberText at 1, QuoteJSONString.
        destruct ms'; cbn [map app]; now apply after_other. }
      rewrite Hhead.
      rewrite (parseMembers_join _ Hreads Hkeys); [|discriminate|lia].
      now rewrite objectOf_members.
Qed.

Lemma JSON_parse_jsonText v :
  serializable v -> JSON_parse (jsonText v) = Parsed v [].
Proof.
  intros H. unfold JSON_parse.
  rewrite <- (app_nil_r (jsonText v)) at 2.
  rewrite (parse_jsonText v H) by lia. reflexivity.
Qed.

(** ** The text of a Number *)

Lemma Forall_firstn_skipn {A} (P : A -> Prop) n (l : list A) :
  Forall P l -> Forall P (firstn n l) /\ Forall P (skipn n l).
Proof.
  intros H. rewrite <- (firstn_skipn n l) in H. now apply Forall_app in H.
Qed.

Lemma below_ascii s : isAscii s = true -> Forall (fun c => c < 128) s.
Proof.
  intros H. apply Forall_forall. intros c Hc. unfold isAscii in H.
  rewrite forallb_forall in H. apply N.ltb_lt. now apply H.
Qed.

Lemma decimal_digits_ascii n :
  Forall (fun c => c < 128) (map digitChar (digits 10 n)).
Proof.
  apply Forall_map. pose proof (digits_bound 10 n ltac:(lia)) as H.
  eapply Forall_impl; [|exact H]. intros d Hd. cbn beta in *.
  unfold digitChar. destruct (d <? 10); lia.
Qed.

Lemma zeros_ascii k : Forall (fun c => c < 128) (repeat 48 k).
Proof. apply Forall_forall. intros c Hc. apply repeat_spec in Hc. subst. lia. Qed.

Lemma Finite_toString_ascii s e :
  Forall (fun c => c < 128) (Finite_toString s e).
Proof.
  unfold Finite_toString.
  destruct (stripZeros (N.to_nat (N.size s)) s e) as [s' e'].
  pose proof (decimal_digits_ascii s') as Hds.
  set (ds := map digitChar (digits 10 s')) in *.
  cbv zeta.
  destruct ((-5 <=? e' + Z.of_nat (length ds))%Z
            && (e' + Z.of_nat (length ds) <=? 21)%Z).
  - destruct (Z.of_nat (length ds) <=? e' + Z.of_nat (length ds))%Z.
    + apply Forall_app. split; [exact Hds|apply zeros_ascii].
    + destruct (0 <? e' + Z.of_nat (length ds))%Z.
      * destruct (Forall_firstn_skipn _ (Z.to_nat (e' + Z.of_nat (length ds)))
                    ds Hds) as [Hf Hs].
        apply Forall_app. split; [exact Hf|].
        apply Forall_app. split; [now apply below_ascii|exact Hs].
      * apply Forall_app. split; [now apply below_ascii|].
        apply Forall_app. split; [apply zeros_ascii|exact Hds].
  - assert (Hsign : Forall (fun c => c < 128)
                      (if (e' + Z.of_nat (length ds) <? 0)%Z
                       then js "-" else js "+")).
    { destruct (e' + Z.of_nat (length ds) <? 0)%Z; now apply below_ascii. }
    pose proof (decimal_digits_ascii
                  (Z.to_N (Z.abs (e' + Z.of_nat (length ds) - 1)))) as Hex.
    destruct ds as [|d [|d' rest]]; [constructor| |].
    + inversion Hds; subst.
      repeat (apply Forall_app; split);
        try assumption; try (now apply below_ascii); try (now constructor).
    + inversion Hds as [|? ? Hd Hrest]; subst.
      repeat (apply Forall_app; split);
        try assumption; try (now apply below_ascii); try (now constructor).
Qed.

Lemma Number_toString_wf x : wfString (Number_toString x).
Proof.
  assert (H : Forall (fun c => c < 128) (Number_toString x)).
  { destruct x as [| [|] | [|] | [|] s e]; cbn [Number_toString];
      try (now apply below_ascii).
    - apply Forall_app. split; [now apply below_ascii|].
      apply Finite_toString_ascii.
    - apply Finite_toString_ascii. }
  eapply Forall_impl; [|exact H]. intros c Hc. unfold codeUnit. cbn beta in Hc. lia.
Qed.

(** ** The token URI of a value *)

Lemma base64Char_isBase64Char n : n < 64 -> isBase64Char (base64Char n) = true.
Proof.
  intros H. unfold base64Char. decide_var_tests;
    unfold isBase64Char; decide_tests; reflexivity.
Qed.

Lemma base64Encode_chars bs :
  Forall (fun b => b < 256) bs -> forallb isBase64Char (base64Encode bs) = true.
Proof.
  induction bs as [| a | a b | a b c l IH] using list_ind3; intros H.
  - reflexivity.
  - inversion H; subst. cbn [base64Encode forallb].
    rewrite !base64Char_isBase64Char by lia. reflexivity.
  - inversion H as [|? ? Ha H']; subst. inversion H'; subst.
    cbn [base64Encode forallb].
    rewrite !base64Char_isBase64Char by lia. reflexivity.
  - inversion H as [|? ? Ha H1]; subst. inversion H1 as [|? ? Hb H2]; subst.
    inversion H2 as [|? ? Hc H3]; subst. cbn [base64Encode forallb].
    rewrite !base64Char_isBase64Char by lia. now rewrite IH.
Qed.

Lemma JSON_stringify_jsonText v :
  serializable v -> JSON_stringify v = Some (jsonText v).
Proof.
  intros H. apply serializable_defined in H. unfold JSON_stringify, jsonText.
  destruct (SerializeJSONProperty v); [reflexivity|contradiction].
Qed.

(** The token URI of a serializable value: it is produced, it is a
    TokenURI whose payload is the base64 text of the UTF-8 bytes of the
    JSON text, and the reader gets the value back from it. *)
Lemma encodeTokenURI_round_trip v :
  serializable v ->
  encodeTokenURI v
  = Ok (dataPrefix ++ base64Encode (utf8Encode (jsonText v)))
  /\ isTokenURI (dataPrefix ++ base64Encode (utf8Encode (jsonText v))) = true
  /\ decodeTokenURI (dataPrefix ++ base64Encode (utf8Encode (jsonText v)))
     = Some v.
Proof.
  intros Hser. destruct (clean_jsonText v Hser) as [Hwf Hw].
  pose proof (utf8Encode_bytes _ Hwf) as Hbytes.
  destruct (encodeURIComponent_bytes _ Hwf Hw) as (escaped & Hesc & Hrep).
  split; [|split].
  - unfold encodeTokenURI. rewrite (JSON_stringify_jsonText v Hser).
    cbn [stringOrUndefined]. rewrite Hesc. cbn [obind].
    rewrite Hrep, (btoa_bytes _ Hbytes). reflexivity.
  - unfold isTokenURI. rewrite startsWith_app, skipn_exact by reflexivity.
    now rewrite base64Encode_chars.
  - unfold decodeTokenURI. rewrite startsWith_app, skipn_exact by reflexivity.
    rewrite (atob_base64Encode _ Hbytes).
    rewrite (utf8Decode_utf8Encode _ Hwf Hw).
    now rewrite (JSON_parse_jsonText v Hser).
Qed.

Lemma serializable_attribute a :
  wfAttribute a -> serializable (NFT.attributeValue a).
Proof.
  intros [Ht Hv]. unfold NFT.attributeValue. apply ser_object.
  - constructor; [now apply ser_string|].
    constructor; [now apply ser_string|constructor].
  - repeat constructor; (apply isAscii_wfString; reflexivity) || reflexivity.
  - repeat constructor; cbn; intuition discriminate.
Qed.

Lemma serializable_metadata m : wfMetadata m -> serializable (NFT.toValue m).
Proof.
  intros (Hn & Hd & Ha). unfold NFT.toValue. apply ser_object.
  - constructor; [now apply ser_string|].
    constructor; [now apply ser_string|].
    constructor; [|constructor]. cbn [snd].
    apply ser_array. apply Forall_map.
    eapply Forall_impl; [|exact Ha]. apply serializable_attribute.
  - repeat constructor; (apply isAscii_wfString; reflexivity) || reflexivity.
  - repeat constructor; cbn; intuition discriminate.
Qed.

Lemma wfString_js s : wfString (js s).
Proof.
  apply Forall_forall. intros c Hc. unfold js in Hc.
  apply in_map_iff in Hc as [a [<- _]]. unfold codeUnit.
  pose proof (N_ascii_bounded a). lia.
Qed.

Lemma MetadataBuilder_wf obs date m :
  wfObservation obs -> wfString date ->
  MetadataBuilder obs date = Ok m -> wfMetadata m.
Proof.
  intros [Hl Hc] Hd H. unfold MetadataBuilder in H.
  pose proof (buildMetadata_spec (responseOf obs) date) as Hs.
  cbn [responseOf weather name main temp description] in Hs.
  match type of Hs with _ = Ok ?lit => assert (Hm : m = lit) by congruence end.
  subst m. clear H Hs.
  pose proof (Number_toString_wf (temperature obs)) as Ht.
  assert (Hdeg : wfString [degree]) by (repeat constructor).
  assert (Htemp : wfString (Number_toString (temperature obs) ++ [degree] ++ js "C")).
  { apply wfString_app; [exact Ht|].
    apply wfString_app; [exact Hdeg|apply wfString_js]. }
  split; [|split]; cbn [NFT.name NFT.description NFT.attributes].
  - apply wfString_app; [apply wfString_js|exact Hl].
  - apply wfString_app; [apply wfString_js|].
    apply wfString_app; [exact Hl|].
    apply wfString_app; [apply wfString_js|].
    apply wfString_app; [exact Hc|].
    apply wfString_app; [apply wfString_js|exact Htemp].
  - repeat (constructor; [split; cbn [NFT.trait_type NFT.value];
                          try apply wfString_js; assumption|]).
    constructor.
Qed.

(** * The call encoder: length word and total length *)

(** C2: for every 20-byte address and every token URI (a URI is ASCII text;
    the TokenURI of the data model, [data:application/json;base64,] and
    base64 text, is one) whose hex text fits in a string, in particular
    every token URI of up to 10 KB, the fourth segment of the encoded call,
    the 32-byte length word, read as a big-endian integer, is the number of
    bytes of the UTF-8 encoding of the token URI. *)
Theorem lengthField_is_utf8_byte_length (to uri : jsstring) :
  isAddress to = true ->
  isAscii uri = true ->
  2 * N.of_nat (length uri) <= maxStringLength ->
  length (lengthField (encodeMintCall to uri)) = (2 * 32)%nat
  /\ bigEndian (lengthField (encodeMintCall to uri))
     = Some (N.of_nat (length (utf8Encode uri))).
Proof.
  intros Hto Huri Hmax.
  destruct (encodeMintCall_segments to uri Hto Huri Hmax)
    as (_ & _ & _ & _ & _ & Hl & Hv & _).
  rewrite (utf8Encode_ascii uri Huri).
  split; assumption.
Qed.

Lemma lengthField_is_utf8_byte_length_witness :
  isAddress sampleAddress = true
  /\ isAscii sampleTokenURI = true
  /\ 2 * N.of_nat (length sampleTokenURI) <= maxStringLength
  /\ bigEndian (lengthField (encodeMintCall sampleAddress sampleTokenURI))
     = Some (N.of_nat (length (utf8Encode sampleTokenURI))).
Proof.
  assert (H1 : isAddress sampleAddress = true) by reflexivity.
  assert (H2 : isAscii sampleTokenURI = true) by reflexivity.
  assert (H3 : 2 * N.of_nat (length sampleTokenURI) <= maxStringLength)
    by (vm_compute; discriminate).
  split; [exact H1|split; [exact H2|split; [exact H3|]]].
  exact (proj2 (lengthField_is_utf8_byte_length sampleAddress sampleTokenURI
                  H1 H2 H3)).
Defined.

(** C3: for every 20-byte address and token URI, the encoded call is the
    marker [0x] followed by 8 + 64 + 64 + 64 + ceil(n/32)*32*2 hex
    characters, two for each byte of the call, [n] being the UTF-8 byte
    length of the token URI (the string itself, marker included, is two
    code units longer); the segments after the selector (padded address,
    offset, length word, padded data) take 64 + 32 + ceil(n/32)*32 bytes. *)
Theorem encodeMintCall_length (to uri : jsstring) :
  isAddress to = true ->
  isAscii uri = true ->
  2 * N.of_nat (length uri) <= maxStringLength ->
  let n := length (utf8Encode uri) in
  let out := encodeMintCall to uri in
  out = js "0x" ++ hexText out
  /\ forallb isHexDigitChar (hexText out) = true
  /\ length (hexText out) = (8 + 64 + 64 + 64 + ceilDiv n 32 * 32 * 2)%nat
  /\ length out = (2 + (8 + 64 + 64 + 64 + ceilDiv n 32 * 32 * 2))%nat
  /\ hexText out = selectorField out ++ addressField out ++ offsetField out
                     ++ lengthField out ++ dataField out
  /\ length (selectorField out) = (2 * 4)%nat
  /\ length (addressField out ++ offsetField out ++ lengthField out
               ++ dataField out)
     = (2 * (64 + 32 + ceilDiv n 32 * 32))%nat.
Proof.
  intros Hto Huri Hmax n out.
  destruct (encodeMintCall_segments to uri Hto Huri Hmax)
    as (Hout & Hs & _ & Ha & Ho & Hl & _ & Hd & Hh).
  fold out in Hout, Hs, Ha, Ho, Hl, Hd, Hh.
  assert (Hn : n = length uri).
  { subst n. now rewrite (utf8Encode_ascii uri Huri). }
  assert (Hhex : hexText out = selectorField out ++ addressField out
                   ++ offsetField out ++ lengthField out ++ dataField out).
  { rewrite Hout at 1. reflexivity. }
  assert (Hrest : length (addressField out ++ offsetField out
                            ++ lengthField out ++ dataField out)
                  = (2 * (64 + 32 + ceilDiv n 32 * 32))%nat).
  { rewrite !length_app, Ha, Ho, Hl, Hd, Hn. simpl length. lia. }
  assert (Hlen : length (hexText out)
                 = (8 + 64 + 64 + 64 + ceilDiv n 32 * 32 * 2)%nat).
  { rewrite Hhex, length_app, Hrest, Hs. simpl length. lia. }
  split; [|split; [|split; [|split; [|split; [|split]]]]].
  - rewrite Hhex. exact Hout.
  - exact Hh.
  - exact Hlen.
  - rewrite Hout, length_app, <- Hhex, Hlen. reflexivity.
  - exact Hhex.
  - now rewrite Hs.
  - exact Hrest.
Qed.

Lemma encodeMintCall_length_witness :
  isAddress sampleAddress = true
  /\ isAscii sampleTokenURI = true
  /\ 2 * N.of_nat (length sampleTokenURI) <= maxStringLength
  /\ length (hexText (encodeMintCall sampleAddress sampleTokenURI))
     = (8 + 64 + 64 + 64
        + ceilDiv (length (utf8Encode sampleTokenURI)) 32 * 32 * 2)%nat.
Proof.
  assert (H1 : isAddress sampleAddress = true) by reflexivity.
  assert (H2 : isAscii sampleTokenURI = true) by reflexivity.
  assert (H3 : 2 * N.of_nat (length sampleTokenURI) <= maxStringLength)
    by (vm_compute; discriminate).
  split; [exact H1|split; [exact H2|split; [exact H3|]]].
  exact (proj1 (proj2 (proj2 (encodeMintCall_length sampleAddress
                                sampleTokenURI H1 H2 H3)))).
Defined.

(** * The token URI *)


(** C1: for every weather observation (its texts any strings of UTF-16 code
    units, ASCII or not) and every timestamp text, the metadata is built,
    its token URI is produced: the prefix [data:application/json;base64,]
    followed by the base64 text of the UTF-8 bytes of the JSON text; and
    decoding the payload from base64, then from UTF-8, and parsing it as
    JSON gives a value equal to the metadata. *)
Theorem tokenURI_round_trip (obs : WeatherObservation) (date : jsstring) :
  wfObservation obs -> wfString date ->
  exists m uri,
    MetadataBuilder obs date = Ok m
    /\ URIEncoder m = Ok uri
    /\ uri = dataPrefix
             ++ base64Encode
                  (utf8Encode (stringOrUndefined (JSON_stringify (NFT.toValue m))))
    /\ decodeTokenURI uri = Some (NFT.toValue m).
Proof.
  intros Hobs Hdate.
  destruct (MetadataBuilder_returns obs date) as [m Hm].
  pose proof (MetadataBuilder_wf obs date m Hobs Hdate Hm) as Hwf.
  pose proof (serializable_metadata m Hwf) as Hser.
  destruct (encodeTokenURI_round_trip _ Hser) as (He & _ & Hd).
  exists m. eexists. split; [exact Hm|]. split; [exact He|].
  split; [|exact Hd].
  now rewrite (JSON_stringify_jsonText _ Hser).
Qed.

Lemma tokenURI_round_trip_witness :
  wfObservation zurich
  /\ wfString (js "1/1/2025, 12:00:00")
  /\ exists m uri,
       MetadataBuilder zurich (js "1/1/2025, 12:00:00") = Ok m
       /\ URIEncoder m = Ok uri
       /\ decodeTokenURI uri = Some (NFT.toValue m).
Proof.
  assert (H1 : wfObservation zurich).
  { split; unfold wfString, codeUnit; cbn;
      repeat (constructor; [reflexivity|]); constructor. }
  assert (H2 : wfString (js "1/1/2025, 12:00:00")).
  { unfold wfString, codeUnit; cbn;
      repeat (constructor; [reflexivity|]); constructor. }
  split; [exact H1|]. split; [exact H2|].
  destruct (tokenURI_round_trip zurich (js "1/1/2025, 12:00:00") H1 H2)
    as (m & uri & Hm & Hu & _ & Hd).
  exists m, uri. split; [exact Hm|]. split; [exact Hu|exact Hd].
Defined.

(** * The metadata *)

(** C6: for every weather observation the metadata built has exactly four
    attributes, in the order City, Temperature, Condition, Date, carrying
    the location, the temperature followed by the degree sign and C, the
    condition and the timestamp; the observation Paris, clear sky, 18.5
    yields the name, description and attributes of the scenario. *)
Theorem metadata_four_attributes :
  (forall (obs : WeatherObservation) (date : jsstring),
     exists m,
       MetadataBuilder obs date = Ok m
       /\ length (NFT.attributes m) = 4%nat
       /\ map NFT.trait_type (NFT.attributes m)
          = [js "City"; js "Temperature"; js "Condition"; js "Date"]
       /\ map NFT.value (NFT.attributes m)
          = [location obs;
             Number_toString (temperature obs) ++ [degree] ++ js "C";
             condition obs; date])
  /\ (forall timestamp : jsstring,
        buildMetadata
          {| name := js "Paris";
             weather := [ {| description := js "clear sky" |} ];
             main := {| temp := Finite false 185 (-1) |} |} timestamp
        = Ok {| NFT.name := js "Weather in Paris";
                NFT.description :=
                  js "Forecast for Paris: clear sky, 18.5" ++ [degree] ++ js "C";
                NFT.attributes :=
                  [ {| NFT.trait_type := js "City"; NFT.value := js "Paris" |};
                    {| NFT.trait_type := js "Temperature";
                       NFT.value := js "18.5" ++ [degree] ++ js "C" |};
                    {| NFT.trait_type := js "Condition";
                       NFT.value := js "clear sky" |};
                    {| NFT.trait_type := js "Date";
                       NFT.value := timestamp |} ] |}).
Proof.
  split.
  - intros obs date. unfold MetadataBuilder.
    pose proof (buildMetadata_spec (responseOf obs) date) as H.
    cbn [responseOf weather] in H. rewrite H.
    eexists. split; [reflexivity|]. cbn. repeat split.
  - intros timestamp. reflexivity.
Qed.

(** * The transaction identifier *)

Lemma txHashOf_members (result : jsval) :
  (forall k, k = js "txHash" \/ k = js "hash" ->
     optGetProp result k =
     Ok (match result with
         | VObject members => orUndefined (lookup k members)
         | _ => VUndefined
         end)).
Proof.
  intros k Hk. unfold optGetProp, getProp.
  destruct result; cbn [nullish]; try reflexivity;
    destruct Hk as [-> | ->]; reflexivity.
Qed.

Section Extraction.

Context {E : Type} {W : World E}.

Local Open Scope machine_scope.

(** C10: the extraction [result?.txHash || result?.hash || null] never
    throws, whatever the dispatch result is, null and undefined included;
    it gives the member [txHash] when that is present and truthy,
    otherwise the member [hash] when that is present and truthy,
    otherwise null, and that is what [this.txHash] is set to. *)
Theorem txHash_extraction_total_ordered (result : jsval) (m : Machine E) :
  let id := match presentAndTruthy result (js "txHash") with
            | Some id => id
            | None =>
                match presentAndTruthy result (js "hash") with
                | Some id => id
                | None => VNull
                end
            end in
  txHashOf result = Ok id
  /\ (hash <- lift (txHashOf result) ;; set_txHash hash) m
     = (Ok tt,
        {| component :=
             {| city := city (component m);
                WeatherGeneratorComponent.weather :=
                  WeatherGeneratorComponent.weather (component m);
                loading := loading (component m);
                txHash := id;
                error := error (component m) |};
           service := service m; env := env m; trace := trace m |})
  /\ txHashOf VNull = Ok VNull
  /\ txHashOf VUndefined = Ok VNull.
Proof.
  intros id.
  assert (Hid : txHashOf result = Ok id).
  { subst id. unfold txHashOf, orElse.
    rewrite !txHashOf_members by auto.
    unfold presentAndTruthy.
    destruct result as [| | | | | |members]; try reflexivity.
    cbn [obind].
    destruct (lookup (js "txHash") members) as [t|]; cbn [orUndefined].
    - destruct (truthy t) eqn:Ht; cbn [obind]; [now rewrite Ht|].
      destruct (lookup (js "hash") members) as [h|];
        cbn [orUndefined truthy obind].
      + destruct (truthy h) eqn:Hh; cbn [obind]; now rewrite ?Hh.
      + reflexivity.
    - cbn [truthy obind].
      destruct (lookup (js "hash") members) as [h|];
        cbn [orUndefined truthy obind].
      + destruct (truthy h) eqn:Hh; cbn [obind]; now rewrite ?Hh.
      + reflexivity. }
  split; [exact Hid|]. split; [|split; reflexivity].
  unfold bind, lift. rewrite Hid. reflexivity.
Qed.

End Extraction.

(** * The account service *)

Section ServiceClaims.

Context {E : Type} {W : World E}.

(** C4, as the code has it: [sendTransactionFromSub(to, data)] with no
    value first resolves the sub-account with [ensureSubAccount()]; when
    that returns a sub-account it then issues exactly one
    [wallet_sendCalls] request, version 2.0, [atomicRequired] true, from
    the address of the sub-account, whose calls are the single call of
    [to], [data] and the default value ['0x0'], and returns what the
    request gives; when the resolution throws, no batched call is
    issued. *)
Theorem sendTransactionFromSub_one_batched_call
    (to data : jsstring) (m : Machine E) :
  match ensureSubAccount m with
  | (Ok (Some sub), m1) =>
      let p := {| SendCalls.version := js "2.0";
                  SendCalls.atomicRequired := true;
                  SendCalls.from := address sub;
                  SendCalls.calls :=
                    [ {| SendCalls.to := to; SendCalls.data := data;
                         SendCalls.value := js "0x0" |} ] |} in
      sendTransactionFromSub to data None m
      = (fst (provider_request (wallet_sendCalls p) (env m1)),
         recorded m1 (snd (provider_request (wallet_sendCalls p) (env m1)))
                  (Rpc (wallet_sendCalls p)))
      /\ filter isBatchedCall (trace (snd (sendTransactionFromSub to data None m)))
         = filter isBatchedCall (trace m) ++ [Rpc (wallet_sendCalls p)]
  | (Ok None, _) => False
  | (Throw e, m1) =>
      sendTransactionFromSub to data None m = (Throw e, m1)
      /\ filter isBatchedCall (trace (snd (sendTransactionFromSub to data None m)))
         = filter isBatchedCall (trace m)
  end.
Proof.
  rewrite sendTransactionFromSub_run.
  destruct (ensureSubAccount m) as [r m1] eqn:Hrun.
  apply ensureSubAccount_run in Hrun.
  assert (Hquiet : filter isBatchedCall (trace m1)
                   = filter isBatchedCall (trace m)).
  { destruct (ensure_run_trace _ _ _ Hrun) as [evs [-> Hevs]].
    rewrite filter_app.
    destruct Hevs as [-> | [-> | ->]]; cbn; now rewrite app_nil_r. }
  destruct r as [[sub|]|e].
  - split; [reflexivity|].
    cbn [snd recorded trace]. rewrite filter_app, Hquiet. reflexivity.
  - destruct (ensure_run_returns _ _ _ Hrun) as [sub [Hs _]]. discriminate.
  - split; [reflexivity|exact Hquiet].
Qed.

(** C5: when [ensureSubAccount()] returns, it returns a sub-account, which
    is then cached; a second call in sequence returns the same sub-account
    and does nothing else, no request and no change of state, and so does
    every later call in sequence; the requests of all the calls together
    are none, one discovery, or one discovery followed by one creation. *)
Theorem ensureSubAccount_idempotent (m m1 : Machine E) (r : option SubAccount) :
  ensureSubAccount m = (Ok r, m1) ->
  exists sub,
    r = Some sub
    /\ subAccount (service m1) = Some sub
    /\ ensureSubAccount m1 = (Ok (Some sub), m1)
    /\ (forall n,
          Nat.iter n (fun m' => snd (ensureSubAccount m')) m1 = m1)
    /\ exists evs,
         trace (snd (ensureSubAccount m1)) = trace m ++ evs
         /\ (evs = []
             \/ evs = [Rpc (discoveryRequest m)]
             \/ evs = [Rpc (discoveryRequest m); Rpc creationRequest])
         /\ (length (filter isDiscovery evs) <= 1)%nat
         /\ (length (filter isCreation evs) <= 1)%nat.
Proof.
  intros Hrun. apply ensureSubAccount_run in Hrun.
  destruct (ensure_run_returns _ _ _ Hrun) as [sub [-> Hc]].
  exists sub. split; [reflexivity|]. split; [exact Hc|].
  pose proof (ensureSubAccount_cached m1 sub Hc) as Hagain.
  split; [exact Hagain|]. split.
  - induction n as [|n IH]; [reflexivity|].
    now rewrite Nat.iter_succ, IH, Hagain.
  - rewrite Hagain. cbn [snd].
    destruct (ensure_run_trace _ _ _ Hrun) as [evs [Ht Hevs]].
    exists evs. split; [exact Ht|]. split; [exact Hevs|].
    destruct Hevs as [-> | [-> | ->]]; cbn; lia.
Qed.

(** C9: once the cache holds a sub-account, [ensureSubAccount],
    [sendTransactionFromSub], [getSubAccountAddress], and also
    [sendTxViaEthRpc] and [getUniversalAddress], leave it as it is,
    whatever the provider answers; [connectWallet] overwrites it exactly
    when the provider returns two or more accounts, with the second
    one. *)
Theorem cached_subAccount_stable (m : Machine E) (sub : SubAccount) :
  subAccount (service m) = Some sub ->
  subAccount (service (snd (ensureSubAccount m))) = Some sub
  /\ (forall to data value,
        subAccount (service (snd (sendTransactionFromSub to data value m)))
        = Some sub)
  /\ subAccount (service (snd (getSubAccountAddress m))) = Some sub
  /\ (forall to data value,
        subAccount (service (snd (sendTxViaEthRpc to data value m)))
        = Some sub)
  /\ subAccount (service (snd (getUniversalAddress m))) = Some sub
  /\ subAccount (service (snd (connectWallet m)))
     = match fst (provider_request eth_requestAccounts (env m)) with
       | Ok (_ :: account1 :: _) => Some {| address := account1 |}
       | _ => Some sub
       end.
Proof.
  intros Hc. pose proof (ensureSubAccount_cached m sub Hc) as Hens.
  split; [now rewrite Hens|].
  split; [intros to data value; rewrite sendTransactionFromSub_run, Hens;
          exact Hc|].
  split; [rewrite getSubAccountAddress_run, Hens; exact Hc|].
  split; [intros to data value; rewrite sendTxViaEthRpc_run, Hens;
          exact Hc|].
  split; [exact Hc|].
  rewrite connectWallet_cache, Hc. reflexivity.
Qed.

End ServiceClaims.

(** C4, as the claim words it: the default value is not ['0'].  With the
    wallet of [acceptingScript] the one batched call issued carries the
    value ['0x0']. *)
Lemma sendTransactionFromSub_default_value_not_0 :
  ~ (exists p,
       In (Rpc (wallet_sendCalls p))
          (trace (snd (@sendTransactionFromSub unit (Scripted.world acceptingScript)
                         (js "0xb4F800E5647f9B82Be98068cb98c516f871bb7B8")
                         (js "0x40c10f19") None Scripted.start)))
       /\ SendCalls.calls p
          = [ {| SendCalls.to := js "0xb4F800E5647f9B82Be98068cb98c516f871bb7B8";
                 SendCalls.data := js "0x40c10f19";
                 SendCalls.value := js "0" |} ]).
Proof.
  intros [p [Hin Hcalls]].
  vm_compute in Hin.
  destruct Hin as [H | [H | [H | []]]]; try discriminate H.
  injection H as <-. discriminate Hcalls.
Qed.

Lemma ensureSubAccount_idempotent_witness :
  exists m1 sub,
    @ensureSubAccount unit (Scripted.world acceptingScript) Scripted.start
    = (Ok (Some sub), m1)
    /\ @ensureSubAccount unit (Scripted.world acceptingScript) m1
       = (Ok (Some sub), m1).
Proof.
  eexists _, _.
  assert (H : @ensureSubAccount unit (Scripted.world acceptingScript) Scripted.start
              = (Ok (Some {| address := js "0x2222222222222222222222222222222222222222" |}),
                 snd (@ensureSubAccount unit (Scripted.world acceptingScript)
                        Scripted.start)))
    by reflexivity.
  split; [exact H|].
  destruct (@ensureSubAccount_idempotent unit (Scripted.world acceptingScript)
              _ _ _ H) as [sub [Hs [_ [Hagain _]]]].
  injection Hs as <-. exact Hagain.
Defined.

Lemma cached_subAccount_stable_witness :
  subAccount (service connectedMachine)
  = Some {| address := js "0x3333333333333333333333333333333333333333" |}
  /\ subAccount (service (snd (@ensureSubAccount unit
                                 (Scripted.world connectingScript)
                                 connectedMachine)))
     = Some {| address := js "0x3333333333333333333333333333333333333333" |}.
Proof.
  assert (H : subAccount (service connectedMachine)
              = Some {| address := js "0x3333333333333333333333333333333333333333" |})
    by reflexivity.
  split; [exact H|].
  exact (proj1 (@cached_subAccount_stable unit (Scripted.world connectingScript)
                  connectedMachine _ H)).
Defined.

(** * A mint attempt *)

Section AttemptClaims.

Context {E : Type} {W : World E}.

(** C8: with the empty string as city, the fetch of [getWeather], the
    first thing the attempt does, goes to the URL whose query key is the
    default location Washington. *)
Theorem empty_city_fetches_Washington (m : Machine E) :
  city (component m) = [] ->
  exists evs,
    trace (snd (getWeather m))
    = trace m
      ++ HttpGet (js "https://api.openweathermap.org/data/2.5/weather?q="
                    ++ js "Washington" ++ js "&appid=" ++ openWeatherApiKey
                    ++ js "&units=metric")
      :: evs.
Proof.
  intros Hcity. destruct (getWeather_fetches_first m) as [evs Hevs].
  exists evs. rewrite Hevs. unfold cityUrl. rewrite Hcity. reflexivity.
Qed.

(** C7: when the fetch, the metadata, the token URI and the resolution of
    the sub-account succeed and the batched-call request then throws an
    error that has a message, the attempt ends normally with [txHash]
    null, the message as [error] and [loading] false; after the failed
    request nothing is sent any more, the service is as the resolution
    left it, and a sub-account cached before the attempt is the one used,
    the service untouched and no discovery or creation request made. *)
Theorem dispatch_failure_reported
    (m : Machine E) (w : Weather) (e1 : E) (metadata : NFT.Metadata)
    (tokenURI : jsstring) (sub : SubAccount) (m2 : Machine E)
    (err : exn) (e3 : E) (message : jsval) :
  http_get (cityUrl m) (env m) = (Ok w, e1) ->
  buildMetadata w (Date_toLocaleString e1) = Ok metadata ->
  encodeTokenURI (NFT.toValue metadata) = Ok tokenURI ->
  ensureSubAccount (loaded m w e1) = (Ok (Some sub), m2) ->
  provider_request (mintCall sub tokenURI) (env m2) = (Throw err, e3) ->
  messageOf err = Ok message ->
  getWeather m
  = (Ok tt,
     {| component :=
          {| city := city (component m);
             WeatherGeneratorComponent.weather := Some w;
             loading := false;
             txHash := VNull;
             error := message |};
        service := service m2;
        env := e3;
        trace := trace m2 ++ [Rpc (mintCall sub tokenURI); ConsoleError err] |})
  /\ subAccount (service m2) = Some sub
  /\ (forall cachedSub,
        subAccount (service m) = Some cachedSub ->
        cachedSub = sub /\ service m2 = service m
        /\ trace m2 = trace m ++ [HttpGet (cityUrl m)]).
Proof.
  intros Hfetch Hmeta Huri Hens Hsend Hmsg.
  pose proof (ensureSubAccount_run _ _ _ Hens) as Hrun.
  destruct (ensure_run_returns _ _ _ Hrun) as [sub' [Hs Hc]].
  injection Hs as <-.
  pose proof (ensure_run_component _ _ _ Hrun) as Hcomp.
  split; [|split; [exact Hc|]].
  - rewrite getWeather_entered.
    unfold tryFinally, tryCatch. unfold bind at 1. unfold httpGet.
    cbn [env entered]. rewrite Hfetch.
    change (recorded _ e1 (HttpGet (cityUrl m)))
      with (recorded (entered m) e1 (HttpGet (cityUrl m))).
    rewrite (mintWeatherNFT_dispatch m w e1 metadata tokenURI sub m2
               Hmeta Huri Hens), Hsend.
    unfold reportError, bind, lift. rewrite Hmsg.
    cbn. rewrite Hcomp, <- app_assoc. reflexivity.
  - intros cachedSub Hcached.
    assert (Hl : subAccount (service (loaded m w e1)) = Some cachedSub)
      by exact Hcached.
    destruct (ensure_run_keeps_cache _ _ _ _ Hl Hrun) as [Hr Hm2].
    injection Hr as ->. subst m2. repeat split.
Qed.

End AttemptClaims.

Lemma empty_city_fetches_Washington_witness :
  city (component Scripted.start) = []
  /\ exists evs,
       trace (snd (@getWeather unit (Scripted.world acceptingScript) Scripted.start))
       = HttpGet (js "https://api.openweathermap.org/data/2.5/weather?q=Washington&appid=key&units=metric")
         :: evs.
Proof.
  split; [reflexivity|].
  exact (@empty_city_fetches_Washington unit (Scripted.world acceptingScript)
           Scripted.start eq_refl).
Defined.

Lemma dispatch_failure_reported_witness :
  exists m',
    @getWeather unit (Scripted.world rejectingScript) connectedMachine = (Ok tt, m')
    /\ txHash (component m') = VNull
    /\ error (component m') = VString (js "insufficient allowance")
    /\ service m' = service connectedMachine.
Proof.
  destruct (@dispatch_failure_reported unit (Scripted.world rejectingScript)
              connectedMachine _ tt _ _ _ _ _ tt _
              eq_refl eq_refl eq_refl eq_refl eq_refl eq_refl)
    as [Hrun _].
  eexists. split; [exact Hrun|]. repeat split.
Defined.

(** * Further properties of the service and of the component *)

(** ** The account service *)

Section ServiceExtras.

Context {E : Type} {W : World E}.

Local Open Scope machine_scope.

(** Every run of the relation is a run of the function. *)
Lemma ensure_run_sound (m m' : Machine E) r :
  ensure_run m r m' -> ensureSubAccount m = (r, m').
Proof.
  intros H. inversion H; subst.
  - now apply ensureSubAccount_cached.
  - unfold ensureSubAccount, bind, getService. rewrite H0.
    unfold readEnv, request. cbn [env]. fold (discoveryRequest m).
    now rewrite H1.
  - unfold ensureSubAccount, bind, getService. rewrite H0.
    unfold readEnv, request. cbn [env]. fold (discoveryRequest m).
    rewrite H1, H2. reflexivity.
  - unfold ensureSubAccount, bind, getService. rewrite H0.
    unfold readEnv, request. cbn [env]. fold (discoveryRequest m).
    rewrite H1. fold creationRequest.
    destruct H2 as [-> | ->]; cbn [env recorded]; now rewrite H3.
  - unfold ensureSubAccount, bind, getService. rewrite H0.
    unfold readEnv, request. cbn [env]. fold (discoveryRequest m).
    rewrite H1. fold creationRequest.
    destruct H2 as [-> | ->]; cbn [env recorded]; now rewrite H3.
Qed.

(** X1: when the wallet answers [eth_requestAccounts], [connectWallet]
    returns the accounts after that one request; [getUniversalAddress]
    then gives the first account, [undefined] when the list is empty; the
    second account, when there is one, becomes the cached sub-account, and
    the cache stays as it was otherwise; the component is not touched. *)
Theorem connectWallet_then_getUniversalAddress
    (m : Machine E) (accounts : list jsstring) (e1 : E) :
  provider_request eth_requestAccounts (env m) = (Ok accounts, e1) ->
  exists m1,
    connectWallet m = (Ok accounts, m1)
    /\ getUniversalAddress m1
       = (Ok (match accounts with
              | a :: _ => VString a
              | [] => VUndefined
              end), m1)
    /\ subAccount (service m1)
       = match accounts with
         | _ :: account1 :: _ => Some {| address := account1 |}
         | _ => subAccount (service m)
         end
    /\ trace m1 = trace m ++ [Rpc eth_requestAccounts]
    /\ env m1 = e1
    /\ component m1 = component m.
Proof.
  intros H. unfold connectWallet, bind, request. rewrite H.
  destruct accounts as [|a0 [|a1 rest]]; eexists; repeat split.
Qed.

(** X2: when the wallet rejects [eth_requestAccounts], [connectWallet]
    and [ngOnInit], which awaits it, throw what the wallet threw; the
    service keeps the primary address and the cache it had, and the
    component is not touched. *)
Theorem connectWallet_rejected (m : Machine E) (err : exn) (e1 : E) :
  provider_request eth_requestAccounts (env m) = (Throw err, e1) ->
  connectWallet m = (Throw err, recorded m e1 (Rpc eth_requestAccounts))
  /\ ngOnInit m = (Throw err, recorded m e1 (Rpc eth_requestAccounts))
  /\ service (snd (connectWallet m)) = service m
  /\ component (snd (connectWallet m)) = component m.
Proof.
  intros H.
  assert (Hc : connectWallet m
               = (Throw err, recorded m e1 (Rpc eth_requestAccounts))).
  { unfold connectWallet, bind, request. now rewrite H. }
  split; [exact Hc|]. split.
  - unfold ngOnInit, bind. now rewrite Hc.
  - rewrite Hc. split; reflexivity.
Qed.

(** X3: with an empty cache and a wallet that lists sub-accounts for the
    page, [ensureSubAccount] returns the first one listed after the one
    discovery request, which carries the primary address of the service
    and the origin of the page; no sub-account is created, and the one
    found is cached. *)
Theorem ensureSubAccount_prefers_existing
    (m : Machine E) (resp : SubAccountsResponse) (e1 : E)
    (first : SubAccount) (rest : list SubAccount) :
  subAccount (service m) = None ->
  provider_request
    (wallet_getSubAccounts (universalAddress (service m))
                           (location_origin (env m))) (env m)
  = (Ok resp, e1) ->
  subAccounts resp = Some (first :: rest) ->
  exists m1,
    ensureSubAccount m = (Ok (Some {| address := address first |}), m1)
    /\ trace m1
       = trace m ++ [Rpc (wallet_getSubAccounts (universalAddress (service m))
                                                (location_origin (env m)))]
    /\ filter isCreation (trace m1) = filter isCreation (trace m)
    /\ subAccount (service m1) = Some {| address := address first |}
    /\ universalAddress (service m1) = universalAddress (service m)
    /\ component m1 = component m.
Proof.
  intros Hc Hd Hs. eexists. split.
  - apply ensure_run_sound. eapply run_found; eassumption.
  - cbn [trace cached recorded service component subAccount universalAddress].
    repeat split. rewrite filter_app. cbn. apply app_nil_r.
Qed.

(** X4: with an empty cache and a wallet that lists no sub-account for the
    page (no list, or an empty one), [ensureSubAccount] asks the wallet to
    create one, with the account type [create], right after the discovery,
    returns an object holding the address of what the wallet created, and
    caches it. *)
Theorem ensureSubAccount_creates_when_none
    (m : Machine E) (resp : SubAccountsResponse) (e1 e2 : E)
    (newSub : SubAccount) :
  subAccount (service m) = None ->
  provider_request
    (wallet_getSubAccounts (universalAddress (service m))
                           (location_origin (env m))) (env m)
  = (Ok resp, e1) ->
  subAccounts resp = None \/ subAccounts resp = Some [] ->
  provider_request (wallet_addSubAccount (js "create")) e1 = (Ok newSub, e2) ->
  exists m1,
    ensureSubAccount m = (Ok (Some {| address := address newSub |}), m1)
    /\ trace m1
       = trace m ++ [Rpc (wallet_getSubAccounts (universalAddress (service m))
                                                (location_origin (env m)));
                     Rpc (wallet_addSubAccount (js "create"))]
    /\ subAccount (service m1) = Some {| address := address newSub |}
    /\ universalAddress (service m1) = universalAddress (service m)
    /\ env m1 = e2
    /\ component m1 = component m.
Proof.
  intros Hc Hd Hs Ha. eexists. split.
  - apply ensure_run_sound. eapply run_created; eassumption.
  - cbn [trace cached recorded service component subAccount universalAddress
         env].
    rewrite <- app_assoc. repeat split.
Qed.


(** X6: [sendTxViaEthRpc(to, data)], once the sub-account is resolved,
    makes exactly one [eth_sendTransaction] request, from the address of
    the sub-account, with the target and the data it was given and the
    value [0x0] when none is given; it returns or throws what the wallet
    answers, and makes no batched call.  When the resolution throws, no
    transaction request is made. *)
Theorem sendTxViaEthRpc_one_transaction
    (to data : jsstring) (value : option jsstring) (m : Machine E) :
  match ensureSubAccount m with
  | (Ok (Some sub), m1) =>
      let t := {| SendTransaction.from := address sub;
                  SendTransaction.to := to;
                  SendTransaction.data := data;
                  SendTransaction.value :=
                    match value with
                    | Some v => v
                    | None => js "0x0"
                    end |} in
      sendTxViaEthRpc to data value m
      = (fst (provider_request (eth_sendTransaction t) (env m1)),
         recorded m1 (snd (provider_request (eth_sendTransaction t) (env m1)))
                  (Rpc (eth_sendTransaction t)))
      /\ filter isSendTransaction (trace (snd (sendTxViaEthRpc to data value m)))
         = filter isSendTransaction (trace m) ++ [Rpc (eth_sendTransaction t)]
      /\ filter isBatchedCall (trace (snd (sendTxViaEthRpc to data value m)))
         = filter isBatchedCall (trace m)
  | (Ok None, _) => False
  | (Throw e, m1) =>
      sendTxViaEthRpc to data value m = (Throw e, m1)
      /\ filter isSendTransaction (trace (snd (sendTxViaEthRpc to data value m)))
         = filter isSendTransaction (trace m)
  end.
Proof.
  rewrite sendTxViaEthRpc_run.
  destruct (ensureSubAccount m) as [[r|e] m1] eqn:Hens.
  - pose proof (ensureSubAccount_run _ _ _ Hens) as Hrun.
    destruct (ensure_run_returns _ _ _ Hrun) as [sub [-> Hc]].
    destruct (ensure_run_trace _ _ _ Hrun) as [evs [Ht Hevs]].
    cbv zeta. split; [destruct value; reflexivity|].
    cbn [snd trace recorded]. rewrite Ht, !filter_app.
    destruct value; cbn [valueOrDefault]; unfold defaultValue;
      (destruct Hevs as [-> | [-> | ->]]; cbn;
       rewrite ?app_nil_r; split; reflexivity).
  - pose proof (ensureSubAccount_run _ _ _ Hens) as Hrun.
    destruct (ensure_run_trace _ _ _ Hrun) as [evs [Ht Hevs]].
    split; [reflexivity|]. cbn [snd]. rewrite Ht, filter_app.
    destruct Hevs as [-> | [-> | ->]]; cbn; now rewrite app_nil_r.
Qed.

(** X7: after [connectWallet] got two accounts or more, a dispatch
    resolves the sub-account without asking the wallet: the two calls make
    two requests, the connection and one batched call sent from the second
    account, whatever sub-account was cached before. *)
Theorem connect_then_dispatch
    (m : Machine E) (a0 a1 : jsstring) (rest : list jsstring) (e1 : E)
    (to data : jsstring) :
  provider_request eth_requestAccounts (env m) = (Ok (a0 :: a1 :: rest), e1) ->
  let p := callsParam a1 to data (js "0x0") in
  (connectWallet ;; sendTransactionFromSub to data None) m
  = (fst (provider_request (wallet_sendCalls p) e1),
     {| component := component m;
        service := {| universalAddress := VString a0;
                      subAccount := Some {| address := a1 |} |};
        env := snd (provider_request (wallet_sendCalls p) e1);
        trace := trace m ++ [Rpc eth_requestAccounts; Rpc (wallet_sendCalls p)] |}).
Proof.
  intros H p. unfold bind at 1.
  assert (Hc : connectWallet m
               = (Ok (a0 :: a1 :: rest),
                  {| component := component m;
                     service := {| universalAddress := VString a0;
                                   subAccount := Some {| address := a1 |} |};
                     env := e1;
                     trace := trace m ++ [Rpc eth_requestAccounts] |})).
  { unfold connectWallet, bind, request. rewrite H. reflexivity. }
  rewrite Hc, sendTransactionFromSub_run.
  rewrite (ensureSubAccount_cached _ {| address := a1 |}) by reflexivity.
  cbn [valueOrDefault address env]. unfold defaultValue. fold p.
  unfold recorded. cbn [component service env trace].
  rewrite <- app_assoc. reflexivity.
Qed.

End ServiceExtras.

(** ** The attempt *)

Lemma txHashOf_picks (result : jsval) :
  txHashOf result
  = Ok (match presentAndTruthy result (js "txHash") with
        | Some id => id
        | None =>
            match presentAndTruthy result (js "hash") with
            | Some id => id
            | None => VNull
            end
        end).
Proof.
  assert (Hm : forall k, k = js "txHash" \/ k = js "hash" ->
            optGetProp result k =
            Ok (match result with
                | VObject members => orUndefined (lookup k members)
                | _ => VUndefined
                end)).
  { intros k Hk. unfold optGetProp, getProp.
    destruct result; cbn [nullish]; try reflexivity;
      destruct Hk as [-> | ->]; reflexivity. }
  unfold txHashOf, orElse. rewrite !Hm by auto.
  unfold presentAndTruthy.
  destruct result as [| | | | | |members]; try reflexivity.
  cbn [obind].
  destruct (lookup (js "txHash") members) as [t|]; cbn [orUndefined].
  - destruct (truthy t) eqn:Ht; cbn [obind]; [now rewrite Ht|].
    destruct (lookup (js "hash") members) as [h|];
      cbn [orUndefined truthy obind].
    + destruct (truthy h) eqn:Hh; cbn [obind]; now rewrite ?Hh.
    + reflexivity.
  - cbn [truthy obind].
    destruct (lookup (js "hash") members) as [h|];
      cbn [orUndefined truthy obind].
    + destruct (truthy h) eqn:Hh; cbn [obind]; now rewrite ?Hh.
    + reflexivity.
Qed.

Section AttemptExtras.

Context {E : Type} {W : World E}.

Local Open Scope machine_scope.

Lemma getWeather_tryBlock (m : Machine E) :
  getWeather m
  = tryFinally (tryCatch tryBlock reportError) (set_loading false) (entered m).
Proof. reflexivity. Qed.

(** The try block, step by step. *)
Lemma tryBlock_run (m : Machine E) :
  tryBlock (entered m)
  = match http_get (cityUrl m) (env m) with
    | (Throw err, e1) =>
        (Throw err, recorded (entered m) e1 (HttpGet (cityUrl m)))
    | (Ok w, e1) =>
        match buildMetadata w (Date_toLocaleString e1) with
        | Throw err => (Throw err, loaded m w e1)
        | Ok metadata =>
            match encodeTokenURI (NFT.toValue metadata) with
            | Throw err => (Throw err, loaded m w e1)
            | Ok tokenURI =>
                match ensureSubAccount (loaded m w e1) with
                | (Throw err, m2) => (Throw err, m2)
                | (Ok None, m2) => (Throw TypeError, m2)
                | (Ok (Some sub), m2) =>
                    match provider_request (mintCall sub tokenURI) (env m2) with
                    | (Throw err, e3) =>
                        (Throw err, recorded m2 e3 (Rpc (mintCall sub tokenURI)))
                    | (Ok result, e3) =>
                        match txHashOf result with
                        | Ok id =>
                            (Ok tt, minted m2 e3 (Rpc (mintCall sub tokenURI)) id)
                        | Throw err =>
                            (Throw err,
                             recorded m2 e3 (Rpc (mintCall sub tokenURI)))
                        end
                    end
                end
            end
        end
    end.
Proof.
  unfold tryBlock. unfold bind at 1. unfold getComponent at 1.
  cbv zeta. change (city (component (entered m))) with (city (component m)).
  fold (cityUrl m).
  unfold bind at 1. unfold httpGet. cbn [env entered].
  destruct (http_get (cityUrl m) (env m)) as [[w|err] e1] eqn:Hfetch;
    [|reflexivity].
  change (recorded _ e1 (HttpGet (cityUrl m)))
    with (recorded (entered m) e1 (HttpGet (cityUrl m))).
  destruct (buildMetadata w (Date_toLocaleString e1)) as [metadata|err]
    eqn:Hmeta.
  2:{ unfold mintWeatherNFT. unfold bind at 1.
      cbn [set_weather bind getComponent setComponent recorded entered
           component service env trace city loading txHash error].
      fold (loaded m w e1). unfold bind at 1. unfold readEnv at 1.
      cbn [env loaded]. fold (loaded m w e1).
      unfold bind at 1. unfold lift at 1. now rewrite Hmeta. }
  destruct (encodeTokenURI (NFT.toValue metadata)) as [tokenURI|err] eqn:Huri.
  2:{ unfold mintWeatherNFT. unfold bind at 1.
      cbn [set_weather bind getComponent setComponent recorded entered
           component service env trace city loading txHash error].
      fold (loaded m w e1). unfold bind at 1. unfold readEnv at 1.
      cbn [env loaded]. fold (loaded m w e1).
      unfold bind at 1. unfold lift at 1. rewrite Hmeta.
      unfold bind at 1. unfold lift at 1. now rewrite Huri. }
  destruct (ensureSubAccount (loaded m w e1)) as [[[sub|]|err] m2] eqn:Hens.
  - rewrite (mintWeatherNFT_dispatch m w e1 metadata tokenURI sub m2
               Hmeta Huri Hens).
    destruct (provider_request (mintCall sub tokenURI) (env m2))
      as [[result|err] e3]; [|reflexivity].
    unfold bind, lift. destruct (txHashOf result); reflexivity.
  - unfold mintWeatherNFT. unfold bind at 1.
    cbn [set_weather bind getComponent setComponent recorded entered
         component service env trace city loading txHash error].
    fold (loaded m w e1). unfold bind at 1. unfold readEnv at 1.
    cbn [env loaded]. fold (loaded m w e1).
    unfold bind at 1. unfold lift at 1. rewrite Hmeta.
    unfold bind at 1. unfold lift at 1. rewrite Huri.
    unfold bind at 1. rewrite getSubAccountAddress_run, Hens. reflexivity.
  - unfold mintWeatherNFT. unfold bind at 1.
    cbn [set_weather bind getComponent setComponent recorded entered
         component service env trace city loading txHash error].
    fold (loaded m w e1). unfold bind at 1. unfold readEnv at 1.
    cbn [env loaded]. fold (loaded m w e1).
    unfold bind at 1. unfold lift at 1. rewrite Hmeta.
    unfold bind at 1. unfold lift at 1. rewrite Huri.
    unfold bind at 1. rewrite getSubAccountAddress_run, Hens. reflexivity.
Qed.

Lemma getWeather_caught (m m1 : Machine E) err message :
  tryBlock (entered m) = (Throw err, m1) ->
  messageOf err = Ok message ->
  getWeather m = (Ok tt, reported m1 message err).
Proof.
  intros Hb Hm. rewrite getWeather_tryBlock.
  unfold tryFinally, tryCatch. rewrite Hb.
  unfold reportError, bind, lift. rewrite Hm. reflexivity.
Qed.

Lemma getWeather_uncaught (m m1 : Machine E) err e' :
  tryBlock (entered m) = (Throw err, m1) ->
  messageOf err = Throw e' ->
  getWeather m = (Throw e', stopped m1).
Proof.
  intros Hb Hm. rewrite getWeather_tryBlock.
  unfold tryFinally, tryCatch. rewrite Hb.
  unfold reportError, bind, lift. rewrite Hm. reflexivity.
Qed.

Lemma getWeather_completed (m m1 : Machine E) :
  tryBlock (entered m) = (Ok tt, m1) ->
  getWeather m = (Ok tt, stopped m1).
Proof.
  intros Hb. rewrite getWeather_tryBlock.
  unfold tryFinally, tryCatch. rewrite Hb. reflexivity.
Qed.

End AttemptExtras.

Section AttemptTheorems.

Context {E : Type} {W : World E}.

Local Open Scope machine_scope.

Lemma ensure_run_universalAddress (m m' : Machine E) r :
  ensure_run m r m' ->
  universalAddress (service m') = universalAddress (service m).
Proof. intros H. inversion H; subst; reflexivity. Qed.

(** What the try block leaves when it throws: the fields of the component
    as the resets made them, but for the weather. *)
Lemma tryBlock_throws (m m1 : Machine E) err :
  tryBlock (entered m) = (Throw err, m1) ->
  city (component m1) = city (component m)
  /\ loading (component m1) = true
  /\ txHash (component m1) = VNull
  /\ error (component m1) = error (component m).
Proof.
  rewrite tryBlock_run.
  destruct (http_get (cityUrl m) (env m)) as [[w|e] e1].
  2:{ intros [= <- <-]. repeat split. }
  destruct (buildMetadata w (Date_toLocaleString e1)) as [metadata|e].
  2:{ intros [= <- <-]. repeat split. }
  destruct (encodeTokenURI (NFT.toValue metadata)) as [tokenURI|e].
  2:{ intros [= <- <-]. repeat split. }
  destruct (ensureSubAccount (loaded m w e1)) as [[[sub|]|e] m2] eqn:Hens;
    apply ensureSubAccount_run, ensure_run_component in Hens.
  - destruct (provider_request (mintCall sub tokenURI) (env m2))
      as [[result|e] e3].
    + rewrite txHashOf_picks. discriminate.
    + intros [= <- <-]. cbn [recorded component]. rewrite Hens.
      repeat split.
  - intros [= <- <-]. rewrite Hens. repeat split.
  - intros [= <- <-]. rewrite Hens. repeat split.
Qed.

(** X8: whatever step of the try block of [getWeather] throws (the fetch,
    the metadata, the token URI, the resolution of the sub-account, the
    dispatch), when the thrown value has a readable [message] the attempt
    ends normally: the message is in [error], the thrown value is logged
    once, [loading] is false, [txHash] is null, and the city, the service
    and the outside are as the failed step left them. *)
Theorem getWeather_catches_every_failure
    (m m1 : Machine E) (err : exn) (message : jsval) :
  tryBlock (entered m) = (Throw err, m1) ->
  messageOf err = Ok message ->
  getWeather m = (Ok tt, reported m1 message err)
  /\ error (component (snd (getWeather m))) = message
  /\ loading (component (snd (getWeather m))) = false
  /\ txHash (component (snd (getWeather m))) = VNull
  /\ city (component (snd (getWeather m))) = city (component m)
  /\ service (snd (getWeather m)) = service m1
  /\ trace (snd (getWeather m)) = trace m1 ++ [ConsoleError err].
Proof.
  intros Hb Hm. destruct (tryBlock_throws _ _ _ Hb) as (Hc & _ & Ht & _).
  rewrite (getWeather_caught _ _ _ _ Hb Hm). cbn [snd reported component
    service trace city loading txHash error]. repeat split; assumption.
Qed.

(** X9: when the value thrown in the try block is a rejection with
    [null] or [undefined], the catch block itself throws on reading
    [err["message"]], and so does [getWeather], with a TypeError; [error]
    keeps the value it had before the attempt, nothing is logged, and the
    finally block still sets [loading] to false. *)
Theorem getWeather_rethrows_nullish_rejection
    (m m1 : Machine E) (reason : jsval) :
  tryBlock (entered m) = (Throw (Rejection reason), m1) ->
  nullish reason = true ->
  getWeather m = (Throw TypeError, stopped m1)
  /\ error (component (snd (getWeather m))) = error (component m)
  /\ loading (component (snd (getWeather m))) = false
  /\ txHash (component (snd (getWeather m))) = VNull
  /\ trace (snd (getWeather m)) = trace m1.
Proof.
  intros Hb Hn. destruct (tryBlock_throws _ _ _ Hb) as (_ & _ & Ht & He).
  assert (Hm : messageOf (Rejection reason) = Throw TypeError).
  { destruct reason; try discriminate Hn; reflexivity. }
  rewrite (getWeather_uncaught _ _ _ _ Hb Hm). cbn [snd stopped component
    service trace city loading txHash error]. repeat split; assumption.
Qed.

(** X10: when the fetch fails with a value that has a message, the
    attempt ends with that message in [error] and no weather; the wallet
    is not asked anything, the trace growing by the fetch and the log
    only, and the service is untouched. *)
Theorem fetch_failure_reported
    (m : Machine E) (err : exn) (e1 : E) (message : jsval) :
  http_get (cityUrl m) (env m) = (Throw err, e1) ->
  messageOf err = Ok message ->
  getWeather m
  = (Ok tt,
     {| component :=
          {| city := city (component m);
             WeatherGeneratorComponent.weather := None;
             loading := false;
             txHash := VNull;
             error := message |};
        service := service m;
        env := e1;
        trace := trace m ++ [HttpGet (cityUrl m); ConsoleError err] |}).
Proof.
  intros Hf Hm.
  assert (Hb : tryBlock (entered m)
               = (Throw err, recorded (entered m) e1 (HttpGet (cityUrl m)))).
  { rewrite tryBlock_run, Hf. reflexivity. }
  rewrite (getWeather_caught _ _ _ _ Hb Hm). unfold reported.
  cbn [recorded entered component service env trace city loading txHash error
       WeatherGeneratorComponent.weather].
  rewrite <- app_assoc. reflexivity.
Qed.

(** X11: when the weather service answers with an empty list of
    conditions, reading [weather[0].description] throws a TypeError: the
    attempt ends with the message of that TypeError in [error], the
    response stored in [weather], and no request to the wallet. *)
Theorem empty_conditions_reported (m : Machine E) (w : Weather) (e1 : E) :
  http_get (cityUrl m) (env m) = (Ok w, e1) ->
  weather w = [] ->
  getWeather m
  = (Ok tt,
     {| component :=
          {| city := city (component m);
             WeatherGeneratorComponent.weather := Some w;
             loading := false;
             txHash := VNull;
             error := VString (engineMessage TypeError) |};
        service := service m;
        env := e1;
        trace := trace m ++ [HttpGet (cityUrl m); ConsoleError TypeError] |}).
Proof.
  intros Hf Hw.
  assert (Hb : tryBlock (entered m) = (Throw TypeError, loaded m w e1)).
  { rewrite tryBlock_run, Hf. unfold buildMetadata, weather0_description.
    rewrite Hw. reflexivity. }
  rewrite (getWeather_caught _ _ _ (VString (engineMessage TypeError)) Hb)
    by reflexivity.
  unfold reported.
  cbn [loaded component service env trace city loading txHash error
       WeatherGeneratorComponent.weather].
  rewrite <- app_assoc. reflexivity.
Qed.

(** X12: when the sub-account cannot be resolved (the discovery or the
    creation is rejected with a value that has a message), the attempt
    ends with that message in [error] and the weather stored; no batched
    call is made, and the service is as it was, with nothing cached. *)
Theorem resolution_failure_reported
    (m : Machine E) (w : Weather) (e1 : E) (metadata : NFT.Metadata)
    (tokenURI : jsstring) (m2 : Machine E) (err : exn) (message : jsval) :
  http_get (cityUrl m) (env m) = (Ok w, e1) ->
  buildMetadata w (Date_toLocaleString e1) = Ok metadata ->
  encodeTokenURI (NFT.toValue metadata) = Ok tokenURI ->
  ensureSubAccount (loaded m w e1) = (Throw err, m2) ->
  messageOf err = Ok message ->
  getWeather m
  = (Ok tt,
     {| component :=
          {| city := city (component m);
             WeatherGeneratorComponent.weather := Some w;
             loading := false;
             txHash := VNull;
             error := message |};
        service := service m;
        env := env m2;
        trace := trace m2 ++ [ConsoleError err] |})
  /\ subAccount (service m) = None
  /\ filter isBatchedCall (trace (snd (getWeather m)))
     = filter isBatchedCall (trace m).
Proof.
  intros Hf Hmeta Huri Hens Hm.
  assert (Hb : tryBlock (entered m) = (Throw err, m2)).
  { rewrite tryBlock_run, Hf, Hmeta, Huri, Hens. reflexivity. }
  pose proof (ensureSubAccount_run _ _ _ Hens) as Hrun.
  assert (Hg : getWeather m
               = (Ok tt,
                  {| component :=
                       {| city := city (component m);
                          WeatherGeneratorComponent.weather := Some w;
                          loading := false;
                          txHash := VNull;
                          error := message |};
                     service := service m;
                     env := env m2;
                     trace := trace m2 ++ [ConsoleError err] |})).
  { rewrite (getWeather_caught _ _ _ _ Hb Hm). unfold reported.
    rewrite (ensure_run_component _ _ _ Hrun).
    inversion Hrun; subst; reflexivity. }
  split; [exact Hg|]. split.
  - inversion Hrun; subst; assumption.
  - rewrite Hg. cbn [snd trace].
    destruct (ensure_run_trace _ _ _ Hrun) as [evs [-> Hevs]].
    cbn [trace loaded]. rewrite !filter_app.
    destruct Hevs as [-> | [-> | ->]]; cbn; now rewrite !app_nil_r.
Qed.

(** X13: when every step succeeds, the attempt ends with [txHash] set to
    the identifier extracted from what the wallet returned, the weather
    stored and [loading] false; [error] keeps whatever an earlier attempt
    left in it; the last request is the batched call, sent from the
    sub-account to the contract, with the call data that names the
    sub-account as recipient, and nothing is logged. *)
Theorem successful_attempt
    (m : Machine E) (w : Weather) (e1 : E) (metadata : NFT.Metadata)
    (tokenURI : jsstring) (sub : SubAccount) (m2 : Machine E)
    (result : jsval) (e3 : E) :
  http_get (cityUrl m) (env m) = (Ok w, e1) ->
  buildMetadata w (Date_toLocaleString e1) = Ok metadata ->
  encodeTokenURI (NFT.toValue metadata) = Ok tokenURI ->
  ensureSubAccount (loaded m w e1) = (Ok (Some sub), m2) ->
  provider_request
    (wallet_sendCalls
       (callsParam (address sub) CONTRACT_ADDRESS
                   (encodeMintCall (address sub) tokenURI) (js "0x0")))
    (env m2) = (Ok result, e3) ->
  exists id,
    txHashOf result = Ok id
    /\ getWeather m
       = (Ok tt,
          {| component :=
               {| city := city (component m);
                  WeatherGeneratorComponent.weather := Some w;
                  loading := false;
                  txHash := id;
                  error := error (component m) |};
             service := service m2;
             env := e3;
             trace :=
               trace m2
               ++ [Rpc (wallet_sendCalls
                          (callsParam (address sub) CONTRACT_ADDRESS
                             (encodeMintCall (address sub) tokenURI)
                             (js "0x0")))] |})
    /\ filter isConsoleError (trace (snd (getWeather m)))
       = filter isConsoleError (trace m).
Proof.
  intros Hf Hmeta Huri Hens Hsend. fold (mintCall sub tokenURI) in *.
  eexists. split; [apply txHashOf_picks|].
  pose proof (ensureSubAccount_run _ _ _ Hens) as Hrun.
  assert (Hb : tryBlock (entered m)
               = (Ok tt, minted m2 e3 (Rpc (mintCall sub tokenURI))
                           (match presentAndTruthy result (js "txHash") with
                            | Some id => id
                            | None =>
                                match presentAndTruthy result (js "hash") with
                                | Some id => id
                                | None => VNull
                                end
                            end))).
  { rewrite tryBlock_run, Hf, Hmeta, Huri, Hens, Hsend, txHashOf_picks.
    reflexivity. }
  rewrite (getWeather_completed _ _ Hb). unfold stopped, minted.
  cbn [component service env trace city loading txHash error
       WeatherGeneratorComponent.weather snd].
  rewrite (ensure_run_component _ _ _ Hrun).
  split; [reflexivity|].
  destruct (ensure_run_trace _ _ _ Hrun) as [evs [-> Hevs]].
  cbn [trace loaded]. rewrite !filter_app.
  destruct Hevs as [-> | [-> | ->]]; cbn; now rewrite !app_nil_r.
Qed.

(** What an attempt leaves, from what its try block leaves. *)
Lemma getWeather_finishes (m : Machine E) :
  let m1 := snd (tryBlock (entered m)) in
  let m' := snd (getWeather m) in
  loading (component m') = false
  /\ city (component m') = city (component m1)
  /\ txHash (component m') = txHash (component m1)
  /\ service m' = service m1
  /\ env m' = env m1
  /\ (trace m' = trace m1
      \/ exists err, fst (tryBlock (entered m)) = Throw err
                     /\ trace m' = trace m1 ++ [ConsoleError err]).
Proof.
  cbv zeta. rewrite getWeather_tryBlock. unfold tryFinally, tryCatch.
  destruct (tryBlock (entered m)) as [[[]|err] m1].
  - cbn. repeat split. now left.
  - unfold reportError, bind, lift.
    destruct (messageOf err) as [message|e'].
    + cbn. repeat split. right. eexists. split; reflexivity.
    + cbn. repeat split. now left.
Qed.

(** The requests of the try block. *)
Lemma tryBlock_requests (m : Machine E) :
  let m1 := snd (tryBlock (entered m)) in
  city (component m1) = city (component m)
  /\ universalAddress (service m1) = universalAddress (service m)
  /\ (forall sub, subAccount (service m) = Some sub -> service m1 = service m)
  /\ (fst (tryBlock (entered m)) = Ok tt \/ txHash (component m1) = VNull)
  /\ exists evs,
       trace m1 = trace m ++ HttpGet (cityUrl m) :: evs
       /\ forallb isRpc evs = true
       /\ (length (filter isBatchedCall evs) <= 1)%nat
       /\ (length (filter isDiscovery evs) <= 1)%nat
       /\ (length (filter isCreation evs) <= 1)%nat
       /\ filter isConnect evs = []
       /\ filter isSendTransaction evs = []
       /\ (fst (tryBlock (entered m)) = Ok tt ->
           length (filter isBatchedCall evs) = 1%nat).
Proof.
  cbv zeta. rewrite tryBlock_run.
  destruct (http_get (cityUrl m) (env m)) as [[w|e] e1].
  2:{ cbn. repeat split; auto. exists []. repeat split; auto. discriminate. }
  destruct (buildMetadata w (Date_toLocaleString e1)) as [metadata|e].
  2:{ cbn. repeat split; auto. exists []. repeat split; auto. discriminate. }
  destruct (encodeTokenURI (NFT.toValue metadata)) as [tokenURI|e].
  2:{ cbn. repeat split; auto. exists []. repeat split; auto. discriminate. }
  destruct (ensureSubAccount (loaded m w e1)) as [r m2] eqn:Hens.
  pose proof (ensureSubAccount_run _ _ _ Hens) as Hrun.
  pose proof (ensure_run_component _ _ _ Hrun) as Hcomp.
  pose proof (ensure_run_universalAddress _ _ _ Hrun) as Hua.
  assert (Hkeep : forall sub, subAccount (service m) = Some sub ->
                              service m2 = service m).
  { intros sub Hs.
    assert (Hl : subAccount (service (loaded m w e1)) = Some sub) by exact Hs.
    destruct (ensure_run_keeps_cache _ _ _ _ Hl Hrun) as [_ ->].
    reflexivity. }
  destruct (ensure_run_trace _ _ _ Hrun) as [evs [Ht Hevs]].
  cbn [trace loaded] in Ht. rewrite <- app_assoc in Ht. cbn [app] in Ht.
  destruct r as [[sub|]|e].
  - destruct (provider_request (mintCall sub tokenURI) (env m2))
      as [[result|e] e3].
    + rewrite txHashOf_picks.
      cbn [fst snd minted recorded component service trace city txHash].
      rewrite Hcomp, Hua, Ht. repeat split; auto.
      exists (evs ++ [Rpc (mintCall sub tokenURI)]).
      rewrite <- app_assoc. split; [reflexivity|].
      destruct Hevs as [-> | [-> | ->]]; cbn; repeat split; auto.
    + cbn [fst snd minted recorded component service trace city txHash].
      rewrite Hcomp, Hua, Ht. repeat split; auto.
      exists (evs ++ [Rpc (mintCall sub tokenURI)]).
      rewrite <- app_assoc. split; [reflexivity|].
      destruct Hevs as [-> | [-> | ->]]; cbn; repeat split; auto;
        discriminate.
  - cbn [fst snd]. rewrite Hcomp, Hua, Ht. repeat split; auto.
    exists evs. split; [reflexivity|].
    destruct Hevs as [-> | [-> | ->]]; cbn; repeat split; auto; discriminate.
  - cbn [fst snd]. rewrite Hcomp, Hua, Ht. repeat split; auto.
    exists evs. split; [reflexivity|].
    destruct Hevs as [-> | [-> | ->]]; cbn; repeat split; auto; discriminate.
Qed.

(** X14: whatever the outside answers, and whether [getWeather] returns
    or throws, it leaves [loading] false, the city and the primary address
    of the service as they were, a sub-account cached before the attempt
    in place with the service untouched, and a [txHash] that is null
    unless the attempt sent a batched call and returned. *)
Theorem getWeather_invariants (m : Machine E) :
  let m' := snd (getWeather m) in
  loading (component m') = false
  /\ city (component m') = city (component m)
  /\ universalAddress (service m') = universalAddress (service m)
  /\ (forall sub, subAccount (service m) = Some sub -> service m' = service m)
  /\ (txHash (component m') <> VNull ->
      exists evs ev,
        trace m' = trace m ++ evs
        /\ In ev evs /\ isBatchedCall ev = true
        /\ fst (getWeather m) = Ok tt).
Proof.
  cbv zeta.
  destruct (getWeather_finishes m) as (Hl & Hc & Ht & Hs & _ & Htr).
  destruct (tryBlock_requests m)
    as (Hc1 & Hu1 & Hk1 & Hok & evs & Hevs & _ & Hb & _ & _ & _ & _ & Hone).
  split; [exact Hl|]. split; [congruence|]. split; [congruence|].
  split; [intros sub Hsub; rewrite Hs; now apply (Hk1 sub)|].
  intros Hnn. rewrite Ht in Hnn.
  destruct Hok as [Hok|Hnull]; [|contradiction].
  specialize (Hone Hok).
  assert (Hin : exists ev, isBatchedCall ev = true /\ In ev evs).
  { destruct (filter isBatchedCall evs) as [|ev l] eqn:Hf; [discriminate|].
    exists ev. assert (Hi : In ev (filter isBatchedCall evs))
      by (rewrite Hf; now left).
    apply filter_In in Hi. tauto. }
  destruct Hin as [ev [Hev Hi]]. exists (HttpGet (cityUrl m) :: evs), ev.
  split; [|split; [now right|split; [exact Hev|]]].
  - destruct Htr as [-> | [err [Herr _]]]; [exact Hevs|congruence].
  - rewrite getWeather_tryBlock. unfold tryFinally, tryCatch.
    destruct (tryBlock (entered m)) as [[[]|err] m1]; [reflexivity|].
    discriminate Hok.
Qed.

(** X15: an attempt makes exactly one fetch, the first thing it does, and
    after it at most one discovery, one creation and one batched call; it
    never asks for the accounts and never sends a plain transaction; it
    logs at most one error, as the last event. *)
Theorem getWeather_requests (m : Machine E) :
  exists rpcs logs,
    trace (snd (getWeather m))
    = trace m ++ HttpGet (cityUrl m) :: rpcs ++ logs
    /\ forallb isRpc rpcs = true
    /\ (length (filter isDiscovery rpcs) <= 1)%nat
    /\ (length (filter isCreation rpcs) <= 1)%nat
    /\ (length (filter isBatchedCall rpcs) <= 1)%nat
    /\ filter isConnect rpcs = []
    /\ filter isSendTransaction rpcs = []
    /\ (logs = [] \/ exists err, logs = [ConsoleError err]).
Proof.
  destruct (getWeather_finishes m) as (_ & _ & _ & _ & _ & Htr).
  destruct (tryBlock_requests m)
    as (_ & _ & _ & _ & evs & Hevs & Hr & Hb & Hd & Hc & Hcon & Hst & _).
  destruct Htr as [Htr | [err [_ Htr]]].
  - exists evs, []. rewrite app_nil_r, Htr, Hevs. repeat split; auto.
  - exists evs, [ConsoleError err]. rewrite Htr, Hevs, <- app_assoc.
    repeat split; eauto.
Qed.

End AttemptTheorems.

(** ** The city *)

Lemma trimStart_blank s : forallb isWhiteSpace s = true -> trimStart s = [].
Proof.
  induction s as [|c s IH]; [reflexivity|]. cbn [forallb trimStart].
  intros H. apply andb_true_iff in H as [-> Hs]. now apply IH.
Qed.

Lemma trimStart_app_blank a s :
  forallb isWhiteSpace a = true -> trimStart (a ++ s) = trimStart s.
Proof.
  induction a as [|c a IH]; [reflexivity|]. cbn [forallb trimStart app].
  intros H. apply andb_true_iff in H as [-> Ha]. now apply IH.
Qed.

Lemma trim_blank s : forallb isWhiteSpace s = true -> trim s = [].
Proof. intros H. unfold trim. now rewrite (trimStart_blank s H). Qed.

Lemma forallb_rev {A} (f : A -> bool) l : forallb f (rev l) = forallb f l.
Proof.
  induction l as [|x l IH]; [reflexivity|].
  cbn [rev forallb]. rewrite forallb_app, IH. cbn. rewrite andb_true_r.
  apply andb_comm.
Qed.

(** Trimming takes the white space off both ends and nothing else. *)
Lemma trim_core a b c mid z :
  forallb isWhiteSpace a = true -> forallb isWhiteSpace b = true ->
  isWhiteSpace c = false -> isWhiteSpace z = false ->
  trim (a ++ [c] ++ b) = [c]
  /\ trim (a ++ (c :: mid ++ [z]) ++ b) = c :: mid ++ [z].
Proof.
  intros Ha Hb Hc Hz. unfold trim. split.
  - rewrite (trimStart_app_blank a _ Ha). cbn [app trimStart]. rewrite Hc.
    change (c :: b) with ([c] ++ b). rewrite rev_app_distr.
    rewrite trimStart_app_blank by now rewrite forallb_rev.
    cbn [rev app trimStart]. now rewrite Hc.
  - rewrite (trimStart_app_blank a _ Ha). cbn [app trimStart]. rewrite Hc.
    change (c :: (mid ++ [z]) ++ b) with ((c :: mid ++ [z]) ++ b).
    rewrite rev_app_distr.
    rewrite trimStart_app_blank by now rewrite forallb_rev.
    change (c :: mid ++ [z]) with ((c :: mid) ++ [z]) at 1.
    rewrite rev_app_distr.
    change (rev [z] ++ rev (c :: mid)) with (z :: rev (c :: mid)).
    cbn [trimStart]. rewrite Hz.
    change (rev (z :: rev (c :: mid))) with (rev (rev (c :: mid)) ++ [z]).
    now rewrite rev_involutive.
Qed.

Section CityTheorems.

Context {E : Type} {W : World E}.

Local Open Scope machine_scope.

(** X16: with a city of white space only (spaces, tabs, line breaks, the
    no-break space), as with the empty one, the fetch of [getWeather] asks
    for Washington. *)
Theorem blank_city_fetches_Washington (m : Machine E) :
  forallb isWhiteSpace (city (component m)) = true ->
  exists evs,
    trace (snd (getWeather m))
    = trace m
      ++ HttpGet (js "https://api.openweathermap.org/data/2.5/weather?q=Washington&appid="
                    ++ openWeatherApiKey ++ js "&units=metric")
      :: evs.
Proof.
  intros Hcity. destruct (getWeather_fetches_first m) as [evs Hevs].
  exists evs. rewrite Hevs. unfold cityUrl. rewrite (trim_blank _ Hcity).
  reflexivity.
Qed.

(** X17: a city with something else than white space in it is fetched
    without the white space around it and otherwise as typed: the text
    between its first and its last character that is not white space goes
    into the URL unescaped, inner spaces and the characters [&], [#] and
    [=] included. *)
Theorem city_is_trimmed_not_escaped
    (m : Machine E) (a b core : jsstring) (c z : N) (mid : jsstring) :
  city (component m) = a ++ core ++ b ->
  core = [c] \/ core = c :: mid ++ [z] ->
  forallb isWhiteSpace a = true -> forallb isWhiteSpace b = true ->
  isWhiteSpace c = false -> isWhiteSpace z = false ->
  exists evs,
    trace (snd (getWeather m))
    = trace m
      ++ HttpGet (js "https://api.openweathermap.org/data/2.5/weather?q="
                    ++ core ++ js "&appid=" ++ openWeatherApiKey
                    ++ js "&units=metric")
      :: evs.
Proof.
  intros Hcity Hcore Ha Hb Hc Hz.
  destruct (getWeather_fetches_first m) as [evs Hevs].
  exists evs. rewrite Hevs. unfold cityUrl. rewrite Hcity.
  destruct (trim_core a b c mid z Ha Hb Hc Hz) as [H1 H2].
  destruct Hcore as [-> | ->]; [rewrite H1 | rewrite H2]; reflexivity.
Qed.

(** ** The link to the explorer *)

Lemma getBaseScanLink_run (m : Machine E) :
  getBaseScanLink m
  = (Ok (if truthy (txHash (component m))
         then js "https://sepolia.basescan.org/tx/" ++ ToString (txHash (component m))
         else []), m).
Proof. reflexivity. Qed.


(** X19: after an attempt that failed and was caught, the link is empty,
    whatever transaction an earlier attempt had left in [txHash]. *)
Theorem link_empty_after_failure
    (m m1 : Machine E) (err : exn) (message : jsval) :
  tryBlock (entered m) = (Throw err, m1) ->
  messageOf err = Ok message ->
  (getWeather ;; getBaseScanLink) m = (Ok [], reported m1 message err).
Proof.
  intros Hb Hm. destruct (tryBlock_throws _ _ _ Hb) as (_ & _ & Ht & _).
  unfold bind at 1. rewrite (getWeather_caught _ _ _ _ Hb Hm).
  rewrite getBaseScanLink_run. cbn [reported component txHash].
  now rewrite Ht.
Qed.

(** X20: after an attempt in which the wallet returned an object whose
    [hash] is a non-empty string and which has no [txHash], the link is
    the address of the transaction page followed by that hash. *)
Theorem link_after_success
    (m : Machine E) (w : Weather) (e1 : E) (metadata : NFT.Metadata)
    (tokenURI : jsstring) (sub : SubAccount) (m2 : Machine E)
    (members : list (jsstring * jsval)) (h : jsstring) (e3 : E) :
  http_get (cityUrl m) (env m) = (Ok w, e1) ->
  buildMetadata w (Date_toLocaleString e1) = Ok metadata ->
  encodeTokenURI (NFT.toValue metadata) = Ok tokenURI ->
  ensureSubAccount (loaded m w e1) = (Ok (Some sub), m2) ->
  provider_request (mintCall sub tokenURI) (env m2)
  = (Ok (VObject members), e3) ->
  lookup (js "txHash") members = None ->
  lookup (js "hash") members = Some (VString h) ->
  h <> [] ->
  fst ((getWeather ;; getBaseScanLink) m)
  = Ok (js "https://sepolia.basescan.org/tx/" ++ h).
Proof.
  intros Hf Hmeta Huri Hens Hsend Ht Hh Hne.
  assert (Hb : tryBlock (entered m)
               = (Ok tt, minted m2 e3 (Rpc (mintCall sub tokenURI))
                           (VString h))).
  { rewrite tryBlock_run, Hf, Hmeta, Huri, Hens, Hsend, txHashOf_picks.
    unfold presentAndTruthy. rewrite Ht, Hh.
    destruct h; [contradiction|reflexivity]. }
  unfold bind at 1. rewrite (getWeather_completed _ _ Hb).
  rewrite getBaseScanLink_run. cbn [stopped minted component txHash fst].
  destruct h; [contradiction|reflexivity].
Qed.

End CityTheorems.

(** ** The call encoder beyond ASCII *)

Lemma forallb_repeat {A} (f : A -> bool) x n :
  f x = true -> forallb f (repeat x n) = true.
Proof. intros H. induction n; cbn; [reflexivity|now rewrite H]. Qed.

(** Without a high surrogate, every code unit is an element of its own. *)
Lemma Array_from_units s :
  forallb (fun c => c <? 55296) s = true ->
  Array_from s = map (fun c => [c]) s.
Proof.
  induction s as [|c s IH]; intros H; [reflexivity|].
  cbn [forallb] in H. apply andb_true_iff in H as [Hc Hs].
  cbn [Array_from map]. destruct s as [|d s']; [reflexivity|].
  assert (isHighSurrogate c = false) as ->.
  { unfold isHighSurrogate. apply N.ltb_lt in Hc.
    apply andb_false_iff. left. apply N.leb_gt. lia. }
  cbn [andb]. f_equal. now apply IH.
Qed.

Lemma tokenURIHex_units s :
  forallb (fun c => c <? 55296) s = true ->
  tokenURIHex s
  = flat_map (fun c => padStart 2 (js "0") (toStringRadix 16 c)) s.
Proof.
  intros H. unfold tokenURIHex. rewrite (Array_from_units s H), map_map.
  cbn [charCodeAt0 charCode_toString16]. now rewrite flat_map_concat_map.
Qed.

Lemma tokenURIHex_app a b :
  forallb (fun c => c <? 55296) a = true ->
  forallb (fun c => c <? 55296) b = true ->
  tokenURIHex (a ++ b) = tokenURIHex a ++ tokenURIHex b.
Proof.
  intros Ha Hb. rewrite !tokenURIHex_units; try assumption.
  - apply flat_map_app.
  - rewrite forallb_app, Ha, Hb. reflexivity.
Qed.

Lemma hexValue_bound c d : hexValue c = Some d -> d < 16.
Proof.
  unfold hexValue.
  destruct ((48 <=? c) && (c <=? 57)) eqn:H1.
  { apply andb_true_iff in H1 as [H1 H2]. apply N.leb_le in H1, H2.
    intros [= <-]. lia. }
  destruct ((97 <=? c) && (c <=? 102)) eqn:H2.
  { apply andb_true_iff in H2 as [H2 H3]. apply N.leb_le in H2, H3.
    intros [= <-]. lia. }
  destruct ((65 <=? c) && (c <=? 70)) eqn:H3; [|discriminate].
  apply andb_true_iff in H3 as [H3 H4]. apply N.leb_le in H3, H4.
  intros [= <-]. lia.
Qed.

(** The two hex characters of a byte. *)
Lemma hexPair_byte c :
  c < 256 ->
  exists h l a b,
    padStart 2 (js "0") (toStringRadix 16 c) = [h; l]
    /\ hexValue h = Some a /\ hexValue l = Some b /\ a * 16 + b = c.
Proof.
  intros Hc.
  assert (Hl : (1 <= length (toStringRadix 16 c) <= 2)%nat).
  { apply toString16_length. change (16 ^ N.of_nat 2) with 256. lia. }
  pose proof (toString16_value c) as Hv.
  change (js "0") with [48]. rewrite padStart_single.
  destruct (toStringRadix 16 c) as [|x [|y [|z t]]]; cbn [length] in Hl;
    try lia.
  - cbn [length Nat.sub repeat app]. exists 48, x.
    cbn [hexAcc] in Hv. destruct (hexValue x) as [d|]; [|discriminate].
    injection Hv as Hv. exists 0, d. repeat split. lia.
  - cbn [length Nat.sub repeat app]. exists x, y.
    cbn [hexAcc] in Hv. destruct (hexValue x) as [a|]; [|discriminate].
    destruct (hexValue y) as [b|]; [|discriminate].
    injection Hv as Hv. exists a, b. repeat split. lia.
Qed.

Lemma tokenURIHex_latin1 s :
  isLatin1 s = true ->
  length (tokenURIHex s) = (2 * length s)%nat
  /\ hexBytes (tokenURIHex s) = Some s
  /\ forallb isHexDigitChar (tokenURIHex s) = true.
Proof.
  intros H.
  assert (Hu : forallb (fun c => c <? 55296) s = true).
  { unfold isLatin1 in H. rewrite forallb_forall in H.
    apply forallb_forall. intros c Hc. specialize (H c Hc).
    apply N.ltb_lt in H. apply N.ltb_lt. lia. }
  rewrite (tokenURIHex_units s Hu). clear Hu.
  induction s as [|c s IH]; [repeat split|].
  cbn [isLatin1 forallb] in H. apply andb_true_iff in H as [Hc Hs].
  destruct (IH Hs) as (IHl & IHb & IHh).
  apply N.ltb_lt in Hc.
  destruct (hexPair_byte c Hc) as (h & l & a & b & Hp & Hh & Hlo & Hab).
  cbn [flat_map]. rewrite Hp. cbn [app length hexBytes forallb].
  rewrite Hh, Hlo, IHb, IHl, IHh. unfold isHexDigitChar. rewrite Hh, Hlo.
  repeat split; [lia | now rewrite Hab].
Qed.

(** The encoded call when the hex text has two characters for each of [n]
    elements. *)
Lemma encodeMintCall_even (to uri : jsstring) (n : nat) :
  length (tokenURIHex uri) = (2 * n)%nat ->
  encodeMintCall to uri
  = js "0x40c10f19"
    ++ padStart 64 (js "0") (String_replace (js "0x") [] to)
    ++ offset
    ++ padStart 64 (js "0") (half_toString16 (N.of_nat n, false))
    ++ padEnd (ceil64 (2 * n)) (js "0") (tokenURIHex uri).
Proof.
  intros Hl. unfold encodeMintCall. rewrite Hl, Number_half_even.
  reflexivity.
Qed.

Lemma padded_address to :
  isAddress to = true ->
  padStart 64 (js "0") (String_replace (js "0x") [] to)
  = repeat 48 24 ++ String_replace (js "0x") [] to
  /\ length (String_replace (js "0x") [] to) = 40%nat.
Proof.
  intros H. destruct (isAddress_stripped to H) as [Hl _].
  change (js "0") with [48]. rewrite padStart_single, Hl. now split.
Qed.

Lemma decodeMintCall_layout (stripped L hex : jsstring) (n k : nat) :
  length stripped = 40%nat ->
  length L = 64%nat ->
  bigEndian L = Some (N.of_nat n) ->
  length hex = (2 * n)%nat ->
  decodeMintCall
    (js "0x40c10f19" ++ (repeat 48 24 ++ stripped) ++ offset ++ L
       ++ hex ++ repeat 48 k)
  = match hexBytes hex with
    | Some bytes => Some (stripped, bytes)
    | None => None
    end.
Proof.
  intros Hs HL Hv Hh. unfold decodeMintCall. cbv zeta.
  rewrite startsWith_app, skipn_exact by reflexivity.
  unfold argumentWord.
  change (64 * 0)%nat with 0%nat. change (64 * 1)%nat with 64%nat.
  rewrite skipn_O.
  assert (HA : length (repeat 48 24 ++ stripped) = 64%nat)
    by (rewrite length_app, repeat_length, Hs; reflexivity).
  rewrite (firstn_exact _ _ 64 HA).
  rewrite (firstn_exact _ _ 24) by apply repeat_length.
  rewrite (skipn_exact (repeat 48 24) stripped 24) by apply repeat_length.
  replace (jsstring_eqb (repeat 48 24) (repeat 48 24)) with true
    by reflexivity.
  rewrite (skipn_exact _ _ 64 HA).
  rewrite (firstn_exact offset _ 64) by reflexivity.
  replace (bigEndian offset) with (Some 64) by reflexivity.
  change (2 * N.to_nat 64)%nat with 128%nat.
  rewrite (app_assoc (repeat 48 24 ++ stripped) offset).
  rewrite skipn_exact by (rewrite length_app, HA; reflexivity).
  rewrite (firstn_exact L _ 64 HL), Hv, (skipn_exact L _ 64 HL).
  rewrite Nat2N.id, (firstn_exact hex _ (2 * n) Hh).
  reflexivity.
Qed.


Lemma utf8Encode_latin1_length s :
  isLatin1 s = true ->
  (length s <= length (utf8Encode s))%nat
  /\ (isAscii s = false -> (length s < length (utf8Encode s))%nat).
Proof.
  induction s as [|c s IH]; intros H.
  - split; [reflexivity|discriminate].
  - cbn [isLatin1 forallb] in H. apply andb_true_iff in H as [Hc Hs].
    destruct (IH Hs) as [IH1 IH2]. apply N.ltb_lt in Hc.
    cbn [utf8Encode].
    assert (isHighSurrogate c = false) as ->.
    { unfold isHighSurrogate. apply andb_false_iff. left.
      apply N.leb_gt. lia. }
    assert (isLowSurrogate c = false) as ->.
    { unfold isLowSurrogate. apply andb_false_iff. left.
      apply N.leb_gt. lia. }
    rewrite length_app. cbn [isAscii forallb length]. unfold isAsciiUnit.
    unfold utf8Octets. destruct (N.ltb_spec c 128) as [Hlt|Hge].
    + cbn [length andb]. split; [lia|]. intros Hn. specialize (IH2 Hn). lia.
    + assert ((c <? 2048) = true) as -> by (apply N.ltb_lt; lia).
      cbn [length andb]. split; [lia|]. intros _. lia.
Qed.

Lemma lengthField_even (to uri : jsstring) (n : nat) :
  isAddress to = true ->
  length (tokenURIHex uri) = (2 * n)%nat ->
  lengthField (encodeMintCall to uri)
  = firstn 64 (padStart 64 (js "0") (half_toString16 (N.of_nat n, false))
               ++ padEnd (ceil64 (2 * n)) (js "0") (tokenURIHex uri)).
Proof.
  intros Hto Hlen. destruct (padded_address to Hto) as [HA Hs].
  rewrite (encodeMintCall_even to uri n Hlen), HA.
  unfold lengthField, bytesAt, hexText.
  change (js "0x40c10f19") with (js "0x" ++ js "40c10f19").
  rewrite <- app_assoc, (skipn_exact (js "0x")) by reflexivity.
  rewrite (app_assoc (repeat 48 24 ++ _) offset), (app_assoc (js "40c10f19")).
  rewrite skipn_exact; [reflexivity|].
  rewrite !length_app, repeat_length, Hs. reflexivity.
Qed.

(** X22: for a text of code units below 256 that is not ASCII (an
    accented Latin letter is enough), the length word counts the code
    units and the data holds one byte for each: fewer bytes than the
    UTF-8 encoding of the text has, so that what the reader gets is not
    that encoding. *)
Theorem encodeMintCall_latin1_not_utf8 (to uri : jsstring) :
  isAddress to = true ->
  isLatin1 uri = true ->
  isAscii uri = false ->
  2 * N.of_nat (length uri) <= maxStringLength ->
  bigEndian (lengthField (encodeMintCall to uri)) = Some (N.of_nat (length uri))
  /\ (length uri < length (utf8Encode uri))%nat
  /\ decodeMintCall (encodeMintCall to uri)
     <> Some (String_replace (js "0x") [] to, utf8Encode uri).
Proof.
  intros Hto Hl Hna Hmax.
  destruct (tokenURIHex_latin1 uri Hl) as (Hlen & Hbytes & _).
  destruct (padded_address to Hto) as [HA Hs].
  destruct (lenPadded_word (length uri) (stringLimit_word _ Hmax))
    as (HL1 & HL2 & _).
  destruct (utf8Encode_latin1_length uri Hl) as [_ Hlt].
  specialize (Hlt Hna).
  split; [|split; [exact Hlt|]].
  - rewrite (lengthField_even to uri (length uri) Hto Hlen).
    now rewrite (firstn_exact _ _ 64 HL1).
  - rewrite (encodeMintCall_even to uri (length uri) Hlen), HA.
    change (js "0") with [48] at 2. rewrite padEnd_single.
    rewrite (decodeMintCall_layout _ _ _ (length uri) _ Hs HL1 HL2 Hlen).
    rewrite Hbytes. intros [= Heq]. rewrite <- Heq in Hlt. lia.
Qed.

(** A hex text of [k] digits reads below [16 ^ k]. *)
Lemma hexAcc_bound s acc n :
  hexAcc acc s = Some n -> n < (acc + 1) * 16 ^ N.of_nat (length s).
Proof.
  revert acc. induction s as [|c s IH]; intros acc H.
  - cbn in H. injection H as <-. cbn. lia.
  - cbn [hexAcc] in H. destruct (hexValue c) as [d|] eqn:Hd; [|discriminate].
    apply hexValue_bound in Hd. apply IH in H.
    cbn [length]. rewrite Nat2N.inj_succ, N.pow_succ_r'.
    assert (0 < 16 ^ N.of_nat (length s)) by (apply N.neq_0_lt_0, N.pow_nonzero; lia).
    nia.
Qed.

(** A code unit from 256 to 4095 has three hex digits. *)
Lemma hexTriple c :
  256 <= c < 4096 ->
  length (padStart 2 (js "0") (toStringRadix 16 c)) = 3%nat.
Proof.
  intros Hc.
  assert (Hl : (1 <= length (toStringRadix 16 c) <= 3)%nat).
  { apply toString16_length. change (16 ^ N.of_nat 3) with 4096. lia. }
  pose proof (hexAcc_bound _ _ _ (toString16_value c)) as Hb.
  change (js "0") with [48]. rewrite padStart_length.
  destruct (toStringRadix 16 c) as [|x [|y [|z t]]]; cbn [length] in *;
    lia.
Qed.

Lemma isAscii_units s :
  isAscii s = true -> forallb (fun c => c <? 55296) s = true.
Proof.
  intros H. unfold isAscii in H. rewrite forallb_forall in H.
  apply forallb_forall. intros c Hc. specialize (H c Hc).
  unfold isAsciiUnit in H. apply N.ltb_lt in H. apply N.ltb_lt. lia.
Qed.

Lemma hexAcc_dot acc a b : hexAcc acc (a ++ 46 :: b) = None.
Proof.
  rewrite hexAcc_app. destruct (hexAcc acc a); reflexivity.
Qed.

(** X23: one code unit from 256 to 4095 (a Greek or a Cyrillic letter)
    in a text otherwise ASCII gives three hex digits where every other
    character gives two: the hex text has an odd number of digits, its
    half is not an integer, and the length word, which ends in [.8], is
    not hex text; the reader rejects the call. *)
Theorem encodeMintCall_odd_hex_text (to a b : jsstring) (c : N) :
  isAddress to = true ->
  isAscii a = true -> isAscii b = true ->
  256 <= c < 4096 ->
  2 * N.of_nat (length (a ++ [c] ++ b)) <= maxStringLength ->
  let out := encodeMintCall to (a ++ [c] ++ b) in
  Nat.odd (length (tokenURIHex (a ++ [c] ++ b))) = true
  /\ skipn 62 (lengthField out) = js ".8"
  /\ bigEndian (lengthField out) = None
  /\ decodeMintCall out = None.
Proof.
  intros Hto Ha Hb Hc Hmax out.
  destruct (padded_address to Hto) as [HA Hs].
  destruct (tokenURIHex_ascii a Ha) as [Hla _].
  destruct (tokenURIHex_ascii b Hb) as [Hlb _].
  assert (Hcu : forallb (fun c => c <? 55296) [c] = true).
  { cbn. rewrite andb_true_r. apply N.ltb_lt. lia. }
  assert (Hlen : length (tokenURIHex (a ++ [c] ++ b))
                 = (2 * (length a + 1 + length b) + 1)%nat).
  { rewrite !tokenURIHex_app; auto using isAscii_units.
    2:{ rewrite forallb_app, Hcu. now rewrite (isAscii_units b Hb). }
    rewrite !length_app, Hla, Hlb.
    rewrite (tokenURIHex_units [c] Hcu). cbn [flat_map].
    rewrite app_nil_r, (hexTriple c Hc). lia. }
  set (k := (length a + 1 + length b)%nat) in *.
  assert (Hhalf : Number_half (2 * k + 1) = (N.of_nat k, true)).
  { unfold Number_half. f_equal.
    - rewrite Nat2N.inj_add, Nat2N.inj_mul.
      change (N.of_nat 2) with 2. change (N.of_nat 1) with 1.
      generalize (N.of_nat k). intros x. lia.
    - rewrite Nat2N.inj_add, Nat2N.inj_mul.
      change (N.of_nat 2) with 2. change (N.of_nat 1) with 1.
      rewrite N.add_comm. apply N.odd_add_mul_2. }
  assert (Hk : N.of_nat k < 16 ^ 60).
  { subst k. rewrite !length_app in Hmax. cbn [length] in Hmax.
    unfold maxStringLength in Hmax.
    assert (2 ^ 53 < 16 ^ 60) by (vm_compute; reflexivity). lia. }
  assert (Hkl : (1 <= length (toStringRadix 16 (N.of_nat k)) <= 60)%nat).
  { apply (toString16_length _ 59). exact Hk. }
  set (L := padStart 64 (js "0") (half_toString16 (N.of_nat k, true))).
  assert (HL : L = (repeat 48 (62 - length (toStringRadix 16 (N.of_nat k)))
                      ++ toStringRadix 16 (N.of_nat k)) ++ js ".8").
  { subst L. change (js "0") with [48]. rewrite padStart_single.
    unfold half_toString16. cbn [fst snd]. rewrite length_app.
    change (length (js ".8")) with 2%nat.
    replace (64 - (length (toStringRadix 16 (N.of_nat k)) + 2))%nat
      with (62 - length (toStringRadix 16 (N.of_nat k)))%nat by lia.
    now rewrite app_assoc. }
  assert (HLl : length L = 64%nat).
  { rewrite HL, !length_app, repeat_length. change (length (js ".8")) with 2%nat.
    lia. }
  assert (Hout : out = js "0x40c10f19" ++ (repeat 48 24 ++ String_replace (js "0x") [] to)
                         ++ offset ++ L
                         ++ padEnd (ceil64 (2 * k + 1)) (js "0")
                              (tokenURIHex (a ++ [c] ++ b))).
  { subst out. unfold encodeMintCall. rewrite Hlen, Hhalf, HA. reflexivity. }
  assert (Hf : lengthField out = L).
  { rewrite Hout. unfold lengthField, bytesAt, hexText.
    change (js "0x40c10f19") with (js "0x" ++ js "40c10f19").
    rewrite <- app_assoc, (skipn_exact (js "0x")) by reflexivity.
    rewrite (app_assoc (repeat 48 24 ++ _) offset), (app_assoc (js "40c10f19")).
    rewrite skipn_exact
      by (rewrite !length_app, repeat_length, Hs; reflexivity).
    now apply firstn_exact. }
  assert (Hnone : bigEndian L = None).
  { rewrite HL. unfold bigEndian. change (js ".8") with (46 :: [56]).
    destruct (_ ++ 46 :: [56]) eqn:Heq.
    - apply (f_equal (@length _)) in Heq. rewrite length_app in Heq.
      cbn [length] in Heq. lia.
    - rewrite <- Heq. apply hexAcc_dot. }
  split; [|split; [|split]].
  - rewrite Hlen. rewrite Nat.add_comm. apply Nat.odd_add_mul_2.
  - rewrite Hf, HL. apply skipn_exact. rewrite length_app, repeat_length. lia.
  - now rewrite Hf.
  - rewrite Hout. unfold decodeMintCall. cbv zeta.
    rewrite startsWith_app, skipn_exact by reflexivity.
    unfold argumentWord.
    change (64 * 0)%nat with 0%nat. change (64 * 1)%nat with 64%nat.
    rewrite skipn_O.
    assert (HA' : length (repeat 48 24 ++ String_replace (js "0x") [] to)
                  = 64%nat)
      by (rewrite length_app, repeat_length, Hs; reflexivity).
    rewrite (firstn_exact _ _ 64 HA').
    rewrite (firstn_exact _ _ 24) by apply repeat_length.
    replace (jsstring_eqb (repeat 48 24) (repeat 48 24)) with true
      by reflexivity.
    rewrite (skipn_exact _ _ 64 HA').
    rewrite (firstn_exact offset _ 64) by reflexivity.
    replace (bigEndian offset) with (Some 64) by reflexivity.
    change (2 * N.to_nat 64)%nat with 128%nat.
    rewrite (app_assoc (repeat 48 24 ++ _) offset).
    rewrite skipn_exact by (rewrite length_app, HA'; reflexivity).
    rewrite (firstn_exact L _ 64 HLl), Hnone. reflexivity.
Qed.

(** ** The call encoder on any text *)

Lemma ceil64_bounds h : (h <= ceil64 h)%nat /\ (ceil64 h mod 64 = 0)%nat.
Proof.
  unfold ceil64, ceilDiv. cbn [Nat.sub]. split.
  - pose proof (Nat.div_mod_eq (h + 63) 64).
    pose proof (Nat.mod_upper_bound (h + 63) 64 ltac:(lia)). lia.
  - apply Nat.Div0.mod_mul.
Qed.

(** At most four hex digits for each code unit. *)
Lemma tokenURIHex_length s :
  wfString s -> (length (tokenURIHex s) <= 4 * length s)%nat.
Proof.
  assert (Hp : forall c, codeUnit c ->
            (length (padStart 2 (js "0") (toStringRadix 16 c)) <= 4)%nat).
  { intros c Hc. unfold codeUnit in Hc.
    assert (Hl : (1 <= length (toStringRadix 16 c) <= 4)%nat).
    { apply toString16_length. change (16 ^ N.of_nat 4) with 65536. lia. }
    change (js "0") with [48]. rewrite padStart_length. lia. }
  unfold tokenURIHex.
  induction s as [| a | a b l IH1 IH2] using list_ind2; intros Hwf.
  - cbn. lia.
  - inversion Hwf; subst. cbn [Array_from map concat charCodeAt0
      charCode_toString16]. rewrite app_nil_r. specialize (Hp a H1).
    cbn [length]. lia.
  - inversion Hwf as [|? ? Ha Hbl]; subst. inversion Hbl as [|? ? Hb Hl]; subst.
    change (Array_from (a :: b :: l))
      with (if isHighSurrogate a && isLowSurrogate b
            then [a; b] :: Array_from l
            else [a] :: Array_from (b :: l)).
    destruct (isHighSurrogate a && isLowSurrogate b).
    + cbn [map concat charCodeAt0 charCode_toString16].
      rewrite length_app. specialize (IH1 Hl). specialize (Hp a Ha).
      cbn [length]. lia.
    + cbn [map concat charCodeAt0 charCode_toString16].
      rewrite length_app. specialize (IH2 Hbl). specialize (Hp a Ha).
      cbn [length] in *. lia.
Qed.

(** X24: the encoder takes any address text and any text of code units:
    it validates nothing and never throws.  The result starts with the
    selector; its length is 10 for [0x] and the selector, 64 or, when the
    address text without [0x] is longer than that, its length, 128 for the
    offset and the length words, and the length of the hex text of the
    URI rounded up to a multiple of 64.  An over-long address text is thus
    not cut to its field: it moves everything after it. *)
Theorem encodeMintCall_validates_nothing (to uri : jsstring) :
  wfString uri ->
  4 * N.of_nat (length uri) <= maxStringLength ->
  startsWith (js "0x40c10f19") (encodeMintCall to uri) = true
  /\ length (encodeMintCall to uri)
     = (10 + Nat.max 64 (length (String_replace (js "0x") [] to)) + 128
        + ceil64 (length (tokenURIHex uri)))%nat
  /\ ((length (String_replace (js "0x") [] to) <= 64)%nat ->
      ((length (encodeMintCall to uri) - 10) mod 64 = 0)%nat)
  /\ ((64 <= length (String_replace (js "0x") [] to))%nat ->
      addressField (encodeMintCall to uri)
      = firstn 64 (String_replace (js "0x") [] to)).
Proof.
  intros Hwf Hmax. pose proof (tokenURIHex_length uri Hwf) as Hh.
  set (hex := tokenURIHex uri) in *.
  set (stripped := String_replace (js "0x") [] to).
  set (L := padStart 64 (js "0") (half_toString16 (Number_half (length hex)))).
  assert (Hout : encodeMintCall to uri
                 = js "0x40c10f19" ++ padStart 64 (js "0") stripped ++ offset
                     ++ L ++ padEnd (ceil64 (length hex)) (js "0") hex)
    by reflexivity.
  assert (HL : length L = 64%nat).
  { subst L. change (js "0") with [48]. rewrite padStart_length.
    unfold half_toString16, Number_half. cbn [fst snd]. rewrite length_app.
    assert (Hn : N.of_nat (length hex) / 2 < 16 ^ N.of_nat 14).
    { change (16 ^ N.of_nat 14) with 72057594037927936.
      unfold maxStringLength in Hmax.
      change (2 ^ 53 - 1) with 9007199254740991 in Hmax. lia. }
    pose proof (toString16_length _ 13 Hn) as Hl.
    change (js ".8") with [46; 56].
    destruct (N.odd (N.of_nat (length hex))); cbn [length]; lia. }
  destruct (ceil64_bounds (length hex)) as [Hc1 Hc2].
  assert (Hlen : length (encodeMintCall to uri)
                 = (10 + Nat.max 64 (length stripped) + 128
                    + ceil64 (length hex))%nat).
  { rewrite Hout, !length_app, HL. change (js "0") with [48].
    rewrite padStart_length, padEnd_length.
    change (length (js "0x40c10f19")) with 10%nat.
    change (length offset) with 64%nat. lia. }
  split; [rewrite Hout; apply startsWith_app|].
  split; [exact Hlen|]. split.
  - intros Hs. rewrite Hlen.
    replace (10 + Nat.max 64 (length stripped) + 128 + ceil64 (length hex) - 10)%nat
      with (ceil64 (length hex) + 3 * 64)%nat by lia.
    rewrite Nat.Div0.mod_add. exact Hc2.
  - intros Hs. rewrite Hout. unfold addressField, bytesAt, hexText.
    change (js "0x40c10f19") with (js "0x" ++ js "40c10f19").
    rewrite <- app_assoc, (skipn_exact (js "0x")) by reflexivity.
    rewrite skipn_exact by reflexivity.
    change (js "0") with [48] at 1. rewrite padStart_single.
    replace (64 - length stripped)%nat with 0%nat by lia.
    cbn [repeat app]. change (2 * 32)%nat with 64%nat.
    rewrite firstn_app.
    replace (64 - length stripped)%nat with 0%nat by lia.
    rewrite firstn_O. apply app_nil_r.
Qed.

(** ** From the metadata to the call data *)


Lemma base64Encode_length bs :
  length (base64Encode bs) = (4 * ((length bs + 2) / 3))%nat.
Proof.
  induction bs as [| a | a b | a b c l IH] using list_ind3;
    try reflexivity.
  cbn [base64Encode length]. rewrite IH.
  replace (S (S (S (length l))) + 2)%nat with (length l + 2 + 1 * 3)%nat
    by lia.
  rewrite Nat.div_add by lia. lia.
Qed.


(** X26: the token URI of a JSON-serializable value is the 29 characters
    [data:application/json;base64,] followed by four characters for every
    three bytes, or part of three, of the UTF-8 encoding of its JSON text;
    nothing else is added, and the payload is never split or wrapped. *)
Theorem encodeTokenURI_length (v : jsval) (tokenURI : jsstring) :
  serializable v ->
  encodeTokenURI v = Ok tokenURI ->
  firstn 29 tokenURI = js "data:application/json;base64,"
  /\ length tokenURI
     = (29 + 4 * ((length (utf8Encode (jsonText v)) + 2) / 3))%nat
  /\ isAscii tokenURI = true.
Proof.
  intros Hser Huri.
  destruct (encodeTokenURI_round_trip v Hser) as (He & Ht & _).
  assert (tokenURI = dataPrefix ++ base64Encode (utf8Encode (jsonText v)))
    by congruence.
  subst tokenURI. split; [|split].
  - now apply firstn_exact.
  - rewrite length_app, base64Encode_length. reflexivity.
  - now apply isTokenURI_ascii.
Qed.

(** ** Instances *)

Lemma connectWallet_then_getUniversalAddress_witness :
  exists m1,
    @connectWallet unit (Scripted.world connectingScript) Scripted.start
    = (Ok (Scripted.accounts connectingScript), m1)
    /\ getUniversalAddress m1
       = (Ok (VString (js "0x1111111111111111111111111111111111111111")), m1).
Proof.
  destruct (@connectWallet_then_getUniversalAddress
              unit (Scripted.world connectingScript) Scripted.start _ tt eq_refl)
    as (m1 & Hc & Hu & _).
  exists m1. split; [exact Hc|exact Hu].
Defined.

Lemma connectWallet_rejected_witness :
  service (snd (@connectWallet unit lockedWorld Scripted.start))
  = BaseAccountService.initial.
Proof.
  exact (proj1 (proj2 (proj2
           (@connectWallet_rejected unit lockedWorld Scripted.start _ tt eq_refl)))).
Defined.

Lemma ensureSubAccount_prefers_existing_witness :
  exists m1,
    @ensureSubAccount unit (Scripted.world discoveringScript) Scripted.start
    = (Ok (Some {| address := js "0x4444444444444444444444444444444444444444" |}), m1)
    /\ filter isCreation (trace m1) = [].
Proof.
  destruct (@ensureSubAccount_prefers_existing
              unit (Scripted.world discoveringScript) Scripted.start
              _ tt _ _ eq_refl eq_refl eq_refl)
    as (m1 & H1 & _ & H3 & _).
  exists m1. split; [exact H1|exact H3].
Defined.

Lemma ensureSubAccount_creates_when_none_witness :
  exists m1,
    @ensureSubAccount unit (Scripted.world rejectingScript) Scripted.start
    = (Ok (Some {| address := js "0x2222222222222222222222222222222222222222" |}), m1)
    /\ length (trace m1) = 2%nat.
Proof.
  destruct (@ensureSubAccount_creates_when_none
              unit (Scripted.world rejectingScript) Scripted.start
              _ tt tt _ eq_refl eq_refl (or_intror eq_refl) eq_refl)
    as (m1 & H1 & H2 & _).
  exists m1. split; [exact H1|]. rewrite H2. reflexivity.
Defined.


Lemma connect_then_dispatch_witness :
  fst ((@connectWallet unit (Scripted.world connectingScript) ;;
        @sendTransactionFromSub unit (Scripted.world connectingScript)
          CONTRACT_ADDRESS (js "0x") None)%machine
         Scripted.start)
  = Ok (VObject [(js "hash", VString (js "0xabc"))]).
Proof.
  exact (f_equal fst
           (@connect_then_dispatch
              unit (Scripted.world connectingScript) Scripted.start
              _ _ _ tt CONTRACT_ADDRESS (js "0x") eq_refl)).
Defined.

Lemma getWeather_catches_every_failure_witness :
  error (component (snd (@getWeather unit lockedWorld Scripted.start)))
  = VString (js "wallet locked").
Proof.
  exact (proj1 (proj2
           (@getWeather_catches_every_failure
              unit lockedWorld Scripted.start _ _ _ eq_refl eq_refl))).
Defined.

Lemma getWeather_rethrows_nullish_rejection_witness :
  fst (@getWeather unit (Scripted.world (offlineScript VUndefined))
                   Scripted.start)
  = Throw TypeError.
Proof.
  exact (f_equal fst
           (proj1 (@getWeather_rethrows_nullish_rejection
                     unit (Scripted.world (offlineScript VUndefined))
                     Scripted.start _ _ eq_refl eq_refl))).
Defined.

Lemma fetch_failure_reported_witness :
  error (component (snd (@getWeather unit
                           (Scripted.world (offlineScript unavailable))
                           Scripted.start)))
  = VString (js "service unavailable").
Proof.
  rewrite (@fetch_failure_reported
             unit (Scripted.world (offlineScript unavailable))
             Scripted.start _ tt _ eq_refl eq_refl).
  reflexivity.
Defined.

Lemma empty_conditions_reported_witness :
  error (component (snd (@getWeather unit (Scripted.world emptyScript)
                                     Scripted.start)))
  = VString (js "error").
Proof.
  rewrite (@empty_conditions_reported
             unit (Scripted.world emptyScript) Scripted.start _ tt
             eq_refl eq_refl).
  reflexivity.
Defined.

Lemma resolution_failure_reported_witness :
  filter isBatchedCall
    (trace (snd (@getWeather unit (Scripted.world failingScript)
                             Scripted.start)))
  = [].
Proof.
  exact (proj2 (proj2
           (@resolution_failure_reported
              unit (Scripted.world failingScript) Scripted.start
              _ tt _ _ _ _ _ eq_refl eq_refl eq_refl eq_refl eq_refl))).
Defined.

Lemma successful_attempt_witness :
  txHash (component (snd (@getWeather unit (Scripted.world acceptingScript)
                                      Scripted.start)))
  = VString (js "0xabc").
Proof.
  destruct (@successful_attempt
              unit (Scripted.world acceptingScript) Scripted.start
              _ tt _ _ _ _ _ tt eq_refl eq_refl eq_refl eq_refl eq_refl)
    as (id & Hid & Hrun & _).
  rewrite Hrun. cbn [snd component txHash].
  vm_compute in Hid. now injection Hid as <-.
Defined.

Lemma blank_city_fetches_Washington_witness :
  exists evs,
    trace (snd (@getWeather unit (Scripted.world acceptingScript)
                            (typedCity [32; 9; 160])))
    = HttpGet (js "https://api.openweathermap.org/data/2.5/weather?q=Washington&appid=key&units=metric")
      :: evs.
Proof.
  exact (@blank_city_fetches_Washington
           unit (Scripted.world acceptingScript) (typedCity [32; 9; 160])
           eq_refl).
Defined.

Lemma city_is_trimmed_not_escaped_witness :
  exists evs,
    trace (snd (@getWeather unit (Scripted.world acceptingScript)
                            (typedCity (js "  New York "))))
    = HttpGet (js "https://api.openweathermap.org/data/2.5/weather?q=New York&appid=key&units=metric")
      :: evs.
Proof.
  exact (@city_is_trimmed_not_escaped
           unit (Scripted.world acceptingScript) (typedCity (js "  New York "))
           (js "  ") (js " ") (js "New York") 78 107 (js "ew Yor")
           eq_refl (or_intror eq_refl) eq_refl eq_refl eq_refl eq_refl).
Defined.

Lemma link_empty_after_failure_witness :
  fst ((@getWeather unit lockedWorld ;; getBaseScanLink)%machine Scripted.start)
  = Ok [].
Proof.
  exact (f_equal fst
           (@link_empty_after_failure
              unit lockedWorld Scripted.start _ _ _ eq_refl eq_refl)).
Defined.

Lemma link_after_success_witness :
  fst ((@getWeather unit (Scripted.world acceptingScript) ;; getBaseScanLink)%machine
         Scripted.start)
  = Ok (js "https://sepolia.basescan.org/tx/0xabc").
Proof.
  refine (@link_after_success
            unit (Scripted.world acceptingScript) Scripted.start
            _ tt _ _ _ _ _ (js "0xabc") tt
            eq_refl eq_refl eq_refl eq_refl eq_refl eq_refl eq_refl _).
  discriminate.
Defined.


Lemma encodeMintCall_latin1_not_utf8_witness :
  bigEndian (lengthField (encodeMintCall sampleAddress (js "caf" ++ [233])))
  = Some 4
  /\ (4 < length (utf8Encode (js "caf" ++ [233%N])))%nat.
Proof.
  refine ((fun H => conj (proj1 H) (proj1 (proj2 H)))
            (encodeMintCall_latin1_not_utf8 sampleAddress (js "caf" ++ [233])
               eq_refl eq_refl eq_refl _)).
  vm_compute. discriminate.
Defined.

Lemma encodeMintCall_odd_hex_text_witness :
  decodeMintCall (encodeMintCall sampleAddress (js "a" ++ [937] ++ js "b"))
  = None.
Proof.
  refine (proj2 (proj2 (proj2
            (encodeMintCall_odd_hex_text sampleAddress (js "a") (js "b") 937
               eq_refl eq_refl eq_refl _ _)))).
  - split; [vm_compute; discriminate | reflexivity].
  - vm_compute. discriminate.
Defined.

Lemma encodeMintCall_validates_nothing_witness :
  startsWith (js "0x40c10f19") (encodeMintCall (js "not an address") (js "x"))
  = true.
Proof.
  refine (proj1 (encodeMintCall_validates_nothing
                   (js "not an address") (js "x")
                   (isAscii_wfString (js "x") eq_refl) _)).
  vm_compute. discriminate.
Defined.


Lemma encodeTokenURI_length_witness :
  length (dataPrefix ++ base64Encode (utf8Encode (jsonText (VString (js "clear sky")))))
  = 45%nat.
Proof.
  exact (proj1 (proj2
           (encodeTokenURI_length (VString (js "clear sky")) _
              (ser_string _ (isAscii_wfString (js "clear sky") eq_refl))
              eq_refl))).
Defined.
